(** * zerver/lib/queue.py: the RabbitMQ client layer

    A shallow embedding of [SimpleQueueClient] (blocking), of
    [TornadoQueueClient] (event driven), of [queue_json_publish] and of
    [retry_event], followed by the properties the design document states
    about them and by further properties of the code.

    The broker (pika and RabbitMQ) is not part of the repository.  It is
    modelled as an environment: every request a client issues is recorded in
    a trace, may fail as a fault schedule says, and otherwise acts on a small
    broker state (ready messages per queue, unacknowledged deliveries). *)

From stdpp Require Import gmap strings list fin_maps pretty.
From Stdlib Require Import ZArith Lia Strings.Byte.

Set Default Proof Using "Type".
Local Open Scope string_scope.
Local Open Scope list_scope.
Local Open Scope Z_scope.

(** ** Python values, exceptions and the effect monad *)

Module Py.

(** [bytes] objects. *)
Definition bytes := list Byte.byte.

#[global] Instance byte_eq_dec : EqDecision Byte.byte := Byte.byte_eq_dec.

(** The values an event dictionary may hold that matter to [retry_event]. *)
Inductive pyval :=
| PNone
| PBool (b : bool)
| PInt (z : Z)
| PStr (s : string).

#[global] Instance pyval_eq_dec : EqDecision pyval.
Proof. solve_decision. Defined.

(** [v + 1]: defined on numbers ([bool] is a subclass of [int]), a
    [TypeError] otherwise. *)
Definition py_add1 (v : pyval) : option pyval :=
  match v with
  | PInt z => Some (PInt (z + 1))
  | PBool b => Some (PInt (Z.b2z b + 1))
  | PNone | PStr _ => None
  end.

(** [v > n] for an integer constant [n]. *)
Definition py_gt (v : pyval) (n : Z) : option bool :=
  match v with
  | PInt z => Some (n <? z)
  | PBool b => Some (n <? Z.b2z b)
  | PNone | PStr _ => None
  end.

(** Exceptions.  All but the last are instances of [Exception];
    [ConnectionClosed] is the subclass of [AMQPConnectionError] that pika
    raises on a closed connection, and [OtherException] is an instance of
    another subclass of [Exception].  [NonException] is an instance of
    [BaseException] that is no instance of [Exception]: [KeyboardInterrupt],
    [SystemExit], [GeneratorExit]. *)
Inductive exn :=
| AMQPConnectionError
| ConnectionClosed
| AMQPChannelError
| AttributeError
| TypeError
| OtherException (name : string)
| NonException (name : string).

#[global] Instance exn_eq_dec : EqDecision exn.
Proof. solve_decision. Defined.

(** [except Exception] *)
Definition is_Exception (e : exn) : bool :=
  match e with
  | NonException _ => false
  | _ => true
  end.

(** [except pika.exceptions.AMQPConnectionError] *)
Definition is_AMQPConnectionError (e : exn) : bool :=
  match e with
  | AMQPConnectionError | ConnectionClosed => true
  | _ => false
  end.

(** [except pika.exceptions.ConnectionClosed] *)
Definition is_ConnectionClosed (e : exn) : bool :=
  match e with
  | ConnectionClosed => true
  | _ => false
  end.

Inductive result (A : Type) :=
| Ok (a : A)
| Raise (e : exn).
Arguments Ok {A} a.
Arguments Raise {A} e.

(** Computations over a state [S] that return or raise. *)
Definition M (S A : Type) : Type := S -> result A * S.

Definition ret {S A} (a : A) : M S A := fun s => (Ok a, s).

Definition raise {S A} (e : exn) : M S A := fun s => (Raise e, s).

Definition bind {S A B} (m : M S A) (k : A -> M S B) : M S B :=
  fun s =>
    match m s with
    | (Ok a, s') => k a s'
    | (Raise e, s') => (Raise e, s')
    end.

(** [try: m  except <classes matched by catches> as e: h e]; an exception
    of another class passes through. *)
Definition try_except {S A} (m : M S A) (catches : exn -> bool)
    (h : exn -> M S A) : M S A :=
  fun s =>
    match m s with
    | (Ok a, s') => (Ok a, s')
    | (Raise e, s') => if catches e then h e s' else (Raise e, s')
    end.

Definition get {S} : M S S := fun s => (Ok s, s).
Definition modify {S} (f : S -> S) : M S unit := fun s => (Ok tt, f s).

(** [for x in l: f x] *)
Fixpoint for_each {S A} (l : list A) (f : A -> M S unit) : M S unit :=
  match l with
  | [] => ret tt
  | x :: l' => bind (f x) (fun _ => for_each l' f)
  end.


End Py.
Export Py.

Declare Scope py_scope.
Delimit Scope py_scope with py.
Notation "x <- m ;; k" := (bind m (fun x => k))
  (at level 100, m at next level, k at level 200, right associativity) : py_scope.
Notation "m ;; k" := (bind m (fun _ => k))
  (at level 100, k at level 200, right associativity) : py_scope.
Local Open Scope py_scope.

(** ** The broker capability and the observable trace *)

Module Broker.

(** A callback handed to [register_consumer]: a consumer of raw bodies, or
    the closure [wrapped_callback] that [register_json_consumer] builds
    around a callback of decoded bodies.  Callers' functions are opaque;
    they are told apart by a number. *)
Inductive consumer :=
| RawConsumer (n : nat)
| JsonCallback (n : nat).

#[global] Instance consumer_eq_dec : EqDecision consumer.
Proof. solve_decision. Defined.

#[global] Instance consumer_countable : Countable consumer.
Proof.
  refine (inj_countable'
    (fun c => match c with RawConsumer n => inl n | JsonCallback n => inr n end)
    (fun s => match s with inl n => RawConsumer n | inr n => JsonCallback n end) _).
  by intros [].
Defined.

(** The closure [wrapped_consumer] that one call of [register_consumer]
    creates: a function object of its own ([wid] is its identity) that has
    captured the caller's [consumer]. *)
Record wrapped := Wrapped { wid : nat; inner : consumer }.

#[global] Instance wrapped_eq_dec : EqDecision wrapped.
Proof. solve_decision. Defined.

#[global] Instance wrapped_countable : Countable wrapped.
Proof.
  refine (inj_countable' (fun w => (wid w, inner w))
                         (fun p => Wrapped (fst p) (snd p)) _).
  by intros [].
Defined.

Inductive level := INFO | WARNING | CRITICAL.

#[global] Instance level_eq_dec : EqDecision level.
Proof. solve_decision. Defined.

(** What a client does that can be seen from outside, in the order it
    happens.  The first eight are requests to the broker; [Enter_reconnect]
    and [Enter_publish] mark the entry into the methods of these names. *)
Inductive action :=
| Connect (heartbeat : option Z) (tcp_keepidle : option Z)
| OpenChannel
| QueueDeclare (queue : string)
| BasicPublish (routing_key : string) (body : bytes)
| BasicConsume (queue : string) (w : wrapped) (consumer_tag : string)
| BasicGet (queue : string)
| BasicAck (delivery_tag : nat)
| BasicNack (delivery_tag : nat)
| StatsdIncr (key : string)
| Log (l : level) (message : string)
| CallConsumer (c : consumer) (delivery_tag : nat) (body : bytes)
| CallUser (n : nat)
| CallLater (secs : Z)
| Enter_reconnect
| Enter_publish (queue : string) (body : bytes).

#[global] Instance action_eq_dec : EqDecision action.
Proof. solve_decision. Defined.

(** What the client cannot decide: whether the [n]-th broker request fails,
    and with which exception; whether the connection object reports itself
    open once [n] requests have been issued; the [n]-th draw of random bits;
    what a caller's consumer does with a body and what a caller's function of
    an event does with it (return, or raise); the JSON encoder.  The
    properties below hold for every such environment unless they say
    otherwise. *)
Class Env := {
  faults : nat -> option exn;
  is_open_at : nat -> bool;
  getrandbits : nat -> N;
  consumer_outcome : consumer -> bytes -> option exn;
  handler_outcome : nat -> gmap string pyval -> option exn;
  ujson_dumps : gmap string pyval -> bytes;
}.

Record World := {
  trace : list action;
  tick : nat;                              (* broker requests issued so far *)
  draws : nat;                             (* random draws made so far *)
  next_obj : nat;                          (* closures created so far *)
  timers : nat;                            (* pending call_later(_reconnect) *)
  bqueues : gmap string (list bytes);      (* ready messages of each queue *)
  unacked : gmap nat (string * bytes);     (* delivered, not yet settled *)
  next_tag : nat;
}.

Definition new_world : World :=
  {| trace := []; tick := 0; draws := 0; next_obj := 0; timers := 0;
     bqueues := ∅; unacked := ∅; next_tag := 1 |}.

Definition log_action (a : action) (w : World) : World :=
  {| trace := trace w ++ [a]; tick := tick w; draws := draws w;
     next_obj := next_obj w; timers := timers w; bqueues := bqueues w;
     unacked := unacked w; next_tag := next_tag w |}.

Definition incr_tick (w : World) : World :=
  {| trace := trace w; tick := S (tick w); draws := draws w;
     next_obj := next_obj w; timers := timers w; bqueues := bqueues w;
     unacked := unacked w; next_tag := next_tag w |}.

Definition incr_draws (w : World) : World :=
  {| trace := trace w; tick := tick w; draws := S (draws w);
     next_obj := next_obj w; timers := timers w; bqueues := bqueues w;
     unacked := unacked w; next_tag := next_tag w |}.

Definition incr_obj (w : World) : World :=
  {| trace := trace w; tick := tick w; draws := draws w;
     next_obj := S (next_obj w); timers := timers w; bqueues := bqueues w;
     unacked := unacked w; next_tag := next_tag w |}.

Definition set_timers (n : nat) (w : World) : World :=
  {| trace := trace w; tick := tick w; draws := draws w;
     next_obj := next_obj w; timers := n; bqueues := bqueues w;
     unacked := unacked w; next_tag := next_tag w |}.

Definition set_store (qs : gmap string (list bytes))
    (un : gmap nat (string * bytes)) (nt : nat) (w : World) : World :=
  {| trace := trace w; tick := tick w; draws := draws w;
     next_obj := next_obj w; timers := timers w; bqueues := qs;
     unacked := un; next_tag := nt |}.

Section WithEnv.
Context `{Env}.

(** Something observable that is not a broker request. *)
Definition emit (a : action) : M World unit := modify (log_action a).

(** A broker request: it is recorded, it uses up one slot of the fault
    schedule, and it raises when that slot holds an exception. *)
Definition request (a : action) : M World unit :=
  fun w =>
    let w' := incr_tick (log_action a w) in
    match faults (tick w) with
    | Some e => (Raise e, w')
    | None => (Ok tt, w')
    end.

(** [connection.is_open] *)
Definition is_open : M World bool := fun w => (Ok (is_open_at (tick w)), w).

(** Opening a connection yields a new connection object. *)
Definition connect (heartbeat tcp_keepidle : option Z) : M World nat :=
  n <- (fun w => (Ok (tick w), w)) ;;
  request (Connect heartbeat tcp_keepidle) ;;
  ret n.

Definition open_channel : M World nat :=
  n <- (fun w => (Ok (tick w), w)) ;;
  request OpenChannel ;;
  ret n.

(** A durable declare creates the queue unless it exists. *)
Definition queue_declare (q : string) : M World unit :=
  request (QueueDeclare q) ;;
  modify (fun w =>
    match bqueues w !! q with
    | Some _ => w
    | None => set_store (<[q := []]> (bqueues w)) (unacked w) (next_tag w) w
    end).

(** The default exchange routes to the queue of that name and drops the
    message when there is none. *)
Definition basic_publish (q : string) (body : bytes) : M World unit :=
  request (BasicPublish q body) ;;
  modify (fun w =>
    match bqueues w !! q with
    | Some l => set_store (<[q := l ++ [body]]> (bqueues w)) (unacked w) (next_tag w) w
    | None => w
    end).

Definition basic_consume (q : string) (wc : wrapped) (ctag : string) : M World unit :=
  request (BasicConsume q wc ctag).

(** [basic_get]: the oldest ready message with a new delivery tag, or
    [None] for [(None, None, None)] when the queue is empty. *)
Definition basic_get (q : string) : M World (option (nat * bytes)) :=
  request (BasicGet q) ;;
  fun w =>
    match bqueues w !! q with
    | None => (Raise AMQPChannelError, w)
    | Some [] => (Ok None, w)
    | Some (m :: l) =>
        (Ok (Some (next_tag w, m)),
         set_store (<[q := l]> (bqueues w))
                   (<[next_tag w := (q, m)]> (unacked w))
                   (S (next_tag w)) w)
    end.

Definition basic_ack (tag : nat) : M World unit :=
  request (BasicAck tag) ;;
  modify (fun w => set_store (bqueues w) (delete tag (unacked w)) (next_tag w) w).

(** A negative acknowledgement puts the message back at the head. *)
Definition basic_nack (tag : nat) : M World unit :=
  request (BasicNack tag) ;;
  modify (fun w =>
    match unacked w !! tag with
    | Some (q, m) =>
        set_store (<[q := m :: default [] (bqueues w !! q)]> (bqueues w))
                  (delete tag (unacked w)) (next_tag w) w
    | None => w
    end).

(** [random.getrandbits(16)] *)
Definition getrandbits16 : M World N :=
  fun w => (Ok (getrandbits (draws w) `mod` 65536)%N, incr_draws w).

(** Creation of the closure [wrapped_consumer]. *)
Definition new_wrapped (c : consumer) : M World wrapped :=
  fun w => (Ok (Wrapped (next_obj w) c), incr_obj w).

(** Running a caller's consumer on one delivery. *)
Definition call_consumer (c : consumer) (tag : nat) (body : bytes) : M World unit :=
  emit (CallConsumer c tag body) ;;
  match consumer_outcome c body with
  | Some e => raise e
  | None => ret tt
  end.

(** [ioloop.IOLoop.instance().call_later(secs, self._reconnect)] *)
Definition call_later_reconnect (secs : Z) : M World unit :=
  emit (CallLater secs) ;;
  modify (fun w => set_timers (S (timers w)) w).

End WithEnv.

(** Lifting to a state that pairs a client object with the world. *)
Definition liftW {C A} (m : M World A) : M (C * World) A :=
  fun s => let r := m (snd s) in (fst r, (fst s, snd r)).

Definition getc {C} : M (C * World) C := fun s => (Ok (fst s), s).

Definition modc {C} (f : C -> C) : M (C * World) unit :=
  fun s => (Ok tt, (f (fst s), snd s)).

End Broker.
Export Broker.

(** ** [SimpleQueueClient]: the blocking client *)

Module Simple.

(** The attributes of the object.  A connection or channel object is
    known by the number of the request that made it; [None] is [None]. *)
Record SimpleQueueClient := {
  queues : gset string;
  connection : option nat;
  channel : option nat;
  consumers : gmap string (gset wrapped);    (* defaultdict(set) *)
  rabbitmq_heartbeat : option Z;
}.

Definition set_queues (qs : gset string) (c : SimpleQueueClient) :=
  {| queues := qs; connection := connection c; channel := channel c;
     consumers := consumers c; rabbitmq_heartbeat := rabbitmq_heartbeat c |}.

Definition set_connection (x : option nat) (c : SimpleQueueClient) :=
  {| queues := queues c; connection := x; channel := channel c;
     consumers := consumers c; rabbitmq_heartbeat := rabbitmq_heartbeat c |}.

Definition set_channel (x : option nat) (c : SimpleQueueClient) :=
  {| queues := queues c; connection := connection c; channel := x;
     consumers := consumers c; rabbitmq_heartbeat := rabbitmq_heartbeat c |}.

Definition set_consumers (m : gmap string (gset wrapped)) (c : SimpleQueueClient) :=
  {| queues := queues c; connection := connection c; channel := channel c;
     consumers := m; rabbitmq_heartbeat := rabbitmq_heartbeat c |}.

(** [self.consumers[queue_name].add(w)] on a [defaultdict(set)] *)
Definition consumers_add (q : string) (w : wrapped)
    (m : gmap string (gset wrapped)) : gmap string (gset wrapped) :=
  <[q := {[w]} ∪ default ∅ (m !! q)]> m.

(** The [(queue, consumer)] pairs that the two nested loops of
    [_reconnect_consumer_callbacks] visit, in the order of the visit.  Python
    fixes the order of a set's iteration only for a given run; the order
    taken here is the one in which the map and the sets list their entries,
    and no statement below relies on which one it is. *)
Definition registry_pairs (m : gmap string (gset wrapped)) : list (string * wrapped) :=
  map_to_list m ≫= (fun qs => pair (fst qs) <$> elements (snd qs)).

Definition state : Type := SimpleQueueClient * World.

Section WithEnv.
Context `{Env}.

(** [heartbeat] and [tcp_options] of the connection parameters; host and
    credentials come from the settings and play no part here. *)
Definition _get_parameters (c : SimpleQueueClient) : option Z * option Z :=
  let tcp_options :=
    if decide (rabbitmq_heartbeat c = Some 0) then Some (60 * 5) else None in
  (rabbitmq_heartbeat c, tcp_options).

(** The log line carries the time the connection took, which is left out. *)
Definition _connect : M state unit :=
  c <- getc ;;
  conn <- liftW (connect (fst (_get_parameters c)) (snd (_get_parameters c))) ;;
  modc (set_connection (Some conn)) ;;
  ch <- liftW open_channel ;;
  modc (set_channel (Some ch)) ;;
  liftW (emit (Log INFO "SimpleQueueClient connected")).

Definition _reconnect : M state unit :=
  liftW (emit Enter_reconnect) ;;
  modc (set_connection None) ;;
  modc (set_channel None) ;;
  modc (set_queues ∅) ;;
  _connect.

(** [self.channel.<method>]: an attribute of [None] cannot be taken. *)
Definition the_channel : M state nat :=
  c <- getc ;;
  match channel c with
  | Some ch => ret ch
  | None => raise AttributeError
  end.

Definition _generate_ctag (queue_name : string) : M state string :=
  n <- liftW getrandbits16 ;;
  ret (queue_name +:+ "_" +:+ pretty n).

Definition ready : M state bool :=
  c <- getc ;; ret (bool_decide (channel c <> None)).

(** The first statement of [ensure_queue]:
    [if self.connection is None or not self.connection.is_open: self._connect()] *)
Definition connect_unless_open : M state unit :=
  c <- getc ;;
  match connection c with
  | None => _connect
  | Some _ => o <- liftW is_open ;; if o : bool then ret tt else _connect
  end.

Definition ensure_queue {A} (queue_name : string) (callback : M state A) : M state A :=
  connect_unless_open ;;
  c <- getc ;;
  (if decide (queue_name ∈ queues c) then ret tt
   else
     the_channel ;;
     liftW (queue_declare queue_name) ;;
     modc (fun c => set_queues ({[queue_name]} ∪ queues c) c)) ;;
  callback.

(** The lambda that both [register_consumer] and
    [_reconnect_consumer_callback] hand to [ensure_queue]. *)
Definition do_consume (queue : string) (w : wrapped) : M state unit :=
  the_channel ;;
  ctag <- _generate_ctag queue ;;
  liftW (basic_consume queue w ctag).

Definition _reconnect_consumer_callback (queue : string) (w : wrapped) : M state unit :=
  liftW (emit (Log INFO "Queue reconnecting saved consumer")) ;;
  ensure_queue queue (do_consume queue w).

Definition _reconnect_consumer_callbacks : M state unit :=
  c <- getc ;;
  for_each (registry_pairs (consumers c))
           (fun p => _reconnect_consumer_callback (fst p) (snd p)).

Definition do_publish (queue_name : string) (body : bytes) : M state unit :=
  the_channel ;;
  liftW (basic_publish queue_name body) ;;
  liftW (emit (StatsdIncr ("rabbitmq.publish." +:+ queue_name))).

Definition publish (queue_name : string) (body : bytes) : M state unit :=
  liftW (emit (Enter_publish queue_name body)) ;;
  ensure_queue queue_name (do_publish queue_name body).

Definition json_publish (queue_name : string) (body : gmap string pyval) : M state unit :=
  let data := ujson_dumps body in
  sent <- try_except (publish queue_name data ;; ret true)
            is_AMQPConnectionError
            (fun _ =>
               liftW (emit (Log WARNING
                 "Failed to send to rabbitmq, trying to reconnect and send again")) ;;
               ret false) ;;
  if sent : bool then ret tt
  else _reconnect ;; publish queue_name data.

(** The body of the closure [wrapped_consumer], run on one delivery of the
    channel [ch] it is invoked with.  The handler is that of
    [except Exception as e]: an exception outside [Exception] passes. *)
Definition wrapped_consumer (w : wrapped) (delivery_tag : nat) (body : bytes)
    : M World unit :=
  try_except
    (call_consumer (inner w) delivery_tag body ;; basic_ack delivery_tag)
    is_Exception
    (fun e => basic_nack delivery_tag ;; raise e).

Definition register_consumer (queue_name : string) (consumer : consumer) : M state unit :=
  w <- liftW (new_wrapped consumer) ;;
  modc (fun c => set_consumers (consumers_add queue_name w (consumers c)) c) ;;
  ensure_queue queue_name (do_consume queue_name w).

Definition register_json_consumer (queue_name : string) (callback : nat) : M state unit :=
  register_consumer queue_name (JsonCallback callback).

(** The loop [while True] of [opened], for [fuel] iterations at most:
    [Some messages] when it has left the loop by [break], [None] when the
    iterations were not enough. *)
Fixpoint opened (fuel : nat) (queue_name : string) (messages : list bytes)
    : M state (option (list bytes)) :=
  match fuel with
  | O => ret None
  | S fuel' =>
      the_channel ;;
      r <- liftW (basic_get queue_name) ;;
      match r with
      | None => ret (Some messages)
      | Some (delivery_tag, message) =>
          the_channel ;;
          liftW (basic_ack delivery_tag) ;;
          opened fuel' queue_name (messages ++ [message])
      end
  end.

Definition drain_queue (fuel : nat) (queue_name : string)
    : M state (option (list bytes)) :=
  ensure_queue queue_name (opened fuel queue_name []).

(** [SimpleQueueClient(rabbitmq_heartbeat)]: the object exists only when
    [_connect] returned. *)
Definition __init__ (rabbitmq_heartbeat : option Z) : M World SimpleQueueClient :=
  fun w =>
    let c := {| queues := ∅; connection := None; channel := None;
                consumers := ∅; rabbitmq_heartbeat := rabbitmq_heartbeat |} in
    match _connect (c, w) with
    | (Ok _, s) => (Ok (fst s), snd s)
    | (Raise e, s) => (Raise e, snd s)
    end.

End WithEnv.
End Simple.

(** ** [TornadoQueueClient]: the event-driven client *)

Module Tornado.

(** The zero-argument callables that the client stores: [do_publish] of
    [publish], the lambda around [basic_consume], a caller's own callback
    (opaque), and [lambda: self.ensure_queue(queue_name, callback)], which
    [ensure_queue] buffers when there is no channel. *)
Inductive callback :=
| CbPublish (queue_name : string) (body : bytes)
| CbConsume (queue : string) (w : wrapped)
| CbUser (n : nat)
| CbEnsure (queue_name : string) (cb : callback).

(** The connection object, as pika drives it, and whether a channel has
    been asked for and not yet opened. *)
Inductive conn_phase := Connecting | Opened | Closed.

Record connection_obj := { phase : conn_phase; channel_pending : bool }.

(** The channel object holds the [finish] closures of the declares that the
    broker has not confirmed yet: the queue name and the callback each has
    captured. *)
Record channel_obj := { chan_id : nat; declare_cbs : list (string * callback) }.

Record TornadoQueueClient := {
  queues : gset string;
  connection : option connection_obj;
  channel : option channel_obj;
  consumers : gmap string (gset wrapped);
  rabbitmq_heartbeat : option Z;
  _on_open_cbs : list callback;
  _connection_failure_count : Z;
}.

Definition CONNECTION_RETRY_SECS : Z := 2.
Definition CONNECTION_FAILURES_BEFORE_NOTIFY : Z := 10.

Definition set_queues (qs : gset string) (c : TornadoQueueClient) :=
  {| queues := qs; connection := connection c; channel := channel c;
     consumers := consumers c; rabbitmq_heartbeat := rabbitmq_heartbeat c;
     _on_open_cbs := _on_open_cbs c;
     _connection_failure_count := _connection_failure_count c |}.

Definition set_connection (x : option connection_obj) (c : TornadoQueueClient) :=
  {| queues := queues c; connection := x; channel := channel c;
     consumers := consumers c; rabbitmq_heartbeat := rabbitmq_heartbeat c;
     _on_open_cbs := _on_open_cbs c;
     _connection_failure_count := _connection_failure_count c |}.

Definition set_channel (x : option channel_obj) (c : TornadoQueueClient) :=
  {| queues := queues c; connection := connection c; channel := x;
     consumers := consumers c; rabbitmq_heartbeat := rabbitmq_heartbeat c;
     _on_open_cbs := _on_open_cbs c;
     _connection_failure_count := _connection_failure_count c |}.

Definition set_consumers (m : gmap string (gset wrapped)) (c : TornadoQueueClient) :=
  {| queues := queues c; connection := connection c; channel := channel c;
     consumers := m; rabbitmq_heartbeat := rabbitmq_heartbeat c;
     _on_open_cbs := _on_open_cbs c;
     _connection_failure_count := _connection_failure_count c |}.

Definition set_on_open_cbs (l : list callback) (c : TornadoQueueClient) :=
  {| queues := queues c; connection := connection c; channel := channel c;
     consumers := consumers c; rabbitmq_heartbeat := rabbitmq_heartbeat c;
     _on_open_cbs := l;
     _connection_failure_count := _connection_failure_count c |}.

Definition set_failure_count (n : Z) (c : TornadoQueueClient) :=
  {| queues := queues c; connection := connection c; channel := channel c;
     consumers := consumers c; rabbitmq_heartbeat := rabbitmq_heartbeat c;
     _on_open_cbs := _on_open_cbs c;
     _connection_failure_count := n |}.

(** [queue_declare(..., callback=finish)] leaves [finish] with the channel. *)
Definition push_declare_cb (q : string) (cb : callback) (c : TornadoQueueClient) :=
  match channel c with
  | Some ch =>
      set_channel (Some {| chan_id := chan_id ch;
                           declare_cbs := declare_cbs ch ++ [(q, cb)] |}) c
  | None => c
  end.

Definition state : Type := TornadoQueueClient * World.

Section WithEnv.
Context `{Env}.

Definition _get_parameters (c : TornadoQueueClient) : option Z * option Z :=
  let tcp_options :=
    if decide (rabbitmq_heartbeat c = Some 0) then Some (60 * 5) else None in
  (rabbitmq_heartbeat c, tcp_options).

(** The connection is made in the background: the constructor returns an
    object that is still connecting. *)
Definition _connect : M state unit :=
  liftW (emit (Log INFO "Beginning TornadoQueueClient connection")) ;;
  c <- getc ;;
  liftW (request (Connect (fst (_get_parameters c)) (snd (_get_parameters c)))) ;;
  modc (set_connection (Some {| phase := Connecting; channel_pending := false |})).

Definition _reconnect : M state unit :=
  liftW (emit Enter_reconnect) ;;
  modc (set_connection None) ;;
  modc (set_channel None) ;;
  modc (set_queues ∅) ;;
  liftW (emit (Log WARNING "TornadoQueueClient attempting to reconnect to RabbitMQ")) ;;
  _connect.

Definition _on_connection_open_error : M state unit :=
  modc (fun c => set_failure_count (_connection_failure_count c + 1) c) ;;
  let retry_secs := CONNECTION_RETRY_SECS in
  let message := "TornadoQueueClient couldn't connect to RabbitMQ, retrying in "
                 +:+ pretty retry_secs +:+ " secs..." in
  c <- getc ;;
  (if CONNECTION_FAILURES_BEFORE_NOTIFY <? _connection_failure_count c
   then liftW (emit (Log CRITICAL message))
   else liftW (emit (Log WARNING message))) ;;
  liftW (call_later_reconnect retry_secs).

Definition _on_connection_closed : M state unit :=
  modc (set_failure_count 1) ;;
  let retry_secs := CONNECTION_RETRY_SECS in
  liftW (emit (Log WARNING
    ("TornadoQueueClient lost connection to RabbitMQ, reconnecting in "
     +:+ pretty retry_secs +:+ " secs..."))) ;;
  liftW (call_later_reconnect retry_secs).

Definition _on_open : M state unit :=
  modc (set_failure_count 0) ;;
  try_except
    (c <- getc ;;
     match connection c with
     | None => raise AttributeError
     | Some conn =>
         liftW (request OpenChannel) ;;
         modc (set_connection (Some {| phase := phase conn; channel_pending := true |}))
     end)
    is_ConnectionClosed
    (fun _ => liftW (emit (Log WARNING
       "TornadoQueueClient couldn't open channel: connection already closed"))).

Definition the_channel : M state channel_obj :=
  c <- getc ;;
  match channel c with
  | Some ch => ret ch
  | None => raise AttributeError
  end.

Definition _generate_ctag (queue_name : string) : M state string :=
  n <- liftW getrandbits16 ;;
  ret (queue_name +:+ "_" +:+ pretty n).

Definition ready (c : TornadoQueueClient) : bool :=
  bool_decide (channel c <> None).

Definition do_consume (queue : string) (w : wrapped) : M state unit :=
  the_channel ;;
  ctag <- _generate_ctag queue ;;
  liftW (basic_consume queue w ctag).

Definition do_publish (queue_name : string) (body : bytes) : M state unit :=
  the_channel ;;
  liftW (basic_publish queue_name body) ;;
  liftW (emit (StatsdIncr ("rabbitmq.publish." +:+ queue_name))).

(** [ensure_queue], with the call [callback()] of its last line passed in
    as [run]. *)
Definition ensure_queue_with (run : M state unit) (queue_name : string)
    (callback : callback) : M state unit :=
  c <- getc ;;
  if decide (queue_name ∈ queues c) then run
  else if ready c then
    liftW (queue_declare queue_name) ;;
    modc (push_declare_cb queue_name callback)
  else
    modc (fun c => set_on_open_cbs (_on_open_cbs c ++ [CbEnsure queue_name callback]) c).

(** Calling a stored callable. *)
Fixpoint run_callback (cb : callback) : M state unit :=
  match cb with
  | CbPublish q body => do_publish q body
  | CbConsume q w => do_consume q w
  | CbUser n => liftW (emit (CallUser n))
  | CbEnsure q cb' => ensure_queue_with (run_callback cb') q cb'
  end.

Definition ensure_queue (queue_name : string) (callback : callback) : M state unit :=
  ensure_queue_with (run_callback callback) queue_name callback.

(** The closure [finish] of [ensure_queue], called with the broker's
    confirmation of the declare. *)
Definition finish (queue_name : string) (callback : callback) : M state unit :=
  modc (fun c => set_queues ({[queue_name]} ∪ queues c) c) ;;
  run_callback callback.

Definition _reconnect_consumer_callback (queue : string) (w : wrapped) : M state unit :=
  liftW (emit (Log INFO "Queue reconnecting saved consumer")) ;;
  ensure_queue queue (CbConsume queue w).

Definition _reconnect_consumer_callbacks : M state unit :=
  c <- getc ;;
  for_each (Simple.registry_pairs (consumers c))
           (fun p => _reconnect_consumer_callback (fst p) (snd p)).

Definition _on_channel_open (ch : channel_obj) : M state unit :=
  modc (set_channel (Some ch)) ;;
  c <- getc ;;
  for_each (_on_open_cbs c) run_callback ;;
  _reconnect_consumer_callbacks ;;
  liftW (emit (Log INFO "TornadoQueueClient connected")).

Definition publish (queue_name : string) (body : bytes) : M state unit :=
  liftW (emit (Enter_publish queue_name body)) ;;
  ensure_queue queue_name (CbPublish queue_name body).

Definition json_publish (queue_name : string) (body : gmap string pyval) : M state unit :=
  let data := ujson_dumps body in
  sent <- try_except (publish queue_name data ;; ret true)
            is_AMQPConnectionError
            (fun _ =>
               liftW (emit (Log WARNING
                 "Failed to send to rabbitmq, trying to reconnect and send again")) ;;
               ret false) ;;
  if sent : bool then ret tt
  else _reconnect ;; publish queue_name data.

(** The body of this class's [wrapped_consumer]. *)
Definition wrapped_consumer (w : wrapped) (delivery_tag : nat) (body : bytes)
    : M World unit :=
  call_consumer (inner w) delivery_tag body ;;
  basic_ack delivery_tag.

Definition register_consumer (queue_name : string) (consumer : consumer) : M state unit :=
  w <- liftW (new_wrapped consumer) ;;
  c <- getc ;;
  if ready c then
    modc (fun c => set_consumers (Simple.consumers_add queue_name w (consumers c)) c) ;;
    ensure_queue queue_name (CbConsume queue_name w)
  else
    modc (fun c => set_consumers (Simple.consumers_add queue_name w (consumers c)) c).

(** [TornadoQueueClient()] *)
Definition __init__ : M World TornadoQueueClient :=
  fun w =>
    let c := {| queues := ∅; connection := None; channel := None;
                consumers := ∅; rabbitmq_heartbeat := None;
                _on_open_cbs := []; _connection_failure_count := 0 |} in
    match _connect (c, w) with
    | (Ok _, s) =>
        (Ok (set_failure_count 0 (set_on_open_cbs [] (fst s))), snd s)
    | (Raise e, s) => (Raise e, snd s)
    end.

(** *** The event loop

    What the I/O loop may call into the client for the connection and the
    channel that the client refers to, and when: the three connection
    callbacks, the channel's open callback, a confirmation of the oldest
    unconfirmed declare, and a timer set by [call_later].

    [_reconnect] gives up [self.connection] and [self.channel] without
    closing them, and [_connect] makes every connection with the same three
    bound methods as callbacks.  The loop may therefore still call these
    methods for a connection that the client has given up, whatever the
    current one does; such a call is the method itself, run on the state of
    the client, and is not among the events below. *)
Inductive loop_event :=
| EvOpenError
| EvOpened
| EvChannelOpened
| EvClosed
| EvDeclareOk
| EvTimer.

Definition set_phase (p : conn_phase) (pend : bool) : M state unit :=
  modc (set_connection (Some {| phase := p; channel_pending := pend |})).

(** One turn of the loop; [None] when the event cannot happen in the state.
    The result is the state in which the callback leaves the client, whether
    it returns or raises: an exception that leaves a callback goes to the
    loop and does not come back into the client. *)
Definition step (ev : loop_event) (s : state) : option state :=
  let c := fst s in
  match ev, connection c with
  | EvOpenError, Some {| phase := Connecting |} =>
      Some (snd ((set_phase Closed false ;; _on_connection_open_error) s))
  | EvOpened, Some {| phase := Connecting |} =>
      Some (snd ((set_phase Opened false ;; _on_open) s))
  | EvChannelOpened, Some {| phase := Opened; channel_pending := true |} =>
      Some (snd ((set_phase Opened false ;;
                  _on_channel_open {| chan_id := tick (snd s); declare_cbs := [] |}) s))
  | EvClosed, Some {| phase := Opened |} =>
      Some (snd ((set_phase Closed false ;; _on_connection_closed) s))
  | EvDeclareOk, Some {| phase := Opened |} =>
      match channel c with
      | Some {| chan_id := i; declare_cbs := (q, cb) :: rest |} =>
          Some (snd ((modc (set_channel (Some {| chan_id := i; declare_cbs := rest |})) ;;
                      finish q cb) s))
      | _ => None
      end
  | EvTimer, _ =>
      match timers (snd s) with
      | S n => Some (snd ((liftW (modify (set_timers n)) ;; _reconnect) s))
      | O => None
      end
  | _, _ => None
  end.

(** What application code may call between two turns of the loop. *)
Inductive app_call :=
| CallEnsureQueue (queue_name : string) (n : nat)
| CallRegisterConsumer (queue_name : string) (c : consumer)
| CallPublish (queue_name : string) (body : bytes)
| CallJsonPublish (queue_name : string) (body : gmap string pyval).

Definition apply_call (a : app_call) : M state unit :=
  match a with
  | CallEnsureQueue q n => ensure_queue q (CbUser n)
  | CallRegisterConsumer q c => register_consumer q c
  | CallPublish q body => publish q body
  | CallJsonPublish q body => json_publish q body
  end.

Inductive input :=
| FromLoop (ev : loop_event)
| FromApp (a : app_call).

Definition react (i : input) (s : state) : option state :=
  match i with
  | FromLoop ev => step ev s
  | FromApp a => Some (snd (apply_call a s))
  end.

End WithEnv.
End Tornado.

(** ** Module level: the client singleton, [queue_json_publish], [retry_event] *)

Module Queue.

Definition MAX_REQUEST_RETRIES : Z := 3.

Record settings := {
  USING_RABBITMQ : bool;
  RUNNING_INSIDE_TORNADO : bool;
}.

Inductive queue_client_obj :=
| SimpleClient (c : Simple.SimpleQueueClient)
| TornadoClient (c : Tornado.TornadoQueueClient).

(** The [processor] argument of [queue_json_publish]: the [lambda x: None]
    of [retry_event], or a function of the caller. *)
Inductive processor :=
| LambdaNone
| UserProcessor (n : nat).

(** Calls into application code outside the client. *)
Inductive app_action :=
| CallFailureProcessor (n : nat) (event : gmap string pyval)
| CallProcessor (n : nat) (event : gmap string pyval)
| WorkerConsume (queue_name : string) (event : gmap string pyval).

Record process := {
  queue_client : option queue_client_obj;      (* the global [queue_client] *)
  world : World;
  app_trace : list app_action;
}.

Definition set_client (x : option queue_client_obj) (p : process) :=
  {| queue_client := x; world := world p; app_trace := app_trace p |}.

Definition set_world (w : World) (p : process) :=
  {| queue_client := queue_client p; world := w; app_trace := app_trace p |}.

Definition log_app (a : app_action) (p : process) :=
  {| queue_client := queue_client p; world := world p;
     app_trace := app_trace p ++ [a] |}.

Section WithEnv.
Context `{Env}.
Variable conf : settings.

(** Running a constructor on the process's world. *)
Definition construct {C} (init : M World C) (wrap : C -> queue_client_obj)
    : M process unit :=
  fun p =>
    match init (world p) with
    | (Ok c, w) => (Ok tt, set_client (Some (wrap c)) (set_world w p))
    | (Raise e, w) => (Raise e, set_world w p)
    end.

Definition get_queue_client : M process (option queue_client_obj) :=
  p <- get ;;
  match queue_client p with
  | None =>
      if RUNNING_INSIDE_TORNADO conf && USING_RABBITMQ conf
      then construct Tornado.__init__ TornadoClient
      else if USING_RABBITMQ conf
      then construct (Simple.__init__ (Some 0)) SimpleClient
      else ret tt
  | Some _ => ret tt
  end ;;
  p <- get ;;
  ret (queue_client p).

(** A method of the client object, run on the process's world. *)
Definition on_client {C} (wrap : C -> queue_client_obj) (c : C)
    (m : M (C * World) unit) : M process unit :=
  fun p =>
    let r := m (c, world p) in
    (fst r, set_client (Some (wrap (fst (snd r)))) (set_world (snd (snd r)) p)).

Definition client_json_publish (queue_name : string) (event : gmap string pyval)
    : M process unit :=
  o <- get_queue_client ;;
  match o with
  | Some (SimpleClient c) =>
      on_client SimpleClient c (Simple.json_publish queue_name event)
  | Some (TornadoClient c) =>
      on_client TornadoClient c (Tornado.json_publish queue_name event)
  | None => raise AttributeError
  end.

(** A call of an application function of one event. *)
Definition call_app (a : app_action) (n : nat) (event : gmap string pyval)
    : M process unit :=
  modify (log_app a) ;;
  match handler_outcome n event with
  | Some e => raise e
  | None => ret tt
  end.

Definition call_processor (f : processor) (event : gmap string pyval) : M process unit :=
  match f with
  | LambdaNone => ret tt
  | UserProcessor n => call_app (CallProcessor n event) n event
  end.

(** [queue_lock] is held for the whole body; with one thread of control it
    changes nothing. *)
Definition queue_json_publish (queue_name : string) (event : gmap string pyval)
    (processor : option processor) : M process unit :=
  if USING_RABBITMQ conf then client_json_publish queue_name event
  else match processor with
       | Some f => call_processor f event
       | None =>
           (* get_worker(queue_name).consume_wrapper(event) *)
           modify (log_app (WorkerConsume queue_name event))
       end.

(** [retry_event] works on the caller's dictionary: the state pairs that
    dictionary with the process. *)
Definition on_process {A} (m : M process A) : M (gmap string pyval * process) A :=
  fun s => let r := m (snd s) in (fst r, (fst s, snd r)).

Definition the_event : M (gmap string pyval * process) (gmap string pyval) :=
  fun s => (Ok (fst s), s).

Definition set_item (k : string) (v : pyval) : M (gmap string pyval * process) unit :=
  fun s => (Ok tt, (<[k := v]> (fst s), snd s)).

(** [event[k]]; the key is there wherever this is used. *)
Definition get_item (k : string) : M (gmap string pyval * process) pyval :=
  event <- the_event ;;
  match event !! k with
  | Some v => ret v
  | None => raise (OtherException "KeyError")
  end.

Definition retry_event (queue_name : string) (failure_processor : nat)
    : M (gmap string pyval * process) unit :=
  event <- the_event ;;
  (if decide (event !! "failed_tries" = None)
   then set_item "failed_tries" (PInt 0) else ret tt) ;;
  v <- get_item "failed_tries" ;;
  match py_add1 v with
  | None => raise TypeError
  | Some v' =>
      set_item "failed_tries" v' ;;
      v <- get_item "failed_tries" ;;
      match py_gt v MAX_REQUEST_RETRIES with
      | None => raise TypeError
      | Some true =>
          event <- the_event ;;
          on_process (call_app (CallFailureProcessor failure_processor event)
                               failure_processor event)
      | Some false =>
          event <- the_event ;;
          on_process (queue_json_publish queue_name event (Some LambdaNone))
      end
  end.

End WithEnv.
End Queue.

(** ** Vocabulary of the statements *)

(** [m] leaves the part [view] of the client object as it was. *)
Definition keeps {C A V} (view : C -> V) (m : M (C * World) A) : Prop :=
  forall s, view (fst (snd (m s))) = view (fst s).


(** [m] keeps a property of the client object. *)
Definition preserves {C A} (I : C -> Prop) (m : M (C * World) A) : Prop :=
  forall s, I (fst s) -> I (fst (snd (m s))).

(** [m] adds to the trace, and only actions that satisfy [P]. *)
Definition appendsW {A} (P : action -> Prop) (m : M World A) : Prop :=
  forall w, exists l, trace (snd (m w)) = trace w ++ l /\ Forall P l.

Definition appends {C A} (P : action -> Prop) (m : M (C * World) A) : Prop :=
  forall s, exists l, trace (snd (snd (m s))) = trace (snd s) ++ l /\ Forall P l.

(** How many actions of a kind a piece of trace holds. *)
Definition count (f : action -> bool) (l : list action) : nat :=
  length (List.filter f l).

(** [m] adds to the trace, and at most [n] actions of the kind [f]. *)
Definition at_most {C A} (f : action -> bool) (n : nat) (m : M (C * World) A) : Prop :=
  forall s, exists l, trace (snd (snd (m s))) = trace (snd s) ++ l /\ (count f l <= n)%nat.

Definition is_marker (a : action) : bool :=
  match a with Enter_reconnect | Enter_publish _ _ => true | _ => false end.

Definition is_reconnect (a : action) : bool :=
  match a with Enter_reconnect => true | _ => false end.

Definition is_publish_entry (a : action) : bool :=
  match a with Enter_publish _ _ => true | _ => false end.

Definition is_basic_publish (a : action) : bool :=
  match a with BasicPublish _ _ => true | _ => false end.

Definition is_declare (a : action) : bool :=
  match a with QueueDeclare _ => true | _ => false end.

Definition is_consume (a : action) : bool :=
  match a with BasicConsume _ _ _ => true | _ => false end.

Definition is_get_or_ack (a : action) : bool :=
  match a with BasicGet _ | BasicAck _ => true | _ => false end.


Definition is_nack (a : action) : bool :=
  match a with BasicNack _ => true | _ => false end.

Definition quiet_action (a : action) : Prop := is_marker a = false.

(** The state in which [json_publish] goes on after it has caught the
    error of the first attempt. *)
Definition warned {C} (s : C * World) : C * World :=
  (fst s, log_action (Log WARNING
     "Failed to send to rabbitmq, trying to reconnect and send again") (snd s)).

(** A run of the event loop: the events of [evs] one after the other. *)
Fixpoint steps `{Env} (evs : list Tornado.loop_event) (s : Tornado.state)
    : option Tornado.state :=
  match evs with
  | [] => Some s
  | ev :: evs' =>
      match Tornado.step ev s with
      | Some s' => steps evs' s'
      | None => None
      end
  end.

Fixpoint reacts `{Env} (ins : list Tornado.input) (s : Tornado.state)
    : option Tornado.state :=
  match ins with
  | [] => Some s
  | i :: ins' =>
      match Tornado.react i s with
      | Some s' => reacts ins' s'
      | None => None
      end
  end.

(** The consumer tag made from the [d]-th random draw. *)
Definition ctag_of `{Env} (queue : string) (d : nat) : string :=
  queue +:+ "_" +:+ pretty (getrandbits d `mod` 65536)%N.

(** One consume request for each pair, with the tags of successive draws
    from the [d]-th on. *)
Fixpoint consume_requests `{Env} (d : nat) (pairs : list (string * wrapped))
    : list action :=
  match pairs with
  | [] => []
  | p :: pairs' =>
      BasicConsume (fst p) (snd p) (ctag_of (fst p) d) :: consume_requests (S d) pairs'
  end.

(** The state in which the blocking [_connect] ends when the broker accepts
    the connection and the channel. *)
Definition connected `{Env} (c : Simple.SimpleQueueClient) (w : World) : Simple.state :=
  (Simple.set_channel (Some (S (tick w))) (Simple.set_connection (Some (tick w)) c),
   log_action (Log INFO "SimpleQueueClient connected")
     (incr_tick (log_action OpenChannel
        (incr_tick (log_action
           (Connect (fst (Simple._get_parameters c)) (snd (Simple._get_parameters c)))
           w))))).

(** The requests of a drain that meets the delivery tags [tags]. *)
Definition drain_requests (q : string) (tags : list nat) : list action :=
  (tags ≫= fun t => [BasicGet q; BasicAck t]) ++ [BasicGet q].

(** The blocking client has a connection that reports itself open, and a
    channel. *)
Definition live `{Env} (c : Simple.SimpleQueueClient) (w : World) : Prop :=
  is_Some (Simple.connection c) /\ is_Some (Simple.channel c) /\
  is_open_at (tick w) = true.

(** The world after the broker has taken a declare of [q]. *)
Definition declared `{Env} (q : string) (w : World) : World :=
  snd (queue_declare q w).

(** What [_reconnect] of the event-driven client shows. *)
Definition reconnect_actions (c : Tornado.TornadoQueueClient) : list action :=
  [Enter_reconnect;
   Log WARNING "TornadoQueueClient attempting to reconnect to RabbitMQ";
   Log INFO "Beginning TornadoQueueClient connection";
   Connect (fst (Tornado._get_parameters c)) (snd (Tornado._get_parameters c))].

(** What the replay of the registry shows while it runs: a log line and a
    declare for each pair. *)
Definition replay_declares (pairs : list (string * wrapped)) : list action :=
  pairs ≫= fun p => [Log INFO "Queue reconnecting saved consumer"; QueueDeclare (fst p)].

(** The [finish] closures left with the channel by buffered calls of
    [ensure_queue] with a caller's callback, and by the replay. *)
Definition user_finishes (reqs : list (string * nat)) : list (string * Tornado.callback) :=
  (fun r => (fst r, Tornado.CbUser (snd r))) <$> reqs.

Definition consume_finishes (pairs : list (string * wrapped))
    : list (string * Tornado.callback) :=
  (fun p => (fst p, Tornado.CbConsume (fst p) (snd p))) <$> pairs.

(** The callables that application code hands to [ensure_queue]: a caller's
    own callback, and [do_publish] of [publish]. *)
Definition plain (cb : Tornado.callback) : bool :=
  match cb with
  | Tornado.CbUser _ | Tornado.CbPublish _ _ => true
  | _ => false
  end.

(** The callables that [ensure_queue] is called with: the above and the
    lambda around [basic_consume]. *)
Definition leaf (cb : Tornado.callback) : bool :=
  match cb with
  | Tornado.CbEnsure _ _ => false
  | _ => true
  end.

(** A buffered call of [ensure_queue] made by application code. *)
Definition deferred_call (cb : Tornado.callback) : bool :=
  match cb with
  | Tornado.CbEnsure _ cb' => plain cb'
  | _ => false
  end.

(** The on-open list holds buffered calls of application code, and the
    [finish] closures with the channel hold callables of the above kind. *)
Definition callbacks_wf (c : Tornado.TornadoQueueClient) : Prop :=
  Forall (fun cb => deferred_call cb = true) (Tornado._on_open_cbs c) /\
  Forall (fun it => leaf (snd it) = true)
         (from_option Tornado.declare_cbs [] (Tornado.channel c)).

(** The on-open list made of the calls [ensure_queue(q, cb)], for [(q, cb)]
    in [items]. *)
Definition buffered (items : list (string * Tornado.callback)) : list Tornado.callback :=
  (fun it => Tornado.CbEnsure (fst it) (snd it)) <$> items.

(** All the calls of [items] are calls that application code makes. *)
Definition all_plain (items : list (string * Tornado.callback)) : bool :=
  forallb (fun it => plain (snd it)) items.

(** What calling such a callable shows when the broker takes the request. *)
Definition shown_by (cb : Tornado.callback) : list action :=
  match cb with
  | Tornado.CbUser n => [CallUser n]
  | Tornado.CbPublish q b => [BasicPublish q b; StatsdIncr ("rabbitmq.publish." +:+ q)]
  | _ => []
  end.

(** The part of the client that holds stored callables. *)
Definition stored (c : Tornado.TornadoQueueClient)
    : list Tornado.callback * option Tornado.channel_obj :=
  (Tornado._on_open_cbs c, Tornado.channel c).

(** The declares that running the on-open list sends, and what the callables
    of its calls show when they are called. *)
Definition declares_of (items : list (string * Tornado.callback)) : list action :=
  (fun it => QueueDeclare (fst it)) <$> items.

Definition callbacks_shown (items : list (string * Tornado.callback)) : list action :=
  items ≫= fun it => shown_by (snd it).

(** The part of the client that the connection lifecycle is about. *)
Definition lifecycle (c : Tornado.TornadoQueueClient)
    : option Tornado.connection_obj * Z :=
  (Tornado.connection c, Tornado._connection_failure_count c).


(** *** Concrete environments and inputs *)

(** A broker that never fails, and one whose [k]-th request fails. *)
Definition calm : Env :=
  {| faults := fun _ => None;
     is_open_at := fun _ => true;
     getrandbits := fun n => N.of_nat (7 + n);
     consumer_outcome := fun _ _ => None;
     handler_outcome := fun _ _ => None;
     ujson_dumps := fun _ => [] |}.

Definition failing_at (k : nat) (e : exn) : Env :=
  {| faults := fun n => if decide (n = k) then Some e else None;
     is_open_at := fun _ => true;
     getrandbits := fun n => N.of_nat (7 + n);
     consumer_outcome := fun _ _ => None;
     handler_outcome := fun _ _ => None;
     ujson_dumps := fun _ => [] |}.

(** A broker that is down from the [k]-th request on. *)
Definition failing_since (k : nat) (e : exn) : Env :=
  {| faults := fun n => if decide (k <= n)%nat then Some e else None;
     is_open_at := fun _ => true;
     getrandbits := fun n => N.of_nat (7 + n);
     consumer_outcome := fun _ _ => None;
     handler_outcome := fun _ _ => None;
     ujson_dumps := fun _ => [] |}.

(** A consumer that raises on every body. *)
Definition raising : Env :=
  {| faults := fun _ => None;
     is_open_at := fun _ => true;
     getrandbits := fun n => N.of_nat (7 + n);
     consumer_outcome := fun _ _ => Some (OtherException "ValueError");
     handler_outcome := fun _ _ => None;
     ujson_dumps := fun _ => [] |}.

(** A consumer that is interrupted on every body: the exception it raises
    is no instance of [Exception]. *)
Definition interrupted : Env :=
  {| faults := fun _ => None;
     is_open_at := fun _ => true;
     getrandbits := fun n => N.of_nat (7 + n);
     consumer_outcome := fun _ _ => Some (NonException "KeyboardInterrupt");
     handler_outcome := fun _ _ => None;
     ujson_dumps := fun _ => [] |}.

(** A broker that has delivered one message of the queue "q", with the
    delivery tag 1, and waits for it to be settled. *)
Definition one_delivered : World :=
  set_store {[ "q" := [] ]} {[ 1%nat := ("q", [Byte.x61]) ]} 2 new_world.

(** A blocking client as [SimpleQueueClient()] leaves it. *)
Definition simple_connected : Simple.state :=
  ({| Simple.queues := ∅; Simple.connection := Some 0%nat;
      Simple.channel := Some 1%nat; Simple.consumers := ∅;
      Simple.rabbitmq_heartbeat := Some 0 |},
   {| trace := [Connect (Some 0) (Some 300); OpenChannel;
                Log INFO "SimpleQueueClient connected"];
      tick := 2; draws := 0; next_obj := 0; timers := 0;
      bqueues := ∅; unacked := ∅; next_tag := 1 |}).

(** The blocking client after [register_consumer("q", consumer)] on the
    client that [SimpleQueueClient()] leaves. *)
Definition simple_one_consumer : Simple.state :=
  ({| Simple.queues := {[ "q" ]}; Simple.connection := Some 0%nat;
      Simple.channel := Some 1%nat;
      Simple.consumers := {[ "q" := {[ Wrapped 0 (RawConsumer 0) ]} ]};
      Simple.rabbitmq_heartbeat := Some 0%Z |},
   {| trace := [Connect (Some 0%Z) (Some 300%Z); OpenChannel;
                Log INFO "SimpleQueueClient connected"; QueueDeclare "q";
                BasicConsume "q" (Wrapped 0 (RawConsumer 0)) "q_7"];
      tick := 4; draws := 1; next_obj := 1; timers := 0;
      bqueues := {[ "q" := [] ]}; unacked := ∅; next_tag := 1 |}).

(** The same client facing a broker whose queue "q" holds three messages. *)
Definition three_pending : Simple.state :=
  (fst simple_connected,
   set_store {[ "q" := [[Byte.x61]; [Byte.x62]; [Byte.x63]] ]} ∅ 1
     (snd simple_connected)).

(** An event-driven client as [TornadoQueueClient()] leaves it, and one
    whose channel is open. *)
Definition tornado_connecting : Tornado.state :=
  ({| Tornado.queues := ∅;
      Tornado.connection :=
        Some {| Tornado.phase := Tornado.Connecting; Tornado.channel_pending := false |};
      Tornado.channel := None; Tornado.consumers := ∅;
      Tornado.rabbitmq_heartbeat := None; Tornado._on_open_cbs := [];
      Tornado._connection_failure_count := 0 |},
   {| trace := [Log INFO "Beginning TornadoQueueClient connection"; Connect None None];
      tick := 1; draws := 0; next_obj := 0; timers := 0;
      bqueues := ∅; unacked := ∅; next_tag := 1 |}).

Definition tornado_open : Tornado.state :=
  ({| Tornado.queues := ∅;
      Tornado.connection :=
        Some {| Tornado.phase := Tornado.Opened; Tornado.channel_pending := false |};
      Tornado.channel := Some {| Tornado.chan_id := 2; Tornado.declare_cbs := [] |};
      Tornado.consumers := ∅;
      Tornado.rabbitmq_heartbeat := None; Tornado._on_open_cbs := [];
      Tornado._connection_failure_count := 0 |},
   {| trace := [Log INFO "Beginning TornadoQueueClient connection"; Connect None None;
                OpenChannel; Log INFO "TornadoQueueClient connected"];
      tick := 2; draws := 0; next_obj := 0; timers := 0;
      bqueues := ∅; unacked := ∅; next_tag := 1 |}).

(** An event-driven client with one registered consumer that has just lost
    its connection: [_on_connection_closed] has set the timer. *)
Definition tornado_lost : Tornado.state :=
  ({| Tornado.queues := {[ "q" ]};
      Tornado.connection :=
        Some {| Tornado.phase := Tornado.Closed; Tornado.channel_pending := false |};
      Tornado.channel := Some {| Tornado.chan_id := 2; Tornado.declare_cbs := [] |};
      Tornado.consumers := {[ "q" := {[ Wrapped 0 (RawConsumer 0) ]} ]};
      Tornado.rabbitmq_heartbeat := None; Tornado._on_open_cbs := [];
      Tornado._connection_failure_count := 1 |},
   {| trace := []; tick := 5; draws := 1; next_obj := 1; timers := 1;
      bqueues := {[ "q" := [] ]}; unacked := ∅; next_tag := 1 |}).

(** A client that has lost its connection with a publish on its on-open list
    (the list is kept from one connection to the next). *)
Definition tornado_backlog : Tornado.state :=
  (Tornado.set_on_open_cbs
     [Tornado.CbEnsure "events" (Tornado.CbPublish "events" [Byte.x61])]
     (fst tornado_lost),
   snd tornado_lost).

Definition no_rabbitmq : Queue.settings :=
  {| Queue.USING_RABBITMQ := false; Queue.RUNNING_INSIDE_TORNADO := false |}.

Definition fresh_process : Queue.process :=
  {| Queue.queue_client := None; Queue.world := new_world; Queue.app_trace := [] |}.

(** *** Further vocabulary and inputs *)



(** Settings of a process that uses RabbitMQ, outside Tornado and inside. *)
Definition with_rabbitmq : Queue.settings :=
  {| Queue.USING_RABBITMQ := true; Queue.RUNNING_INSIDE_TORNADO := false |}.

Definition inside_tornado : Queue.settings :=
  {| Queue.USING_RABBITMQ := true; Queue.RUNNING_INSIDE_TORNADO := true |}.

(** The attributes of a blocking client before its first [_connect]. *)
Definition simple_unconnected (rabbitmq_heartbeat : option Z) : Simple.SimpleQueueClient :=
  {| Simple.queues := ∅; Simple.connection := None; Simple.channel := None;
     Simple.consumers := ∅; Simple.rabbitmq_heartbeat := rabbitmq_heartbeat |}.

(** A blocking client that has lost its connection object, with one queue
    marked as declared. *)
Definition simple_dropped : Simple.state :=
  (Simple.set_queues {[ "q" ]}
     (Simple.set_channel None (Simple.set_connection None (fst simple_connected))),
   snd simple_connected).

(** The queue names of a list of pairs. *)
Definition queue_names (pairs : list (string * wrapped)) : gset string :=
  list_to_set (fst <$> pairs).

(** A blocking client with two consumers registered on one queue. *)
Definition simple_two_consumers : Simple.state :=
  (Simple.set_consumers
     {[ "q" := {[ Wrapped 0 (RawConsumer 0); Wrapped 1 (RawConsumer 1) ]} ]}
     (fst simple_connected),
   snd simple_connected).

(** [k] calls of [retry_event] in a row on the same dictionary, as a worker
    makes them when the event keeps failing. *)
Fixpoint retry_times `{Env} (conf : Queue.settings) (queue_name : string)
    (failure_processor : nat) (k : nat)
    : M (gmap string pyval * Queue.process) unit :=
  match k with
  | O => ret tt
  | S k' =>
      Queue.retry_event conf queue_name failure_processor ;;
      retry_times conf queue_name failure_processor k'
  end.

(** ** [json_drain_queue]

    [ujson.loads] is a function of the environment: it is an argument here,
    [X] being the type of decoded bodies. *)
Module SimpleJson.
Section WithEnv.
Context `{Env} {X : Type}.
Variable ujson_loads : bytes -> result X.

(** [list(map(ujson.loads, messages))]: the bodies are decoded front to
    back, and the first exception ends the evaluation. *)
Fixpoint decode_all (messages : list bytes) : result (list X) :=
  match messages with
  | [] => Ok []
  | m :: messages' =>
      match ujson_loads m with
      | Raise e => Raise e
      | Ok x =>
          match decode_all messages' with
          | Raise e => Raise e
          | Ok xs => Ok (x :: xs)
          end
      end
  end.

Definition json_drain_queue (fuel : nat) (queue_name : string)
    : M Simple.state (option (list X)) :=
  r <- Simple.drain_queue fuel queue_name ;;
  match r with
  | None => ret None
  | Some messages =>
      match decode_all messages with
      | Ok l => ret (Some l)
      | Raise e => raise e
      end
  end.

End WithEnv.
End SimpleJson.

(** A decoder that takes bodies of one byte and rejects the others. *)
Definition one_byte (b : bytes) : result Byte.byte :=
  match b with
  | [x] => Ok x
  | _ => Raise (OtherException "ValueError")
  end.

(** The connected client facing a broker whose queue "q" holds a body that
    [one_byte] rejects between two that it takes. *)
Definition one_malformed : Simple.state :=
  (fst simple_connected,
   set_store {[ "q" := [[Byte.x61]; []; [Byte.x63]] ]} ∅ 1 (snd simple_connected)).

(** What one [publish] shows on a live client whose queue is marked. *)
Definition publish_actions `{Env} (q : string) (event : gmap string pyval) : list action :=
  [Enter_publish q (ujson_dumps event); BasicPublish q (ujson_dumps event);
   StatsdIncr ("rabbitmq.publish." +:+ q)].

(** The client of [three_pending] with the queue "q" marked as declared. *)
Definition three_pending_marked : Simple.state :=
  (Simple.set_queues {[ "q" ]} (fst three_pending), snd three_pending).

(** An event whose counter is a string. *)
Definition bad_counter : gmap string pyval := {[ "failed_tries" := PStr "1" ]}.

(** [m] changes the part [view] of the client object, a list, only by
    adding to its end. *)
Definition grows {C A V} (view : C -> list V) (m : M (C * World) A) : Prop :=
  forall s, exists l, view (fst (snd (m s))) = view (fst s) ++ l.

(** The level at which the failed connection attempt that brings the
    failure count to [m] is logged. *)
Definition attempt_level (m : Z) : level :=
  if Tornado.CONNECTION_FAILURES_BEFORE_NOTIFY <? m then CRITICAL else WARNING.

(** What one failed attempt shows when it has brought the count to [m], and
    the reconnection that its timer starts. *)
Definition failed_attempt (c : Tornado.TornadoQueueClient) (m : Z) : list action :=
  [Log (attempt_level m)
     "TornadoQueueClient couldn't connect to RabbitMQ, retrying in 2 secs...";
   CallLater 2] ++ reconnect_actions c.

(** [k] failed attempts in a row, each followed by its timer. *)
Definition failed_attempts (k : nat) : list Tornado.loop_event :=
  mjoin (replicate k [Tornado.EvOpenError; Tornado.EvTimer]).

(** * Properties *)

Local Close Scope Z_scope.

(** ** Reasoning about effects *)

Lemma bind_ok {S A B} (m : M S A) (k : A -> M S B) s a s' :
  m s = (Ok a, s') -> bind m k s = k a s'.
Proof. intros E. unfold bind. by rewrite E. Qed.

Lemma bind_raise {S A B} (m : M S A) (k : A -> M S B) s e s' :
  m s = (Raise e, s') -> bind m k s = (Raise e, s').
Proof. intros E. unfold bind. by rewrite E. Qed.

Lemma bind_emit `{Env} {C A} a (k : M (C * World) A) s :
  (liftW (emit a) ;; k) s = k (fst s, log_action a (snd s)).
Proof. reflexivity. Qed.

Lemma bind_modc {C A} (f : C -> C) (k : M (C * World) A) s :
  (modc f ;; k) s = k (f (fst s), snd s).
Proof. reflexivity. Qed.

Lemma bind_getc {C A} (k : C -> M (C * World) A) s :
  (c <- getc ;; k c) s = k (fst s) s.
Proof. reflexivity. Qed.

Section Frame.
Context {C V : Type} (view : C -> V).

Lemma keeps_ret {A} (a : A) : keeps view (ret a).
Proof. by intros s. Qed.

Lemma keeps_raise {A} e : keeps view (raise (A:=A) e).
Proof. by intros s. Qed.

Lemma keeps_getc : keeps view getc.
Proof. by intros s. Qed.

Lemma keeps_liftW {A} (m : M World A) : keeps view (liftW m).
Proof. by intros s. Qed.

Lemma keeps_modc (f : C -> C) : (forall c, view (f c) = view c) -> keeps view (modc f).
Proof. intros Hf s. apply Hf. Qed.

Lemma keeps_bind {A B} (m : M (C * World) A) (k : A -> M (C * World) B) :
  keeps view m -> (forall a, keeps view (k a)) -> keeps view (bind m k).
Proof.
  intros Hm Hk s. unfold bind. specialize (Hm s).
  destruct (m s) as [[a|e] s1]; simpl in *; [|done].
  by rewrite Hk.
Qed.

Lemma keeps_try {A} (m : M (C * World) A) catches h :
  keeps view m -> (forall e, keeps view (h e)) -> keeps view (try_except m catches h).
Proof.
  intros Hm Hh s. unfold try_except. specialize (Hm s).
  destruct (m s) as [[a|e] s1]; simpl in *; [done|].
  destruct (catches e); [|done]. by rewrite Hh.
Qed.

Lemma keeps_for_each {A} (l : list A) (f : A -> M (C * World) unit) :
  (forall a, keeps view (f a)) -> keeps view (for_each l f).
Proof.
  intros Hf. induction l as [|x l IH]; simpl.
  - apply keeps_ret.
  - apply keeps_bind; auto.
Qed.

End Frame.

Section FrameW.
Context {C V : Type} (view : World -> V).









End FrameW.

Section Preserves.
Context {C : Type} (I : C -> Prop).

Lemma preserves_ret {A} (a : A) : preserves I (ret a).
Proof. by intros s. Qed.

Lemma preserves_raise {A} e : preserves I (raise (A:=A) e).
Proof. by intros s. Qed.

Lemma preserves_getc : preserves I getc.
Proof. by intros s. Qed.

Lemma preserves_liftW {A} (m : M World A) : preserves I (liftW m).
Proof. by intros s. Qed.

Lemma preserves_modc (f : C -> C) : (forall c, I c -> I (f c)) -> preserves I (modc f).
Proof. intros Hf s. apply Hf. Qed.

Lemma preserves_bind {A B} (m : M (C * World) A) (k : A -> M (C * World) B) :
  preserves I m -> (forall a, preserves I (k a)) -> preserves I (bind m k).
Proof.
  intros Hm Hk s Hs. unfold bind. specialize (Hm s Hs).
  destruct (m s) as [[a|e] s1]; simpl in *; [|done].
  by apply Hk.
Qed.

Lemma preserves_try {A} (m : M (C * World) A) catches h :
  preserves I m -> (forall e, preserves I (h e)) -> preserves I (try_except m catches h).
Proof.
  intros Hm Hh s Hs. unfold try_except. specialize (Hm s Hs).
  destruct (m s) as [[a|e] s1]; simpl in *; [done|].
  destruct (catches e); [|done]. by apply Hh.
Qed.

Lemma keeps_preserves {A V} (view : C -> V) (m : M (C * World) A) :
  (forall c c', view c' = view c -> I c -> I c') -> keeps view m -> preserves I m.
Proof. intros HI Hm s Hs. eapply HI; [apply Hm|done]. Qed.

End Preserves.

Lemma preserves_for_each {C X} (I : C -> Prop) (l : list X) (f : X -> M (C * World) unit) :
  (forall x, preserves I (f x)) -> preserves I (for_each l f).
Proof.
  intros Hf. induction l as [|x l IH]; simpl.
  - apply preserves_ret.
  - apply preserves_bind; auto.
Qed.

Lemma preserves_and {C A} (I J : C -> Prop) (m : M (C * World) A) :
  preserves I m -> preserves J m -> preserves (fun c => I c /\ J c) m.
Proof. intros HI HJ s [? ?]. split; [by apply HI|by apply HJ]. Qed.

Section Appends.
Context `{Env} (P : action -> Prop).

Lemma appendsW_ret {A} (a : A) : appendsW P (ret a).
Proof. intros w. exists []. by rewrite app_nil_r. Qed.

Lemma appendsW_raise {A} e : appendsW P (raise (A:=A) e).
Proof. intros w. exists []. by rewrite app_nil_r. Qed.

Lemma appendsW_bind {A B} (m : M World A) (k : A -> M World B) :
  appendsW P m -> (forall a, appendsW P (k a)) -> appendsW P (bind m k).
Proof.
  intros Hm Hk w. unfold bind. destruct (Hm w) as (l1 & E1 & F1).
  destruct (m w) as [[a|e] w1]; simpl in *; [|by exists l1].
  destruct (Hk a w1) as (l2 & E2 & F2). exists (l1 ++ l2).
  rewrite E2, E1, app_assoc. split; [done|]. by apply Forall_app.
Qed.

Lemma appendsW_emit a : P a -> appendsW P (emit a).
Proof. intros Pa w. exists [a]. split; [done|]. by constructor. Qed.

Lemma appendsW_request a : P a -> appendsW P (request a).
Proof.
  intros Pa w. exists [a]. unfold request.
  split; [by destruct (faults (tick w))|]. by constructor.
Qed.

(** A change of the world that does not touch its trace. *)
Lemma appendsW_silent {A} (m : M World A) :
  (forall w, trace (snd (m w)) = trace w) -> appendsW P m.
Proof. intros Hm w. exists []. by rewrite app_nil_r. Qed.

Lemma appendsW_connect h t : P (Connect h t) -> appendsW P (connect h t).
Proof.
  intros. apply appendsW_bind; [by apply appendsW_silent|intros].
  apply appendsW_bind; [by apply appendsW_request|intros; apply appendsW_ret].
Qed.

Lemma appendsW_open_channel : P OpenChannel -> appendsW P open_channel.
Proof.
  intros. apply appendsW_bind; [by apply appendsW_silent|intros].
  apply appendsW_bind; [by apply appendsW_request|intros; apply appendsW_ret].
Qed.

Lemma appendsW_queue_declare q : P (QueueDeclare q) -> appendsW P (queue_declare q).
Proof.
  intros. apply appendsW_bind; [by apply appendsW_request|intros].
  apply appendsW_silent. intros w. unfold modify. simpl. by case_match.
Qed.

Lemma appendsW_basic_publish q b : P (BasicPublish q b) -> appendsW P (basic_publish q b).
Proof.
  intros. apply appendsW_bind; [by apply appendsW_request|intros].
  apply appendsW_silent. intros w. unfold modify. simpl. by case_match.
Qed.

Lemma appendsW_basic_consume q wc t :
  P (BasicConsume q wc t) -> appendsW P (basic_consume q wc t).
Proof. apply appendsW_request. Qed.

Lemma appendsW_getrandbits16 : appendsW P getrandbits16.
Proof. by apply appendsW_silent. Qed.

Lemma appendsW_new_wrapped c : appendsW P (new_wrapped c).
Proof. by apply appendsW_silent. Qed.

Lemma appendsW_is_open : appendsW P is_open.
Proof. by apply appendsW_silent. Qed.

Context {C : Type}.

Lemma appends_liftW {A} (m : M World A) : appendsW P m -> appends (C:=C) P (liftW m).
Proof. intros Hm s. apply Hm. Qed.

Lemma appends_ret {A} (a : A) : appends (C:=C) P (ret a).
Proof. intros s. exists []. by rewrite app_nil_r. Qed.

Lemma appends_raise {A} e : appends (C:=C) P (raise (A:=A) e).
Proof. intros s. exists []. by rewrite app_nil_r. Qed.

Lemma appends_getc : appends (C:=C) P getc.
Proof. intros s. exists []. by rewrite app_nil_r. Qed.

Lemma appends_modc f : appends (C:=C) P (modc f).
Proof. intros s. exists []. by rewrite app_nil_r. Qed.

Lemma appends_bind {A B} (m : M (C * World) A) (k : A -> M (C * World) B) :
  appends P m -> (forall a, appends P (k a)) -> appends P (bind m k).
Proof.
  intros Hm Hk s. unfold bind. destruct (Hm s) as (l1 & E1 & F1).
  destruct (m s) as [[a|e] s1]; simpl in *; [|by exists l1].
  destruct (Hk a s1) as (l2 & E2 & F2). exists (l1 ++ l2).
  rewrite E2, E1, app_assoc. split; [done|]. by apply Forall_app.
Qed.

Lemma appends_try {A} (m : M (C * World) A) catches h :
  appends P m -> (forall e, appends P (h e)) -> appends P (try_except m catches h).
Proof.
  intros Hm Hh s. unfold try_except. destruct (Hm s) as (l1 & E1 & F1).
  destruct (m s) as [[a|e] s1]; simpl in *; [by exists l1|].
  destruct (catches e); [|by exists l1].
  destruct (Hh e s1) as (l2 & E2 & F2). exists (l1 ++ l2).
  rewrite E2, E1, app_assoc. split; [done|]. by apply Forall_app.
Qed.

End Appends.

(** The three kinds of goal, taken apart along the structure of the
    computation; [known] is tried first on every piece. *)
Ltac frame_using known :=
  repeat first
    [ progress intros
    | known
    | apply keeps_ret | apply keeps_raise | apply keeps_getc | apply keeps_liftW
    | apply keeps_bind | apply keeps_try | apply keeps_for_each
    | (apply keeps_modc; by intros [])
    | case_match ].
Ltac frame := frame_using fail.

Ltac invariant_using known :=
  repeat first
    [ progress intros
    | known
    | apply preserves_ret | apply preserves_raise | apply preserves_getc
    | apply preserves_liftW | apply preserves_bind | apply preserves_try
    | case_match ].

Ltac quiet_using known :=
  repeat first
    [ progress intros
    | known
    | apply appends_ret | apply appends_raise | apply appends_getc | apply appends_modc
    | apply appends_bind | apply appends_try
    | apply appends_liftW
    | apply appendsW_ret | apply appendsW_raise
    | apply appendsW_emit | apply appendsW_request
    | apply appendsW_connect | apply appendsW_open_channel
    | apply appendsW_queue_declare | apply appendsW_basic_publish
    | apply appendsW_basic_consume | apply appendsW_getrandbits16
    | apply appendsW_new_wrapped | apply appendsW_is_open
    | case_match
    | done ].
Ltac quiet := quiet_using fail.

Lemma count_app f l1 l2 : count f (l1 ++ l2) = count f l1 + count f l2.
Proof. unfold count. by rewrite List.filter_app, length_app. Qed.

Lemma count_cons f a l : count f (a :: l) = (if f a then 1 else 0) + count f l.
Proof. unfold count. simpl. by destruct (f a). Qed.

Lemma count_none f l : Forall (fun a => f a = false) l -> count f l = 0.
Proof.
  unfold count. induction 1 as [|a l Ha _ IH]; simpl; [done|]. by rewrite Ha.
Qed.

Lemma quiet_no_reconnect l : Forall quiet_action l -> count is_reconnect l = 0.
Proof.
  intros Hl. apply count_none. eapply Forall_impl; [done|].
  intros a. unfold quiet_action. by destruct a.
Qed.

Lemma quiet_no_publish_entry l : Forall quiet_action l -> count is_publish_entry l = 0.
Proof.
  intros Hl. apply count_none. eapply Forall_impl; [done|].
  intros a. unfold quiet_action. by destruct a.
Qed.

Ltac count_up := repeat (rewrite count_app || rewrite count_cons); simpl.

Section AtMost.
Context `{Env} {C : Type} (f : action -> bool).

Lemma appends_at_most {A} (m : M (C * World) A) :
  appends (fun a => f a = false) m -> at_most f 0 m.
Proof.
  intros Hm s. destruct (Hm s) as (l & E & F). exists l. split; [done|].
  by rewrite count_none.
Qed.

Lemma at_most_bind {A B} n1 n2 (m : M (C * World) A) (k : A -> M (C * World) B) :
  at_most f n1 m -> (forall a, at_most f n2 (k a)) -> at_most f (n1 + n2) (bind m k).
Proof.
  intros Hm Hk s. unfold bind. destruct (Hm s) as (l1 & E1 & F1).
  destruct (m s) as [[a|e] s1]; simpl in *; [|exists l1; split; [done|lia]].
  destruct (Hk a s1) as (l2 & E2 & F2). exists (l1 ++ l2).
  rewrite E2, E1, app_assoc. split; [done|]. rewrite count_app. lia.
Qed.
Lemma at_most_try {A} n1 n2 (m : M (C * World) A) catches h :
  at_most f n1 m -> (forall e, at_most f n2 (h e)) ->
  at_most f (n1 + n2) (try_except m catches h).
Proof.
  intros Hm Hh s. unfold try_except. destruct (Hm s) as (l1 & E1 & F1).
  destruct (m s) as [[a|e] s1]; simpl in *; [exists l1; split; [done|lia]|].
  destruct (catches e); [|exists l1; split; [done|lia]].
  destruct (Hh e s1) as (l2 & E2 & F2). exists (l1 ++ l2).
  rewrite E2, E1, app_assoc. split; [done|]. rewrite count_app. lia.
Qed.

Lemma at_most_weaken {A} n n' (m : M (C * World) A) :
  n <= n' -> at_most f n m -> at_most f n' m.
Proof.
  intros Hle Hm s. destruct (Hm s) as (l & E & F). exists l. split; [done|lia].
Qed.

End AtMost.

(** ** The concrete states are states of the clients *)

Example simple_connected_is_constructed :
  Simple.__init__ (H := calm) (Some 0%Z) new_world
  = (Ok (fst simple_connected), snd simple_connected).
Proof. vm_compute. reflexivity. Qed.

Example simple_one_consumer_is_reached :
  snd (Simple.register_consumer (H := calm) "q" (RawConsumer 0) simple_connected)
  = simple_one_consumer.
Proof. vm_compute. reflexivity. Qed.

Example tornado_connecting_is_constructed :
  Tornado.__init__ (H := calm) new_world
  = (Ok (fst tornado_connecting), snd tornado_connecting).
Proof. vm_compute. reflexivity. Qed.

Example tornado_open_is_reached :
  steps (H := calm) [Tornado.EvOpened; Tornado.EvChannelOpened] tornado_connecting
  = Some tornado_open.
Proof. vm_compute. reflexivity. Qed.

(** ** The blocking client *)

Section SimpleFacts.
Context `{Env}.
Import Simple.

Lemma connect_quiet : appends quiet_action _connect.
Proof. unfold _connect. quiet. Qed.

Lemma connect_unless_open_quiet : appends quiet_action connect_unless_open.
Proof. unfold connect_unless_open. quiet_using ltac:(apply connect_quiet). Qed.

Lemma ensure_queue_quiet {A} q (cb : M state A) :
  appends quiet_action cb -> appends quiet_action (ensure_queue q cb).
Proof.
  intros. unfold ensure_queue, the_channel.
  quiet_using ltac:(apply connect_unless_open_quiet).
Qed.

Lemma do_publish_quiet q b : appends quiet_action (do_publish q b).
Proof. unfold do_publish, the_channel. quiet. Qed.

(** [publish] enters once and calls nothing that enters [publish] or
    [_reconnect]. *)
Lemma publish_trace q b s :
  exists l, trace (snd (snd (publish q b s))) = trace (snd s) ++ Enter_publish q b :: l
            /\ Forall quiet_action l.
Proof.
  unfold publish. rewrite bind_emit.
  destruct (ensure_queue_quiet q (do_publish q b) (do_publish_quiet q b)
              (fst s, log_action (Enter_publish q b) (snd s))) as (l & E & F).
  exists l. split; [|done]. etrans; [apply E|]. simpl. by rewrite <- app_assoc.
Qed.

Lemma reconnect_trace s :
  exists l, trace (snd (snd (_reconnect s))) = trace (snd s) ++ Enter_reconnect :: l
            /\ Forall quiet_action l.
Proof.
  unfold _reconnect. rewrite bind_emit, !bind_modc.
  match goal with |- context [_connect ?s0] =>
    destruct (connect_quiet s0) as (l & E & F) end.
  exists l. split; [|done]. etrans; [apply E|]. simpl. by rewrite <- app_assoc.
Qed.

Lemma do_publish_at_most q b : at_most is_basic_publish 1 (do_publish q b).
Proof.
  unfold do_publish.
  apply (at_most_bind _ 0 1); [apply appends_at_most; unfold the_channel; quiet|intros _].
  apply (at_most_bind _ 1 0); [|intros; apply appends_at_most; quiet].
  intros s. exists [BasicPublish q b]. split; [|done].
  unfold liftW, basic_publish, bind, request, modify. simpl.
  destruct (faults (tick (snd s))); simpl; [done|]. by case_match.
Qed.

Lemma publish_at_most q b : at_most is_basic_publish 1 (publish q b).
Proof.
  unfold publish, ensure_queue.
  apply (at_most_bind _ 0 1); [apply appends_at_most; quiet|intros _].
  apply (at_most_bind _ 0 1);
    [apply appends_at_most; unfold connect_unless_open, _connect; quiet|intros _].
  apply (at_most_bind _ 0 1); [apply appends_at_most; quiet|intros c].
  apply (at_most_bind _ 0 1); [|intros _; apply do_publish_at_most].
  apply appends_at_most. unfold the_channel. quiet.
Qed.

Lemma reconnect_no_basic_publish : at_most is_basic_publish 0 _reconnect.
Proof. apply appends_at_most. unfold _reconnect, _connect. quiet. Qed.

Lemma json_publish_at_most q body : at_most is_basic_publish 2 (json_publish q body).
Proof.
  unfold json_publish.
  apply (at_most_bind _ (1 + 0) 1).
  - apply at_most_try.
    + apply (at_most_bind _ 1 0); [apply publish_at_most|].
      intros _. apply appends_at_most. quiet.
    + intros e. apply appends_at_most. quiet.
  - intros [|].
    + apply (at_most_weaken _ 0); [lia|]. apply appends_at_most. quiet.
    + apply (at_most_bind _ 0 1); [apply reconnect_no_basic_publish|intros _].
      apply publish_at_most.
Qed.
(** What [json_publish] comes to once the first attempt has raised a
    connection error. *)
Lemma json_publish_after_failure q body s s1 e :
  publish q (ujson_dumps body) s = (Raise e, s1) ->
  is_AMQPConnectionError e = true ->
  json_publish q body s =
    match _reconnect (warned s1) with
    | (Ok _, s2) => publish q (ujson_dumps body) s2
    | (Raise e', s2) => (Raise e', s2)
    end.
Proof.
  intros Hp He. unfold json_publish. unfold bind at 1, try_except.
  unfold bind at 1. rewrite Hp, He. unfold bind at 1. simpl.
  unfold bind at 1. fold (warned s1).
  by destruct (_reconnect (warned s1)) as [[[]|e'] s2].
Qed.

(** C1 (as amended): the retry lives in [json_publish].  When its first
    [publish] raises a connection error, [json_publish] enters [_reconnect]
    exactly once; if the reconnect returns, it enters [publish] exactly once
    more and the outcome of that second attempt, error or not, is the outcome
    of [json_publish]; if the reconnect itself raises, that error is the
    outcome and there is no second attempt.  In all, the broker is sent at
    most two [basic_publish].  The failed first [publish] entered no
    [_reconnect] of its own. *)
Theorem json_publish_retries_once (q : string) (body : gmap string pyval)
    (s s1 : state) (e : exn) :
  publish q (ujson_dumps body) s = (Raise e, s1) ->
  is_AMQPConnectionError e = true ->
  let r := json_publish q body s in
  (exists l0, trace (snd s1) = trace (snd s) ++ l0 /\
              count is_reconnect l0 = 0 /\ count is_publish_entry l0 = 1) /\
  exists l,
    trace (snd (snd r)) = trace (snd s) ++ l /\
    count is_reconnect l = 1 /\
    count is_basic_publish l <= 2 /\
    match _reconnect (warned s1) with
    | (Ok _, s2) =>
        r = publish q (ujson_dumps body) s2 /\ count is_publish_entry l = 2
    | (Raise e', s2) =>
        r = (Raise e', s2) /\ count is_publish_entry l = 1
    end.
Proof.
  intros Hp He r.
  pose proof (json_publish_after_failure q body s s1 e Hp He) as Er. fold r in Er.
  destruct (publish_trace q (ujson_dumps body) s) as (l1 & E1 & F1).
  rewrite Hp in E1. simpl in E1. split.
  { eexists. split; [exact E1|]. count_up.
    rewrite quiet_no_reconnect, quiet_no_publish_entry by done. done. }
  destruct (json_publish_at_most q body s) as (l & El & Fl). fold r in El.
  exists l. split; [exact El|].
  destruct (reconnect_trace (warned s1)) as (l2 & E2 & F2).
  destruct (_reconnect (warned s1)) as [[[]|e'] s2] eqn:Hr; simpl in E2.
  - destruct (publish_trace q (ujson_dumps body) s2) as (l3 & E3 & F3).
    assert (l = (Enter_publish q (ujson_dumps body) :: l1)
                ++ Log WARNING "Failed to send to rabbitmq, trying to reconnect and send again"
                   :: Enter_reconnect :: l2
                ++ Enter_publish q (ujson_dumps body) :: l3) as ->.
    { apply (app_inv_head (trace (snd s))). rewrite <- El. rewrite Er.
      etrans; [exact E3|]. rewrite E2. simpl. rewrite E1. by rewrite <- !app_assoc. }
    split_and!; [| done | done |].
    + count_up. rewrite !quiet_no_reconnect by done. done.
    + count_up. rewrite !quiet_no_publish_entry by done. done.
  - assert (l = (Enter_publish q (ujson_dumps body) :: l1)
                ++ Log WARNING "Failed to send to rabbitmq, trying to reconnect and send again"
                   :: Enter_reconnect :: l2) as ->.
    { apply (app_inv_head (trace (snd s))). rewrite <- El. rewrite Er. simpl.
      rewrite E2. simpl. rewrite E1. by rewrite <- !app_assoc. }
    split_and!; [| done | done |].
    + count_up. rewrite !quiet_no_reconnect by done. done.
    + count_up. rewrite !quiet_no_publish_entry by done. done.
Qed.

End SimpleFacts.

(** C1 (as stated) fails on [publish] itself: with a live connection and a
    broker that fails the [basic_publish] with a connection error, [publish]
    raises that error at once, without reconnecting or sending again.  And
    where the retry is, in [json_publish], there is no retry when the broker
    stays down: the reconnect raises and its error goes to the caller. *)
Lemma publish_alone_does_not_retry :
  let r := Simple.publish (H := failing_at 3 AMQPConnectionError) "q" []
             simple_connected in
  let r' := Simple.json_publish (H := failing_since 3 AMQPConnectionError) "q" ∅
              simple_connected in
  (fst r = Raise AMQPConnectionError /\
   trace (snd (snd r)) =
     trace (snd simple_connected)
       ++ [Enter_publish "q" []; QueueDeclare "q"; BasicPublish "q" []] /\
   count is_reconnect (trace (snd (snd r))) = 0 /\
   count is_basic_publish (trace (snd (snd r))) = 1) /\
  (fst r' = Raise AMQPConnectionError /\
   trace (snd (snd r')) =
     trace (snd simple_connected)
       ++ [Enter_publish "q" []; QueueDeclare "q"; BasicPublish "q" [];
           Log WARNING "Failed to send to rabbitmq, trying to reconnect and send again";
           Enter_reconnect; Connect (Some 0%Z) (Some 300%Z)] /\
   count is_publish_entry (trace (snd (snd r'))) = 1).
Proof. vm_compute. done. Qed.

Lemma json_publish_retries_once_witness :
  let E := failing_at 3 AMQPConnectionError in
  let s1 := snd (Simple.publish (H := E) "q" [] simple_connected) in
  let r := Simple.json_publish (H := E) "q" ∅ simple_connected in
  (exists l0, trace (snd s1) = trace (snd simple_connected) ++ l0 /\
              count is_reconnect l0 = 0 /\ count is_publish_entry l0 = 1) /\
  exists l,
    trace (snd (snd r)) = trace (snd simple_connected) ++ l /\
    count is_reconnect l = 1 /\
    count is_basic_publish l <= 2 /\
    match Simple._reconnect (H := E) (warned s1) with
    | (Ok _, s2) =>
        r = Simple.publish (H := E) "q" [] s2 /\ count is_publish_entry l = 2
    | (Raise e', s2) =>
        r = (Raise e', s2) /\ count is_publish_entry l = 1
    end.
Proof.
  intros E s1 r.
  apply (json_publish_retries_once (H := E) "q" ∅ simple_connected s1
           AMQPConnectionError); [vm_compute; reflexivity | reflexivity].
Defined.

Section DrainFacts.
Context `{Env}.
Import Simple.

Lemma connect_ok c w :
  (forall n, faults n = None) -> _connect (c, w) = (Ok tt, connected c w).
Proof.
  intros Hnf.
  unfold _connect, connect, open_channel, bind, getc, liftW, modc, request, emit,
    modify, ret.
  simpl. repeat (rewrite Hnf; simpl). reflexivity.
Qed.

(** The drain loop on a queue that holds [msgs]. *)
Lemma opened_drains q msgs :
  forall fuel acc c w,
    (forall n, faults n = None) ->
    is_Some (channel c) ->
    bqueues w !! q = Some msgs ->
    length msgs < fuel ->
    exists w',
      opened fuel q acc (c, w) = (Ok (Some (acc ++ msgs)), (c, w')) /\
      bqueues w' !! q = Some [] /\
      trace w' = trace w ++ drain_requests q (seq (next_tag w) (length msgs)) /\
      (forall t, unacked w' !! t =
         if bool_decide (next_tag w <= t < next_tag w + length msgs)
         then None else unacked w !! t).
Proof.
  unfold drain_requests.
  induction msgs as [|m msgs IH]; intros fuel acc c w Hnf [ch Hch] Hq Hfuel.
  - destruct fuel as [|fuel]; [simpl in Hfuel; lia|].
    exists (incr_tick (log_action (BasicGet q) w)).
    simpl. unfold the_channel, bind, getc, liftW, basic_get, bind, request, ret.
    simpl. rewrite Hch, Hnf. simpl. rewrite Hq. simpl.
    rewrite app_nil_r. repeat split; try done.
    intros t. rewrite bool_decide_false by lia. done.
  - destruct fuel as [|fuel]; [simpl in Hfuel; lia|].
    set (w2 := set_store (<[q := msgs]> (bqueues w))
                 (delete (next_tag w) (<[next_tag w := (q, m)]> (unacked w)))
                 (S (next_tag w))
                 (incr_tick (log_action (BasicAck (next_tag w))
                    (incr_tick (log_action (BasicGet q) w))))).
    destruct (IH fuel (acc ++ [m]) c w2 Hnf (ex_intro _ ch Hch))
      as (w' & E & Hq' & Ht & Hu).
    { subst w2. simpl. apply lookup_insert_eq. }
    { simpl in Hfuel. lia. }
    exists w'. split; [|split; [done|split]].
    + replace (acc ++ m :: msgs) with ((acc ++ [m]) ++ msgs)
        by (by rewrite <- app_assoc).
      rewrite <- E. simpl.
      unfold the_channel, bind, getc, liftW, basic_get, basic_ack, bind, request,
        ret, modify.
      simpl. rewrite Hch. repeat (rewrite Hnf; simpl). rewrite Hq. simpl.
      rewrite ?Hch. repeat (rewrite Hnf; simpl). subst w2. simpl. reflexivity.
    + rewrite Ht. subst w2. simpl. rewrite <- !app_assoc. reflexivity.
    + intros t. rewrite Hu. subst w2. simpl.
      destruct (decide (t = next_tag w)) as [->|Hne].
      * rewrite lookup_delete_eq. repeat case_bool_decide; try lia; done.
      * rewrite lookup_delete_ne, lookup_insert_ne by done.
        repeat case_bool_decide; try lia; done.
Qed.

Lemma connect_unless_open_ok c w :
  (forall n, faults n = None) ->
  connection c = None \/ is_Some (channel c) ->
  exists c0 w0 pre0,
    connect_unless_open (c, w) = (Ok tt, (c0, w0)) /\
    is_Some (channel c0) /\ queues c0 = queues c /\ bqueues w0 = bqueues w /\
    trace w0 = trace w ++ pre0 /\ Forall (fun a => is_get_or_ack a = false) pre0 /\
    unacked w0 = unacked w /\ next_tag w0 = next_tag w.
Proof.
  intros Hnf Hconn. unfold connect_unless_open.
  erewrite bind_ok by reflexivity. simpl.
  destruct (connection c) as [conn|] eqn:Ec;
    [erewrite bind_ok by reflexivity; simpl; destruct (is_open_at (tick w)) eqn:Eo|].
  - exists c, w, []. rewrite app_nil_r. repeat split; try done;
      destruct Hconn; [congruence|done].
  - rewrite connect_ok by done. eexists _, _, [_; _; _].
    split; [reflexivity|]. simpl. rewrite <- !app_assoc. simpl.
    repeat split; eauto; repeat constructor.
  - rewrite connect_ok by done. eexists _, _, [_; _; _].
    split; [reflexivity|]. simpl. rewrite <- !app_assoc. simpl.
    repeat split; eauto; repeat constructor.
Qed.

(** What [ensure_queue] does before it calls the callback, when nothing
    fails. *)
Lemma ensure_queue_prefix q c w :
  (forall n, faults n = None) ->
  connection c = None \/ is_Some (channel c) ->
  (q ∈ queues c -> is_Some (bqueues w !! q)) ->
  exists c1 w1 pre,
    (forall A (cb : M state A), ensure_queue q cb (c, w) = cb (c1, w1)) /\
    is_Some (channel c1) /\
    bqueues w1 !! q = Some (default [] (bqueues w !! q)) /\
    trace w1 = trace w ++ pre /\
    Forall (fun a => is_get_or_ack a = false) pre /\
    unacked w1 = unacked w /\ next_tag w1 = next_tag w.
Proof.
  intros Hnf Hconn Hdecl.
  destruct (connect_unless_open_ok c w Hnf Hconn)
    as (c0 & w0 & pre0 & Hk & Hch0 & Hq0 & Hb0 & Ht0 & Hp0 & Hu0 & Hn0).
  destruct Hch0 as [ch Hch0].
  destruct (decide (q ∈ queues c0)) as [Hin|Hnin].
  - exists c0, w0, pre0. split_and!; try done.
    + intros A cb. unfold ensure_queue. erewrite bind_ok by exact Hk.
      erewrite bind_ok by reflexivity. simpl. rewrite decide_True by done.
      reflexivity.
    + rewrite Hb0. destruct Hdecl as [l Hl]; [by rewrite <- Hq0|]. by rewrite Hl.
  - set (w1 := incr_tick (log_action (QueueDeclare q) w0)).
    exists (set_queues ({[q]} ∪ queues c0) c0),
      (match bqueues w1 !! q with
       | Some _ => w1
       | None => set_store (<[q := []]> (bqueues w1)) (unacked w1) (next_tag w1) w1
       end), (pre0 ++ [QueueDeclare q]).
    split_and!.
    + intros A cb. unfold ensure_queue. erewrite bind_ok by exact Hk.
      erewrite bind_ok by reflexivity. simpl. rewrite decide_False by done.
      unfold the_channel, queue_declare, bind, getc, liftW, modc, request, modify, ret.
      simpl. rewrite Hch0, Hnf. simpl. reflexivity.
    + simpl. eauto.
    + subst w1. simpl. rewrite Hb0. destruct (bqueues w !! q) as [l|] eqn:El; simpl.
      * by rewrite Hb0.
      * apply lookup_insert_eq.
    + subst w1. simpl. case_match; simpl; rewrite Ht0; by rewrite <- app_assoc.
    + apply Forall_app. split; [done|]. repeat constructor.
    + subst w1; simpl. by case_match.
    + subst w1; simpl. by case_match.
Qed.

(** C9: with a broker that answers every request, [drain_queue] on a queue
    that holds the messages [msgs] (none, when the queue is empty or yet to
    be declared) returns exactly [msgs] in the order of delivery, after
    [length msgs + 1] iterations at most; it issued one [basic_get] per
    message, each followed by the [basic_ack] of the tag just delivered, and
    one last [basic_get] that found the queue empty; the queue is empty on
    the broker and none of the delivered tags is left unacknowledged. *)
Theorem drain_queue_returns_all (q : string) (c : SimpleQueueClient) (w : World)
    (fuel : nat) :
  let msgs := default [] (bqueues w !! q) in
  (forall n, faults n = None) ->
  connection c = None \/ is_Some (channel c) ->
  (q ∈ queues c -> is_Some (bqueues w !! q)) ->
  length msgs < fuel ->
  exists c' w' pre,
    drain_queue fuel q (c, w) = (Ok (Some msgs), (c', w')) /\
    bqueues w' !! q = Some [] /\
    trace w' = trace w ++ pre
      ++ drain_requests q (seq (next_tag w) (length msgs)) /\
    Forall (fun a => is_get_or_ack a = false) pre /\
    (forall t, next_tag w <= t < next_tag w + length msgs -> unacked w' !! t = None) /\
    (forall t, ~ (next_tag w <= t < next_tag w + length msgs) ->
               unacked w' !! t = unacked w !! t).
Proof.
  intros msgs Hnf Hconn Hdecl Hfuel.
  destruct (ensure_queue_prefix q c w Hnf Hconn Hdecl)
    as (c1 & w1 & pre & Hk & Hch & Hq & Ht & Hp & Hu & Hn).
  destruct (opened_drains q msgs fuel [] c1 w1 Hnf Hch Hq Hfuel)
    as (w' & E & Hq' & Ht' & Hu').
  exists c1, w', pre. unfold drain_queue. rewrite Hk, E. simpl.
  split; [done|]. split; [done|]. split; [|split; [done|split]].
  - rewrite Ht', Ht, Hn. by rewrite <- app_assoc.
  - intros t Hr. rewrite Hu', Hn. by rewrite bool_decide_true.
  - intros t Hr. rewrite Hu', Hn, Hu. by rewrite bool_decide_false.
Qed.

End DrainFacts.

Lemma drain_queue_returns_all_witness :
  exists c' w' pre,
    Simple.drain_queue (H := calm) 4 "q" three_pending
      = (Ok (Some [[Byte.x61]; [Byte.x62]; [Byte.x63]]), (c', w')) /\
    bqueues w' !! "q" = Some [] /\
    trace w' = trace (snd three_pending) ++ pre ++ drain_requests "q" (seq 1 3) /\
    Forall (fun a => is_get_or_ack a = false) pre /\
    (forall t, 1 <= t < 1 + 3 -> unacked w' !! t = None) /\
    (forall t, ~ (1 <= t < 1 + 3) ->
               unacked w' !! t = unacked (snd three_pending) !! t).
Proof.
  apply (drain_queue_returns_all (H := calm) "q" (fst three_pending)
           (snd three_pending) 4).
  - intros n. reflexivity.
  - right. eexists. reflexivity.
  - intros _. eexists. vm_compute. reflexivity.
  - vm_compute. lia.
Defined.

(** ** The wrappers around a consumer *)

Section WrapperFacts.
Context `{Env}.

(** C4 (as amended): on a delivery with tag [tag], the blocking wrapper
    sends the [basic_ack] of [tag] after the consumer has returned.  When the
    consumer raises an instance [e] of [Exception], it sends the [basic_nack]
    of [tag] and then raises ([e] itself, unless the broker fails the nack);
    when the consumer raises an exception that is no instance of
    [Exception], it sends nothing and lets the exception through.  A failure
    of the [basic_ack] is handled in the same way, as it is raised inside the
    same [try].  The event-driven wrapper sends the [basic_ack] only after a
    normal return, and when the consumer raises [e], of whatever class, it
    sends nothing and lets [e] through. *)
Theorem wrapper_settles_delivery (w : wrapped) (tag : nat) (body : bytes)
    (wd : World) :
  let blocking := Simple.wrapped_consumer w tag body wd in
  let evented := Tornado.wrapped_consumer w tag body wd in
  let call := CallConsumer (inner w) tag body in
  match consumer_outcome (inner w) body with
  | None =>
      trace (snd evented) = trace wd ++ [call; BasicAck tag] /\
      fst evented = from_option Raise (Ok tt) (faults (tick wd)) /\
      match faults (tick wd) with
      | None =>
          trace (snd blocking) = trace wd ++ [call; BasicAck tag] /\
          fst blocking = Ok tt
      | Some e' =>
          if is_Exception e' then
            trace (snd blocking) = trace wd ++ [call; BasicAck tag; BasicNack tag] /\
            fst blocking = Raise (default e' (faults (S (tick wd))))
          else
            trace (snd blocking) = trace wd ++ [call; BasicAck tag] /\
            fst blocking = Raise e'
      end
  | Some e =>
      trace (snd evented) = trace wd ++ [call] /\
      fst evented = Raise e /\
      if is_Exception e then
        trace (snd blocking) = trace wd ++ [call; BasicNack tag] /\
        fst blocking = Raise (default e (faults (tick wd)))
      else
        trace (snd blocking) = trace wd ++ [call] /\
        fst blocking = Raise e
  end.
Proof.
  intros blocking evented call. subst blocking evented call.
  unfold Simple.wrapped_consumer, Tornado.wrapped_consumer, call_consumer,
    basic_ack, basic_nack, try_except, bind, ret, raise, emit, request, modify.
  destruct (consumer_outcome (inner w) body) as [e|]; simpl.
  - destruct (is_Exception e); simpl; [|done].
    destruct (faults (tick wd)) as [e'|]; simpl;
      repeat case_match; simpl; rewrite <- ?app_assoc; simpl; auto.
  - destruct (faults (tick wd)) as [e'|] eqn:F; simpl.
    + split; [by rewrite <- app_assoc|]. split; [done|].
      destruct (is_Exception e'); simpl; [|by rewrite <- app_assoc].
      destruct (faults (S (tick wd))); simpl; repeat case_match; simpl;
        rewrite <- ?app_assoc; simpl; split; auto; done.
    + rewrite <- ?app_assoc; simpl. auto.
Qed.

End WrapperFacts.

(** C4 (as stated) fails for a consumer that raises outside [Exception]:
    the blocking wrapper lets a [KeyboardInterrupt] through and sends no
    nack, so that the delivery stays unsettled with the broker; a consumer
    that raises a [ValueError] on the same delivery is followed by the
    nack, which puts the message back on the queue. *)
Lemma interrupt_passes_without_nack :
  let w := Wrapped 0 (RawConsumer 0) in
  let r := Simple.wrapped_consumer (H := interrupted) w 1 [Byte.x61] one_delivered in
  let r' := Simple.wrapped_consumer (H := raising) w 1 [Byte.x61] one_delivered in
  (fst r = Raise (NonException "KeyboardInterrupt") /\
   trace (snd r) = [CallConsumer (RawConsumer 0) 1 [Byte.x61]] /\
   count is_nack (trace (snd r)) = 0 /\
   unacked (snd r) !! 1 = Some ("q", [Byte.x61]) /\
   bqueues (snd r) !! "q" = Some []) /\
  (fst r' = Raise (OtherException "ValueError") /\
   trace (snd r') = [CallConsumer (RawConsumer 0) 1 [Byte.x61]; BasicNack 1] /\
   unacked (snd r') !! 1 = None /\
   bqueues (snd r') !! "q" = Some [[Byte.x61]]).
Proof. vm_compute. done. Qed.

(** ** [retry_event] *)

Section RetryFacts.
Context `{Env}.
Variable conf : Queue.settings.
Import Queue.

Lemma construct_app_trace {C} (init : M World C) wrap p :
  app_trace (snd (construct init wrap p)) = app_trace p.
Proof. unfold construct. by destruct (init (world p)) as [[c|e] w]. Qed.

Lemma get_queue_client_app_trace p :
  app_trace (snd (get_queue_client conf p)) = app_trace p.
Proof.
  unfold get_queue_client, bind, get, ret.
  destruct (queue_client p); simpl; [done|].
  destruct (RUNNING_INSIDE_TORNADO conf && USING_RABBITMQ conf).
  - pose proof (construct_app_trace Tornado.__init__ TornadoClient p) as E.
    destruct (construct _ _ p) as [[[]|e] p']; simpl in *; done.
  - destruct (USING_RABBITMQ conf); simpl; [|done].
    pose proof (construct_app_trace (Simple.__init__ (Some 0%Z)) SimpleClient p) as E.
    destruct (construct _ _ p) as [[[]|e] p']; simpl in *; done.
Qed.

(** The client never calls into the application code that [app_trace]
    records. *)
Lemma client_json_publish_app_trace q ev p :
  app_trace (snd (client_json_publish conf q ev p)) = app_trace p.
Proof.
  unfold client_json_publish, bind.
  pose proof (get_queue_client_app_trace p) as E.
  destruct (get_queue_client conf p) as [[o|e] p']; simpl in *; [|done].
  destruct o as [[c|c]|]; simpl; done.
Qed.

(** [retry_event] on an event whose counter is absent ([n = 0]) or the
    integer [n]. *)
Lemma retry_event_eq (q : string) (fp : nat) (ev : gmap string pyval)
    (p : process) (n : Z) :
  (ev !! "failed_tries" = None /\ n = 0%Z) \/ ev !! "failed_tries" = Some (PInt n) ->
  let ev' := <["failed_tries" := PInt (n + 1)]> ev in
  retry_event conf q fp (ev, p) =
    if (MAX_REQUEST_RETRIES <? n + 1)%Z then
      on_process (call_app (CallFailureProcessor fp ev') fp ev') (ev', p)
    else on_process (queue_json_publish conf q ev' (Some LambdaNone)) (ev', p).
Proof.
  intros Hc ev'. subst ev'.
  unfold retry_event, bind, the_event, get_item, set_item, ret, the_event, bind.
  simpl. destruct Hc as [[Hn ->]|Hs].
  - rewrite decide_True by done. simpl. rewrite lookup_insert_eq. simpl.
    rewrite lookup_insert_eq. simpl. by rewrite insert_insert_eq.
  - rewrite decide_False by congruence. simpl. rewrite Hs. simpl.
    rewrite lookup_insert_eq. simpl.
    by destruct (MAX_REQUEST_RETRIES <? n + 1)%Z.
Qed.

(** [json_publish] on a live blocking client, with a broker that takes the
    requests: the queue is declared when it is not marked, the body is
    published with the queue name as routing key, and the broker puts it at
    the end of the queue. *)
Lemma simple_json_publish_live q ev c w :
  (forall n, faults n = None) -> live c w ->
  exists c' w',
    Simple.json_publish q ev (c, w) = (Ok tt, (c', w')) /\
    Simple.connection c' = Simple.connection c /\
    Simple.channel c' = Simple.channel c /\
    Simple.consumers c' = Simple.consumers c /\
    Simple.queues c' = {[q]} ∪ Simple.queues c /\
    trace w' = trace w ++ Enter_publish q (ujson_dumps ev)
                 :: (if decide (q ∈ Simple.queues c) then [] else [QueueDeclare q])
                 ++ [BasicPublish q (ujson_dumps ev);
                     StatsdIncr ("rabbitmq.publish." +:+ q)] /\
    ((q ∈ Simple.queues c -> is_Some (bqueues w !! q)) ->
     bqueues w' !! q = Some (default [] (bqueues w !! q) ++ [ujson_dumps ev])).
Proof.
  intros Hnf (Hconn & Hch & Ho). destruct Hconn as [conn Hconn]. destruct Hch as [ch Hch].
  unfold Simple.json_publish, try_except, Simple.publish, Simple.ensure_queue,
    Simple.connect_unless_open, Simple.do_publish, Simple.the_channel, basic_publish,
    queue_declare, is_open, bind, getc, liftW, modc, request, emit, modify, ret.
  simpl. rewrite Hconn. simpl. rewrite Ho. simpl.
  destruct (decide (q ∈ Simple.queues c)) as [Hin|Hnin]; simpl; rewrite Hch; simpl.
  - rewrite Hnf. simpl. eexists _, _. split; [reflexivity|]. simpl.
    split_and!; try done.
    + set_unfold. intros x. split; [tauto|]. intros [->|]; done.
    + destruct (bqueues w !! q); simpl; by rewrite <- !app_assoc.
    + intros Hq. destruct (Hq Hin) as [l Hl]. rewrite Hl. simpl. apply lookup_insert_eq.
  - rewrite Hnf. simpl. rewrite Hch. simpl. rewrite Hnf. simpl.
    eexists _, _. split; [reflexivity|]. simpl.
    split_and!; try done.
    + repeat case_match; simpl; by rewrite <- !app_assoc.
    + intros _. destruct (bqueues w !! q) as [l|] eqn:El; simpl.
      * rewrite El. simpl. apply lookup_insert_eq.
      * rewrite lookup_insert_eq. simpl. apply lookup_insert_eq.
Qed.

(** C3: on an event whose counter is absent (taken as [n = 0]) or the
    integer [n], [retry_event] leaves the counter at [n + 1].  When
    [n + 1] exceeds [MAX_REQUEST_RETRIES = 3] it calls the failure handler
    once, with the event, and does nothing else: nothing is sent and the
    event is not changed again.  Otherwise the failure handler is not
    called and the event goes to [queue_json_publish] with the same queue
    name; in a process that uses RabbitMQ through a live blocking client,
    with a broker that takes the requests, this sends one [basic_publish]
    with the queue name as routing key and the encoded event, counter
    included, as body (after a declare when the queue is not marked), and the
    broker puts the body at the end of that queue. *)
Theorem retry_event_policy (q : string) (fp : nat) (ev : gmap string pyval)
    (p : process) (n : Z) :
  (ev !! "failed_tries" = None /\ n = 0%Z) \/ ev !! "failed_tries" = Some (PInt n) ->
  let ev' := <["failed_tries" := PInt (n + 1)]> ev in
  let data := ujson_dumps ev' in
  let r := retry_event conf q fp (ev, p) in
  let p' := snd (snd r) in
  fst (snd r) = ev' /\
  if decide (MAX_REQUEST_RETRIES < n + 1)%Z then
    p' = log_app (CallFailureProcessor fp ev') p /\
    fst r = match handler_outcome fp ev' with Some e => Raise e | None => Ok tt end
  else
    r = on_process (queue_json_publish conf q ev' (Some LambdaNone)) (ev', p) /\
    app_trace p' = app_trace p /\
    (USING_RABBITMQ conf = true ->
     forall c,
       queue_client p = Some (SimpleClient c) ->
       live c (world p) ->
       (forall k, faults k = None) ->
       fst r = Ok tt /\
       trace (world p')
       = trace (world p) ++ Enter_publish q data
           :: (if decide (q ∈ Simple.queues c) then [] else [QueueDeclare q])
           ++ [BasicPublish q data; StatsdIncr ("rabbitmq.publish." +:+ q)] /\
       ((q ∈ Simple.queues c -> is_Some (bqueues (world p) !! q)) ->
        bqueues (world p') !! q
        = Some (default [] (bqueues (world p) !! q) ++ [data]))).
Proof.
  intros Hc ev' data r p'. subst r p'. rewrite (retry_event_eq q fp ev p n Hc). fold ev'.
  destruct (decide (MAX_REQUEST_RETRIES < n + 1)%Z) as [Hgt|Hle].
  - apply Z.ltb_lt in Hgt as ->.
    unfold on_process, call_app, bind, modify, raise, ret. simpl.
    destruct (handler_outcome fp ev'); done.
  - apply Z.ltb_nlt in Hle as ->. split; [done|split; [done|split]].
    + unfold on_process, queue_json_publish. simpl.
      destruct (USING_RABBITMQ conf); [apply client_json_publish_app_trace|done].
    + intros Hr c Hcl Hlive Hnf.
      destruct (simple_json_publish_live q ev' c (world p) Hnf Hlive)
        as (c' & w' & E & _ & _ & _ & _ & Ht & Hq).
      assert (Eg : get_queue_client conf p = (Ok (Some (SimpleClient c)), p)).
      { unfold get_queue_client, bind, get, ret. rewrite Hcl. by rewrite Hcl. }
      unfold on_process, queue_json_publish. rewrite Hr. unfold client_json_publish.
      erewrite bind_ok by exact Eg. unfold on_client. cbv zeta. rewrite E. simpl.
      done.
Qed.

(** C10: without RabbitMQ, on an event whose counter is absent ([n = 0]) or
    the integer [n] with [n + 1] at most [MAX_REQUEST_RETRIES],
    [retry_event] returns having changed nothing but the counter: the
    process is as before, so no worker was handed the event and the failure
    handler was not called. *)
Theorem retry_event_without_rabbitmq (q : string) (fp : nat)
    (ev : gmap string pyval) (p : process) (n : Z) :
  USING_RABBITMQ conf = false ->
  (ev !! "failed_tries" = None /\ n = 0%Z) \/ ev !! "failed_tries" = Some (PInt n) ->
  (n + 1 <= MAX_REQUEST_RETRIES)%Z ->
  retry_event conf q fp (ev, p) = (Ok tt, (<["failed_tries" := PInt (n + 1)]> ev, p)).
Proof.
  intros Hno Hc Hle. rewrite (retry_event_eq q fp ev p n Hc).
  replace (MAX_REQUEST_RETRIES <? n + 1)%Z with false
    by (symmetry; apply Z.ltb_ge; lia).
  unfold on_process, queue_json_publish. rewrite Hno. simpl. by destruct p.
Qed.

End RetryFacts.

Lemma retry_event_policy_witness :
  let ev := {[ "failed_tries" := PInt 2 ]} : gmap string pyval in
  let ev' := <["failed_tries" := PInt (2 + 1)]> ev in
  let data := ujson_dumps (Env := calm) ev' in
  let p := {| Queue.queue_client := Some (Queue.SimpleClient (fst simple_connected));
              Queue.world := snd simple_connected; Queue.app_trace := [] |} in
  let r := Queue.retry_event (H := calm) with_rabbitmq "q" 0 (ev, p) in
  fst (snd r) = ev' /\
  fst r = Ok tt /\
  Queue.app_trace (snd (snd r)) = [] /\
  trace (Queue.world (snd (snd r)))
  = trace (snd simple_connected)
      ++ [Enter_publish "q" data; QueueDeclare "q"; BasicPublish "q" data;
          StatsdIncr "rabbitmq.publish.q"] /\
  bqueues (Queue.world (snd (snd r))) !! "q" = Some [data].
Proof.
  intros ev ev' data p r.
  pose proof (retry_event_policy (H := calm) with_rabbitmq "q" 0 ev p 2) as Hpol.
  destruct Hpol as [Hev Hrest]; [right; vm_compute; reflexivity|].
  destruct (decide (Queue.MAX_REQUEST_RETRIES < 2 + 1)%Z) as [Hgt|_];
    [vm_compute in Hgt; discriminate|].
  destruct Hrest as (_ & Happ & Hsend).
  destruct (Hsend eq_refl (fst simple_connected)) as (Hok & Ht & Hq).
  - reflexivity.
  - split_and!; [by eexists|by eexists|reflexivity].
  - intros k. reflexivity.
  - split_and!; [exact Hev|exact Hok|exact Happ|exact Ht|].
    apply Hq. intros Hin. vm_compute in Hin. discriminate.
Defined.

Lemma retry_event_without_rabbitmq_witness :
  Queue.retry_event (H := calm) no_rabbitmq "q" 0 (∅, fresh_process)
  = (Ok tt, (<["failed_tries" := PInt (0 + 1)]> ∅, fresh_process)).
Proof.
  apply (retry_event_without_rabbitmq (H := calm) no_rabbitmq "q" 0 ∅ fresh_process 0).
  - reflexivity.
  - left. split; reflexivity.
  - vm_compute. discriminate.
Defined.

(** ** The event-driven client: the connection lifecycle *)

Section LifecycleFacts.
Context `{Env}.
Import Tornado.

Lemma push_declare_cb_lifecycle q cb c : lifecycle (push_declare_cb q cb c) = lifecycle c.
Proof. unfold push_declare_cb. by destruct (channel c). Qed.

Lemma run_callback_lifecycle cb : keeps lifecycle (run_callback cb).
Proof.
  induction cb as [q b|q w|n|q cb IH]; simpl;
    unfold do_publish, do_consume, the_channel, _generate_ctag, ensure_queue_with.
  - frame.
  - frame.
  - frame.
  - frame_using ltac:(first [apply IH
      | apply keeps_modc; intros ?; apply push_declare_cb_lifecycle]).
Qed.

Lemma ensure_queue_lifecycle q cb : keeps lifecycle (ensure_queue q cb).
Proof. apply (run_callback_lifecycle (CbEnsure q cb)). Qed.

Lemma finish_lifecycle q cb : keeps lifecycle (finish q cb).
Proof. unfold finish. frame_using ltac:(apply run_callback_lifecycle). Qed.

Lemma replay_lifecycle : keeps lifecycle _reconnect_consumer_callbacks.
Proof.
  unfold _reconnect_consumer_callbacks, _reconnect_consumer_callback.
  frame_using ltac:(apply ensure_queue_lifecycle).
Qed.

Lemma on_channel_open_lifecycle ch : keeps lifecycle (_on_channel_open ch).
Proof.
  unfold _on_channel_open.
  frame_using ltac:(first [apply run_callback_lifecycle | apply replay_lifecycle]).
Qed.

Lemma publish_lifecycle q b : keeps lifecycle (publish q b).
Proof. unfold publish. frame_using ltac:(apply ensure_queue_lifecycle). Qed.

Lemma register_consumer_lifecycle q c : keeps lifecycle (register_consumer q c).
Proof. unfold register_consumer. frame_using ltac:(apply ensure_queue_lifecycle). Qed.

Lemma reconnect_failure_count : keeps _connection_failure_count _reconnect.
Proof. unfold _reconnect, _connect. frame. Qed.

Lemma lifecycle_failure_count {A} (m : M state A) :
  keeps lifecycle m -> keeps _connection_failure_count m.
Proof. intros Hm s. specialize (Hm s). unfold lifecycle in Hm. congruence. Qed.

Lemma apply_call_failure_count a : keeps _connection_failure_count (apply_call a).
Proof.
  destruct a as [q n|q c|q b|q body]; simpl.
  - apply lifecycle_failure_count, ensure_queue_lifecycle.
  - apply lifecycle_failure_count, register_consumer_lifecycle.
  - apply lifecycle_failure_count, publish_lifecycle.
  - unfold json_publish.
    frame_using ltac:(first [apply lifecycle_failure_count, publish_lifecycle
                            | apply reconnect_failure_count]).
Qed.

Lemma on_open_error_effect s :
  let s' := snd (_on_connection_open_error s) in
  connection (fst s') = connection (fst s) /\
  _connection_failure_count (fst s') = (_connection_failure_count (fst s) + 1)%Z /\
  trace (snd s') = trace (snd s) ++
    [Log (if (CONNECTION_FAILURES_BEFORE_NOTIFY <? _connection_failure_count (fst s) + 1)%Z
          then CRITICAL else WARNING)
       "TornadoQueueClient couldn't connect to RabbitMQ, retrying in 2 secs...";
     CallLater 2].
Proof.
  destruct s as [c w]. unfold _on_connection_open_error, bind, modc, getc, liftW,
    call_later_reconnect, emit, modify, bind. simpl.
  destruct (CONNECTION_FAILURES_BEFORE_NOTIFY <? _connection_failure_count c + 1)%Z; simpl;
    rewrite <- app_assoc; done.
Qed.

Lemma on_open_effect s :
  _connection_failure_count (fst (snd (_on_open s))) = 0%Z.
Proof.
  destruct s as [c w].
  unfold _on_open, bind, try_except, modc, getc, liftW, request, emit, modify, raise.
  simpl. destruct (connection c); simpl; [|done].
  destruct (faults (tick w)) as [e|]; simpl; [|done]. by destruct (is_ConnectionClosed e).
Qed.

Lemma phase_step {A} p b (m : M state A) s :
  (set_phase p b ;; m) s
  = m (set_connection (Some {| phase := p; channel_pending := b |}) (fst s), snd s).
Proof. reflexivity. Qed.

Lemma timer_step n (s : state) :
  snd ((liftW (modify (set_timers n)) ;; _reconnect) s)
  = snd (_reconnect (fst s, set_timers n (snd s))).
Proof. reflexivity. Qed.

Lemma on_closed_effect s :
  let s' := snd (_on_connection_closed s) in
  _connection_failure_count (fst s') = 1%Z /\
  trace (snd s') = trace (snd s) ++
    [Log WARNING "TornadoQueueClient lost connection to RabbitMQ, reconnecting in 2 secs...";
     CallLater 2].
Proof.
  destruct s as [c w]. unfold _on_connection_closed, bind, modc, liftW,
    call_later_reconnect, emit, modify, bind. simpl. by rewrite <- app_assoc.
Qed.

(** C6 (as amended): whichever state the event-driven client is in, and
    whichever connection object the loop makes the call for, a failed
    connect attempt adds one to the failure counter and logs at CRITICAL
    exactly when the new count exceeds 10, at WARNING otherwise; the loss of
    a connection sets the counter to 1, which adds one to it when it is 0; a
    successful open sets it to 0, so that a loss that comes next brings it
    to 1; and nothing else that the loop or the application does changes it:
    not the opening of a channel, a confirmed declare, [_reconnect], or a
    call of application code. *)
Theorem failure_counter_lifecycle (s : state) :
  let n := _connection_failure_count (fst s) in
  let failed := snd (_on_connection_open_error s) in
  let lost := snd (_on_connection_closed s) in
  let opened := snd (_on_open s) in
  (_connection_failure_count (fst failed) = (n + 1)%Z /\
   trace (snd failed) = trace (snd s) ++
     [Log (if (10 <? n + 1)%Z then CRITICAL else WARNING)
        "TornadoQueueClient couldn't connect to RabbitMQ, retrying in 2 secs...";
      CallLater 2]) /\
  (_connection_failure_count (fst lost) = 1%Z /\
   (n = 0%Z -> _connection_failure_count (fst lost) = (n + 1)%Z) /\
   trace (snd lost) = trace (snd s) ++
     [Log WARNING "TornadoQueueClient lost connection to RabbitMQ, reconnecting in 2 secs...";
      CallLater 2]) /\
  (_connection_failure_count (fst opened) = 0%Z /\
   _connection_failure_count (fst (snd (_on_connection_closed opened))) = 1%Z) /\
  (forall ch, keeps _connection_failure_count (_on_channel_open ch)) /\
  (forall q cb, keeps _connection_failure_count (finish q cb)) /\
  keeps _connection_failure_count _reconnect /\
  (forall a, keeps _connection_failure_count (apply_call a)).
Proof.
  intros n failed lost opened. subst n failed lost opened. split_and!.
  - apply on_open_error_effect.
  - apply on_open_error_effect.
  - apply on_closed_effect.
  - intros ->. apply on_closed_effect.
  - apply on_closed_effect.
  - apply on_open_effect.
  - apply on_closed_effect.
  - intros ch. apply lifecycle_failure_count, on_channel_open_lifecycle.
  - intros q cb. apply lifecycle_failure_count, finish_lifecycle.
  - apply reconnect_failure_count.
  - apply apply_call_failure_count.
Qed.

End LifecycleFacts.

(** C6 (as stated) fails when the connection that is lost is one that the
    client has given up.  The channel of an open connection fails a declare
    with a connection error: [json_publish] reconnects, which makes a new
    connection and leaves the old one unclosed.  The new connection fails
    twice, which brings the counter to 2.  Then the old connection is lost:
    its [on_close_callback] is [_on_connection_closed], and the counter is
    1, not 3. *)
Lemma loss_of_an_abandoned_connection_sets_the_counter_back :
  let broker := failing_at 2 AMQPConnectionError in
  let r := Tornado.json_publish (H := broker) "q" ∅ tornado_open in
  exists s2,
    fst r = Ok tt /\
    count is_reconnect (trace (snd (snd r))) = 1 /\
    Tornado.connection (fst (snd r))
    = Some {| Tornado.phase := Tornado.Connecting; Tornado.channel_pending := false |} /\
    steps (H := broker) [Tornado.EvOpenError; Tornado.EvTimer; Tornado.EvOpenError] (snd r)
    = Some s2 /\
    Tornado._connection_failure_count (fst s2) = 2%Z /\
    Tornado._connection_failure_count (fst (snd (Tornado._on_connection_closed s2))) = 1%Z.
Proof. eexists. vm_compute. split_and!; reflexivity. Qed.

(** ** The consumer registry *)




Lemma elem_of_registry_pairs q wc (m : gmap string (gset wrapped)) :
  (q, wc) ∈ Simple.registry_pairs m <-> wc ∈ default ∅ (m !! q).
Proof.
  unfold Simple.registry_pairs. rewrite list_elem_of_bind. split.
  - intros ([k X] & Hin & Hm). apply elem_of_map_to_list in Hm.
    apply list_elem_of_fmap in Hin as (x & [= -> ->] & Hx). simpl in *.
    rewrite Hm. simpl. by apply elem_of_elements in Hx.
  - intros Hin. destruct (m !! q) as [X|] eqn:E; simpl in Hin; [|set_solver].
    exists (q, X). split; [|by apply elem_of_map_to_list].
    apply list_elem_of_fmap. exists wc. split; [done|]. by apply elem_of_elements.
Qed.

Lemma NoDup_registry_pairs (m : gmap string (gset wrapped)) :
  NoDup (Simple.registry_pairs m).
Proof.
  unfold Simple.registry_pairs. apply NoDup_bind.
  - intros [k1 X1] [k2 X2] [q wc] H1 H2 Hy1 Hy2.
    apply list_elem_of_fmap in Hy1 as (x1 & [= -> ->] & _).
    apply list_elem_of_fmap in Hy2 as (x2 & [= -> ->] & _). simpl in *.
    apply elem_of_map_to_list in H1, H2. congruence.
  - intros [k X] _. apply NoDup_fmap_2; [|apply NoDup_elements].
    by intros x y [=].
  - apply NoDup_map_to_list.
Qed.








Section RegistryFacts.
Context `{Env}.








End RegistryFacts.


(** ** Declaring a queue once *)

Section DeclareFacts.
Context `{Env}.

Lemma elem_of_after (x : string) (X Y : gset string) : Y = X -> x ∈ X -> x ∈ Y.
Proof. by intros ->. Qed.

Lemma declared_trace q w : trace (declared q w) = trace w ++ [QueueDeclare q].
Proof.
  unfold declared, queue_declare, bind, request, modify.
  destruct (faults (tick w)); simpl; [done|]. by case_match.
Qed.

Lemma declared_draws q w : draws (declared q w) = draws w.
Proof.
  unfold declared, queue_declare, bind, request, modify.
  destruct (faults (tick w)); simpl; [done|]. by case_match.
Qed.

Lemma queue_declare_ok q w :
  faults (tick w) = None -> queue_declare q w = (Ok tt, declared q w).
Proof.
  intros Hnf. unfold declared, queue_declare, bind, request, modify.
  rewrite Hnf. simpl. reflexivity.
Qed.

Lemma no_declare_count l : Forall (fun a => is_declare a = false) l -> count is_declare l = 0.
Proof. apply count_none. Qed.

Lemma simple_connect_no_declare :
  appends (fun a => is_declare a = false) Simple._connect.
Proof. unfold Simple._connect. quiet. Qed.

Lemma simple_connect_unless_open_no_declare :
  appends (fun a => is_declare a = false) Simple.connect_unless_open.
Proof.
  unfold Simple.connect_unless_open.
  quiet_using ltac:(apply simple_connect_no_declare).
Qed.

Lemma simple_connect_unless_open_queues :
  keeps Simple.queues Simple.connect_unless_open.
Proof. unfold Simple.connect_unless_open, Simple._connect. frame. Qed.

Lemma simple_connect_unless_open_live c w :
  live c w -> Simple.connect_unless_open (c, w) = (Ok tt, (c, w)).
Proof.
  intros ([conn Hc] & _ & Ho). unfold Simple.connect_unless_open.
  rewrite bind_getc. simpl. rewrite Hc.
  unfold bind, liftW, is_open. simpl. by rewrite Ho.
Qed.

(** A call for a queue that is marked declared sends no declare: it makes
    sure of the connection and calls the callback. *)
Lemma simple_ensure_queue_cached {A} q (cb : M Simple.state A) s :
  q ∈ Simple.queues (fst s) ->
  Simple.ensure_queue q cb s = (Simple.connect_unless_open ;; cb) s.
Proof.
  intros Hin. unfold Simple.ensure_queue.
  pose proof (simple_connect_unless_open_queues s) as Hq.
  destruct (Simple.connect_unless_open s) as [[[]|e] s0] eqn:E.
  - rewrite !(bind_ok _ _ s tt s0 E). simpl in Hq.
    rewrite bind_getc. rewrite decide_True by (by rewrite Hq). reflexivity.
  - by rewrite !(bind_raise _ _ s e s0 E).
Qed.

(** The first call, on a live channel, for a queue not yet marked. *)
Lemma simple_ensure_queue_first {A} q (cb : M Simple.state A) c w :
  live c w -> q ∉ Simple.queues c -> faults (tick w) = None ->
  Simple.ensure_queue q cb (c, w)
  = cb (Simple.set_queues ({[q]} ∪ Simple.queues c) c, declared q w).
Proof.
  intros Hlive Hnin Hnf. unfold Simple.ensure_queue.
  erewrite bind_ok by (by apply simple_connect_unless_open_live).
  rewrite bind_getc. simpl. rewrite decide_False by done.
  destruct Hlive as (_ & [ch Hch] & _).
  erewrite bind_ok; [reflexivity|].
  unfold Simple.the_channel, bind, getc, liftW, modc, ret. simpl. rewrite Hch. simpl.
  rewrite queue_declare_ok by done. reflexivity.
Qed.

(** The event-driven client: a call on an open channel for a queue not yet
    marked sends the declare and leaves [finish] with the channel. *)
Lemma tornado_ensure_queue_first q cb c w ch :
  Tornado.channel c = Some ch -> q ∉ Tornado.queues c -> faults (tick w) = None ->
  Tornado.ensure_queue q cb (c, w)
  = (Ok tt, (Tornado.push_declare_cb q cb c, declared q w)).
Proof.
  intros Hch Hnin Hnf. unfold Tornado.ensure_queue, Tornado.ensure_queue_with.
  rewrite bind_getc. simpl. rewrite decide_False by done.
  unfold Tornado.ready. rewrite Hch. simpl.
  erewrite (bind_ok (liftW (queue_declare q)));
    [|unfold liftW; simpl; rewrite queue_declare_ok by done; reflexivity].
  reflexivity.
Qed.

Lemma tornado_ensure_queue_cached q cb s :
  q ∈ Tornado.queues (fst s) -> Tornado.ensure_queue q cb s = Tornado.run_callback cb s.
Proof.
  intros Hin. unfold Tornado.ensure_queue, Tornado.ensure_queue_with.
  rewrite bind_getc. by rewrite decide_True.
Qed.

(** C5 (as amended): in the blocking client, two calls of [ensure_queue]
    for [q] in a row on a live channel send one declare when [q] was not
    marked and none when it was (the callbacks sending none of their own):
    the first call declares, marks [q] and calls its callback, the second
    only makes sure of the connection and calls its callback.  In the
    event-driven client a call on an open channel for an unmarked [q] sends
    the declare and returns with [q] still unmarked; the broker's
    confirmation ([finish]) marks [q] and calls the callback; every call
    made once [q] is marked calls its callback without declaring. *)
Theorem ensure_queue_declares_once (q : string) (cb1 cb2 : M Simple.state unit)
    (c : Simple.SimpleQueueClient) (w : World)
    (tcb : Tornado.callback) (tc : Tornado.TornadoQueueClient) (tw : World)
    (ch : Tornado.channel_obj) :
  live c w ->
  faults (tick w) = None ->
  keeps Simple.queues cb1 ->
  appends (fun a => is_declare a = false) cb1 ->
  appends (fun a => is_declare a = false) cb2 ->
  Tornado.channel tc = Some ch ->
  faults (tick tw) = None ->
  let s1 := snd (Simple.ensure_queue q cb1 (c, w)) in
  let s2 := snd (Simple.ensure_queue q cb2 s1) in
  (exists l, trace (snd s2) = trace w ++ l /\
             count is_declare l = if decide (q ∈ Simple.queues c) then 0 else 1) /\
  (q ∉ Simple.queues c ->
     Simple.ensure_queue q cb1 (c, w)
     = cb1 (Simple.set_queues ({[q]} ∪ Simple.queues c) c, declared q w)) /\
  q ∈ Simple.queues (fst s1) /\
  Simple.ensure_queue q cb2 s1 = (Simple.connect_unless_open ;; cb2) s1 /\
  (q ∉ Tornado.queues tc ->
     Tornado.ensure_queue q tcb (tc, tw)
     = (Ok tt, (Tornado.push_declare_cb q tcb tc, declared q tw)) /\
     q ∉ Tornado.queues (Tornado.push_declare_cb q tcb tc)) /\
  (forall s, Tornado.finish q tcb s
             = Tornado.run_callback tcb
                 (Tornado.set_queues ({[q]} ∪ Tornado.queues (fst s)) (fst s), snd s)) /\
  (forall s cb', q ∈ Tornado.queues (fst s) ->
                 Tornado.ensure_queue q cb' s = Tornado.run_callback cb' s).
Proof.
  intros Hlive Hnf Hk1 Ha1 Ha2 Hch Htnf s1 s2.
  assert (Hfirst : exists l1, trace (snd s1) = trace w ++ l1 /\
            count is_declare l1 = (if decide (q ∈ Simple.queues c) then 0 else 1) /\
            q ∈ Simple.queues (fst s1)).
  { subst s1. destruct (decide (q ∈ Simple.queues c)) as [Hin|Hnin].
    - rewrite simple_ensure_queue_cached by done.
      rewrite (bind_ok _ _ _ _ _ (simple_connect_unless_open_live c w Hlive)).
      destruct (Ha1 (c, w)) as (l & E & F). exists l. split; [done|].
      split; [by apply no_declare_count|].
      eapply elem_of_after; [exact (Hk1 (c, w))|done].
    - rewrite simple_ensure_queue_first by done.
      match goal with |- context [cb1 ?s0] =>
        destruct (Ha1 s0) as (l & E & F); pose proof (Hk1 s0) as Hq end.
      exists (QueueDeclare q :: l). split_and!.
      + etrans; [exact E|]. simpl. rewrite declared_trace. by rewrite <- app_assoc.
      + count_up. by rewrite no_declare_count.
      + eapply elem_of_after; [exact Hq|]. simpl.
        apply elem_of_union. left. by apply elem_of_singleton. }
  destruct Hfirst as (l1 & E1 & C1 & Hin1).
  assert (Hsecond : exists l2, trace (snd s2) = trace (snd s1) ++ l2 /\
            count is_declare l2 = 0).
  { subst s2. rewrite simple_ensure_queue_cached by done.
    assert (Happ : appends (fun a => is_declare a = false)
                     (Simple.connect_unless_open ;; cb2)).
    { apply appends_bind; [apply simple_connect_unless_open_no_declare|by intros]. }
    destruct (Happ s1) as (l2 & E2 & F2). exists l2. split; [done|].
    by apply no_declare_count. }
  destruct Hsecond as (l2 & E2 & C2).
  split_and!.
  - exists (l1 ++ l2). rewrite E2, E1, app_assoc. split; [done|].
    rewrite count_app, C1, C2. lia.
  - intros Hnin. by apply simple_ensure_queue_first.
  - done.
  - by apply simple_ensure_queue_cached.
  - intros Hnin. split; [by eapply tornado_ensure_queue_first|].
    unfold Tornado.push_declare_cb. by rewrite Hch.
  - intros s. reflexivity.
  - intros s cb'. apply tornado_ensure_queue_cached.
Qed.

End DeclareFacts.

(** C5 (as stated) fails in the event-driven client: two calls in a row on
    an open channel, before the loop has delivered a confirmation, send two
    declares for the same queue, and neither callback has been called. *)
Lemma two_calls_in_a_row_declare_twice :
  let s1 := snd (Tornado.ensure_queue (H := calm) "q" (Tornado.CbUser 0) tornado_open) in
  let s2 := snd (Tornado.ensure_queue (H := calm) "q" (Tornado.CbUser 1) s1) in
  trace (snd s2) = trace (snd tornado_open) ++ [QueueDeclare "q"; QueueDeclare "q"] /\
  count is_declare (trace (snd s2)) = 2 /\
  Tornado.queues (fst s2) = ∅ /\
  Tornado.channel (fst s2)
  = Some {| Tornado.chan_id := 2;
            Tornado.declare_cbs := [("q", Tornado.CbUser 0); ("q", Tornado.CbUser 1)] |}.
Proof. vm_compute. done. Qed.

Lemma ensure_queue_declares_once_witness :
  let c := fst simple_connected in
  let w := snd simple_connected in
  let cb := Simple.do_publish (H := calm) "q" [] in
  let s1 := snd (Simple.ensure_queue (H := calm) "q" cb (c, w)) in
  let s2 := snd (Simple.ensure_queue (H := calm) "q" cb s1) in
  exists l, trace (snd s2) = trace w ++ l /\
            count is_declare l = if decide ("q" ∈ Simple.queues c) then 0 else 1.
Proof.
  intros c w cb s1 s2.
  refine (proj1 (ensure_queue_declares_once (H := calm) "q" cb cb c w
            (Tornado.CbUser 0) (fst tornado_open) (snd tornado_open)
            {| Tornado.chan_id := 2; Tornado.declare_cbs := [] |} _ _ _ _ _ _ _)).
  - split_and!; [by eexists|by eexists|reflexivity].
  - reflexivity.
  - unfold cb, Simple.do_publish, Simple.the_channel. frame.
  - unfold cb, Simple.do_publish, Simple.the_channel. quiet.
  - unfold cb, Simple.do_publish, Simple.the_channel. quiet.
  - reflexivity.
  - reflexivity.
Defined.

(** ** The event-driven client: the stored callables *)

Section CallbackFacts.
Context `{Env}.
Import Tornado.

Lemma stored_callbacks_wf c c' : stored c' = stored c -> callbacks_wf c -> callbacks_wf c'.
Proof. unfold stored, callbacks_wf. intros [= -> ->]. done. Qed.

Lemma plain_leaf cb : plain cb = true -> leaf cb = true.
Proof. by destruct cb. Qed.

Lemma leaf_stored cb : leaf cb = true -> keeps stored (run_callback cb).
Proof.
  destruct cb as [q b|q w|n|q cb]; simpl; [| | |done]; intros _;
    unfold do_publish, do_consume, the_channel, _generate_ctag; frame.
Qed.

Lemma push_declare_cb_wf q cb c :
  leaf cb = true -> callbacks_wf c -> callbacks_wf (push_declare_cb q cb c).
Proof.
  intros Hcb [H1 H2]. unfold push_declare_cb.
  destruct (channel c) as [ch|] eqn:E; [|by split; [|rewrite E]].
  split; [done|]. simpl. apply Forall_app. split; [done|]. by constructor.
Qed.

Lemma push_declare_cb_channel q cb c :
  is_Some (channel c) -> is_Some (channel (push_declare_cb q cb c)).
Proof. unfold push_declare_cb. intros [ch ->]. by eexists. Qed.

Lemma run_callback_channel cb : preserves (fun c => is_Some (channel c)) (run_callback cb).
Proof.
  induction cb as [q b|q w|n|q cb IH]; simpl;
    unfold do_publish, do_consume, the_channel, _generate_ctag, ensure_queue_with.
  - invariant_using fail.
  - invariant_using fail.
  - invariant_using fail.
  - invariant_using ltac:(first [apply IH
      | apply preserves_modc; intros ?; apply push_declare_cb_channel
      | apply preserves_modc; by intros ? ?]).
Qed.

(** A call by application code keeps the stored callables in shape. *)
Lemma ensure_queue_wf q cb : plain cb = true -> preserves callbacks_wf (ensure_queue q cb).
Proof.
  intros Hcb. unfold ensure_queue, ensure_queue_with.
  invariant_using ltac:(first
    [ eapply keeps_preserves; [apply stored_callbacks_wf|by apply leaf_stored, plain_leaf]
    | apply preserves_modc; intros ?; by apply push_declare_cb_wf, plain_leaf ]).
  apply preserves_modc. intros c' [Hl Hd]. split; [|done]. simpl.
  apply Forall_app. split; [done|]. by constructor.
Qed.

(** A call on a channel, as [register_consumer] and the replay make it. *)
Lemma ensure_queue_ready_wf q cb :
  leaf cb = true ->
  preserves (fun c => callbacks_wf c /\ is_Some (channel c)) (ensure_queue q cb).
Proof.
  intros Hcb [c w] [Hwf [ch Hch]]. simpl in *.
  unfold ensure_queue, ensure_queue_with. rewrite bind_getc. simpl.
  destruct (decide (q ∈ queues c)).
  - pose proof (leaf_stored cb Hcb (c, w)) as Hs. simpl in Hs. split.
    + by eapply stored_callbacks_wf.
    + unfold stored in Hs. injection Hs as _ ->. by eexists.
  - unfold ready. rewrite Hch. simpl.
    revert c Hwf Hch n.
    assert (Hp : preserves (fun c => callbacks_wf c /\ is_Some (channel c))
                   (liftW (queue_declare q) ;; modc (push_declare_cb q cb))).
    { apply preserves_bind; [apply preserves_liftW|]. intros _.
      apply preserves_modc. intros c [? ?].
      split; [by apply push_declare_cb_wf|by apply push_declare_cb_channel]. }
    intros c Hwf Hch _. apply (Hp (c, w)). simpl. split; [done|by eexists].
Qed.

Lemma replay_wf :
  preserves (fun c => callbacks_wf c /\ is_Some (channel c)) _reconnect_consumer_callbacks.
Proof.
  unfold _reconnect_consumer_callbacks, _reconnect_consumer_callback.
  apply preserves_bind; [apply preserves_getc|]. intros c.
  apply preserves_for_each. intros [q wc].
  apply preserves_bind; [apply preserves_liftW|]. intros _.
  by apply ensure_queue_ready_wf.
Qed.

Lemma run_deferred_wf l :
  Forall (fun cb => deferred_call cb = true) l ->
  preserves (fun c => callbacks_wf c /\ is_Some (channel c)) (for_each l run_callback).
Proof.
  induction 1 as [|cb l Hcb _ IH]; simpl; [apply preserves_ret|].
  apply preserves_bind; [|by intros _].
  apply preserves_and; [|apply run_callback_channel].
  destruct cb as [| | |q cb]; try done. by apply (ensure_queue_wf q cb).
Qed.

Lemma on_channel_open_wf ch s :
  Forall (fun it => leaf (snd it) = true) (declare_cbs ch) ->
  callbacks_wf (fst s) -> callbacks_wf (fst (snd (_on_channel_open ch s))).
Proof.
  intros Hch [H1 H2]. destruct s as [c w]. simpl in *.
  unfold _on_channel_open. rewrite bind_modc, bind_getc. simpl.
  assert (Hp : preserves (fun c => callbacks_wf c /\ is_Some (channel c))
                 (for_each (_on_open_cbs c) run_callback ;;
                  _reconnect_consumer_callbacks ;;
                  liftW (emit (Log INFO "TornadoQueueClient connected")))).
  { apply preserves_bind; [by apply run_deferred_wf|]. intros _.
    apply preserves_bind; [apply replay_wf|]. intros _. apply preserves_liftW. }
  apply (Hp (set_channel (Some ch) c, w)). simpl. split; [by split|by eexists].
Qed.

Lemma finish_wf q cb : leaf cb = true -> preserves callbacks_wf (finish q cb).
Proof.
  intros Hcb. unfold finish. apply preserves_bind; [|intros _].
  - apply preserves_modc. by intros c.
  - eapply keeps_preserves; [apply stored_callbacks_wf|by apply leaf_stored].
Qed.

Lemma reconnect_wf : preserves callbacks_wf _reconnect.
Proof.
  unfold _reconnect, _connect.
  invariant_using ltac:(apply preserves_modc; by intros ? [? ?]).
Qed.

Lemma publish_wf q b : preserves callbacks_wf (publish q b).
Proof.
  unfold publish. apply preserves_bind; [apply preserves_liftW|]. intros _.
  by apply ensure_queue_wf.
Qed.

Lemma register_consumer_wf q cons : preserves callbacks_wf (register_consumer q cons).
Proof.
  intros [c w] Hwf. simpl in *.
  unfold register_consumer, bind at 1, liftW at 1, new_wrapped. simpl.
  rewrite bind_getc. simpl. unfold ready.
  destruct (channel c) as [ch|] eqn:Hch; simpl.
  - rewrite bind_modc.
    apply (ensure_queue_ready_wf q (CbConsume q (Wrapped (next_obj w) cons)) eq_refl
             (set_consumers _ c, _)).
    simpl. rewrite Hch. split; [|by eexists]. destruct Hwf as [? Hd]. split; [done|].
    simpl. by rewrite Hch in *.
  - destruct Hwf as [? Hd]. split; [done|]. simpl. by rewrite Hch in *.
Qed.

Lemma apply_call_wf a : preserves callbacks_wf (apply_call a).
Proof.
  destruct a as [q n|q c|q b|q body]; simpl.
  - by apply ensure_queue_wf.
  - apply register_consumer_wf.
  - apply publish_wf.
  - unfold json_publish.
    invariant_using ltac:(first [apply publish_wf | apply reconnect_wf]).
Qed.

Lemma step_wf ev s s' : callbacks_wf (fst s) -> step ev s = Some s' -> callbacks_wf (fst s').
Proof.
  intros Hs Hstep. destruct s as [c w]. unfold step in Hstep. simpl in Hstep, Hs.
  destruct ev; destruct (connection c) as [[[] pend]|] eqn:Ec.
  all: simplify_eq/=.
  all: try (destruct (timers w) as [|n] eqn:Et; simplify_eq/=;
            rewrite timer_step; by apply reconnect_wf).
  - assert (Hk : keeps stored (set_phase Closed false ;; _on_connection_open_error))
      by (unfold set_phase, _on_connection_open_error; frame).
    eapply stored_callbacks_wf; [apply Hk|]. done.
  - assert (Hk : keeps stored (set_phase Opened false ;; _on_open))
      by (unfold set_phase, _on_open; frame).
    eapply stored_callbacks_wf; [apply Hk|]. done.
  - destruct pend; simplify_eq/=.
    apply (on_channel_open_wf _ (set_connection _ c, w)); [by constructor|done].
  - exact Hs.
  - destruct (channel c) as [[i [|[q cb] rest]]|] eqn:Ech; simplify_eq/=.
    destruct Hs as [H1 H2]. rewrite Ech in H2. simpl in H2.
    apply Forall_cons in H2 as [Hcb Hrest].
    apply (finish_wf q cb Hcb (set_channel _ c, w)). simpl. by split.
Qed.

(** The on-open list holds buffered calls of [ensure_queue] by application
    code when the client has been constructed, and after every input that
    it takes from there. *)
Lemma constructed_callbacks_wf w c w' : __init__ w = (Ok c, w') -> callbacks_wf c.
Proof.
  intros Hinit. unfold __init__ in Hinit.
  assert (Hk : keeps channel _connect) by (unfold _connect; frame).
  match type of Hinit with context [_connect ?s0] => specialize (Hk s0) end.
  destruct (_connect _) as [[[]|e] s1]; simplify_eq/=.
  split; simpl; [done|]. by rewrite Hk.
Qed.

Lemma reacts_callbacks_wf ins s s' :
  callbacks_wf (fst s) -> reacts ins s = Some s' -> callbacks_wf (fst s').
Proof.
  revert s. induction ins as [|i ins IH]; intros s Hs Hr; simpl in Hr; [by simplify_eq|].
  destruct (react i s) as [s1|] eqn:E; [|done].
  apply (IH s1); [|done]. destruct i as [ev|a]; simpl in E.
  - by eapply step_wf.
  - simplify_eq. by apply apply_call_wf.
Qed.

Lemma callbacks_wf_buffered c :
  callbacks_wf c ->
  exists items, _on_open_cbs c = buffered items /\ all_plain items = true.
Proof.
  intros [Hc _]. induction Hc as [|cb l Hcb _ (items & -> & Hi)].
  - by exists [].
  - destruct cb as [| | |q cb]; try done. exists ((q, cb) :: items). split; [done|].
    unfold all_plain in *. simpl in *. by rewrite Hcb, Hi.
Qed.

End CallbackFacts.

(** ** The event-driven client: buffering and replay *)

Section ReplayFacts.
Context `{Env}.
Import Tornado.

Lemma steps_app evs1 evs2 s :
  steps (evs1 ++ evs2) s
  = match steps evs1 s with Some s' => steps evs2 s' | None => None end.
Proof.
  revert s. induction evs1 as [|ev evs1 IH]; intros s; simpl; [done|].
  destruct (step ev s); [apply IH|done].
Qed.

Lemma reacts_app ins1 ins2 s :
  reacts (ins1 ++ ins2) s
  = match reacts ins1 s with Some s' => reacts ins2 s' | None => None end.
Proof.
  revert s. induction ins1 as [|i ins1 IH]; intros s; simpl; [done|].
  destruct (react i s); [apply IH|done].
Qed.

(** A timer fires: [_reconnect]. *)
Lemma timer_reconnects c w k :
  (forall n, faults n = None) ->
  timers w = S k ->
  exists c1 w1,
    step EvTimer (c, w) = Some (c1, w1) /\
    connection c1 = Some {| phase := Connecting; channel_pending := false |} /\
    channel c1 = None /\ queues c1 = ∅ /\
    consumers c1 = consumers c /\ _on_open_cbs c1 = _on_open_cbs c /\
    trace w1 = trace w ++ reconnect_actions c /\ draws w1 = draws w.
Proof.
  intros Hnf Ht.
  assert (E : step EvTimer (c, w) = Some (snd (_reconnect (c, set_timers k w)))).
  { unfold step. simpl. rewrite Ht. by destruct (connection c) as [[[] ?]|]. }
  rewrite E.
  unfold _reconnect, _connect, bind, liftW, emit, modc, getc, request, modify. simpl.
  rewrite Hnf. simpl. eexists _, _. split; [reflexivity|]. simpl.
  split_and!; try done. unfold reconnect_actions. by rewrite <- !app_assoc.
Qed.

Lemma buffered_app items1 items2 : buffered (items1 ++ items2) = buffered items1 ++ buffered items2.
Proof. unfold buffered. by rewrite fmap_app. Qed.

(** Calls of [ensure_queue] while there is no channel are put on the list. *)
Lemma buffer_calls (reqs : list (string * nat)) :
  forall c w,
    channel c = None -> queues c = ∅ ->
    exists c',
      reacts ((fun r => FromApp (CallEnsureQueue (fst r) (snd r))) <$> reqs) (c, w)
        = Some (c', w) /\
      connection c' = connection c /\ channel c' = None /\ queues c' = ∅ /\
      consumers c' = consumers c /\
      _on_open_cbs c' = _on_open_cbs c ++ buffered (user_finishes reqs).
Proof.
  induction reqs as [|[q n] reqs IH]; intros c w Hch Hq; simpl.
  - exists c. by rewrite app_nil_r.
  - unfold ensure_queue, ensure_queue_with. rewrite bind_getc. simpl.
    rewrite decide_False by (rewrite Hq; set_solver).
    unfold ready. rewrite Hch. simpl.
    destruct (IH (set_on_open_cbs (_on_open_cbs c ++ [CbEnsure q (CbUser n)]) c) w)
      as (c' & E & Hc1 & Hc2 & Hc3 & Hc4 & Hc5); [done|done|].
    exists c'. split; [exact E|]. split_and!; try done.
    rewrite Hc5. simpl. by rewrite <- app_assoc.
Qed.

(** The connection opens: [_on_open] asks for a channel. *)
Lemma connection_opens c w b :
  (forall n, faults n = None) ->
  connection c = Some {| phase := Connecting; channel_pending := b |} ->
  exists c',
    step EvOpened (c, w) = Some (c', incr_tick (log_action OpenChannel w)) /\
    connection c' = Some {| phase := Opened; channel_pending := true |} /\
    channel c' = channel c /\ queues c' = queues c /\
    consumers c' = consumers c /\ _on_open_cbs c' = _on_open_cbs c.
Proof.
  intros Hnf Hc. unfold step. simpl. rewrite Hc. rewrite phase_step.
  unfold _on_open, bind, try_except, modc, getc, liftW, request. simpl.
  rewrite Hnf. simpl. eexists. split; [reflexivity|]. done.
Qed.

(** A loop whose every turn sends something and leaves one [finish] with
    the channel. *)
Lemma declare_each {X} (f : X -> M state unit) (item : X -> string * callback)
    (shown : X -> list action) :
  (forall x c w i cbs,
     channel c = Some {| chan_id := i; declare_cbs := cbs |} -> queues c = ∅ ->
     exists w',
       f x (c, w) = (Ok tt, (set_channel (Some {| chan_id := i;
                                                  declare_cbs := cbs ++ [item x] |}) c, w')) /\
       trace w' = trace w ++ shown x /\ draws w' = draws w) ->
  forall l c w i cbs,
    channel c = Some {| chan_id := i; declare_cbs := cbs |} -> queues c = ∅ ->
    exists w',
      for_each l f (c, w)
      = (Ok tt, (set_channel (Some {| chan_id := i;
                                      declare_cbs := cbs ++ (item <$> l) |}) c, w')) /\
      trace w' = trace w ++ (l ≫= shown) /\ draws w' = draws w.
Proof.
  intros Hf. induction l as [|x l IH]; intros c w i cbs Hch Hq; simpl.
  - exists w. rewrite !app_nil_r. split_and!; try done.
    unfold ret. f_equal. f_equal. destruct c; simpl in *. by rewrite Hch.
  - destruct (Hf x c w i cbs Hch Hq) as (w1 & E1 & T1 & D1).
    erewrite bind_ok by exact E1.
    edestruct (IH (set_channel (Some {| chan_id := i; declare_cbs := cbs ++ [item x] |}) c)
                 w1 i (cbs ++ [item x])) as (w' & E & T & D); [done|done|].
    exists w'. split_and!.
    + rewrite E. simpl. by rewrite <- app_assoc.
    + rewrite T, T1. by rewrite <- app_assoc.
    + by rewrite D.
Qed.

Lemma declare_one q cb c w i cbs :
  (forall n, faults n = None) ->
  channel c = Some {| chan_id := i; declare_cbs := cbs |} -> queues c = ∅ ->
  ensure_queue q cb (c, w)
  = (Ok tt, (set_channel (Some {| chan_id := i; declare_cbs := cbs ++ [(q, cb)] |}) c,
             declared q w)).
Proof.
  intros Hnf Hch Hq.
  erewrite tornado_ensure_queue_first; [|exact Hch|rewrite Hq; set_solver|done].
  unfold push_declare_cb. by rewrite Hch.
Qed.

Lemma for_each_fmap {S X Y} (g : X -> Y) (f : Y -> M S unit) l s :
  for_each (g <$> l) f s = for_each l (fun x => f (g x)) s.
Proof.
  revert s. induction l as [|x l IH]; intros s; simpl; [done|].
  unfold bind. destruct (f (g x) s) as [[[]|e] s1]; [apply IH|done].
Qed.

Lemma bind_one {X Y} (g : X -> Y) (l : list X) :
  l ≫= (fun x => [g x]) = g <$> l.
Proof. induction l as [|x l IH]; [done|]. by rewrite bind_cons, fmap_cons, IH. Qed.

(** The channel opens: the list is run front to back, then the registry is
    replayed; every one of these calls sends its declare. *)
Lemma channel_opens (items : list (string * callback)) c w :
  (forall n, faults n = None) ->
  connection c = Some {| phase := Opened; channel_pending := true |} ->
  queues c = ∅ ->
  _on_open_cbs c = buffered items ->
  let pairs := Simple.registry_pairs (consumers c) in
  exists c' w',
    step EvChannelOpened (c, w) = Some (c', w') /\
    connection c' = Some {| phase := Opened; channel_pending := false |} /\
    channel c' = Some {| chan_id := tick w;
                         declare_cbs := items ++ consume_finishes pairs |} /\
    consumers c' = consumers c /\
    trace w' = trace w ++ declares_of items ++ replay_declares pairs
                 ++ [Log INFO "TornadoQueueClient connected"] /\
    draws w' = draws w.
Proof.
  intros Hnf Hc Hq Hcbs pairs. unfold step. simpl. rewrite Hc. rewrite phase_step.
  unfold _on_channel_open. rewrite bind_modc, bind_getc. simpl. rewrite Hcbs.
  set (c0 := set_channel (Some {| chan_id := tick w; declare_cbs := [] |})
               (set_connection (Some {| phase := Opened; channel_pending := false |}) c)).
  destruct (declare_each
              (fun it : string * callback => run_callback (CbEnsure (fst it) (snd it)))
              (fun it => (fst it, snd it))
              (fun it => [QueueDeclare (fst it)])) with (l := items) (c := c0) (w := w)
              (i := tick w) (cbs := @nil (string * callback))
    as (w1 & E1 & T1 & D1); [|done|done|].
  { intros [q cb] c1 w1 i cbs Hch1 Hq1. exists (declared q w1).
    split; [|split; [apply declared_trace|apply declared_draws]].
    apply (declare_one q cb c1 w1 i cbs Hnf Hch1 Hq1). }
  unfold buffered. rewrite <- for_each_fmap in E1.
  erewrite bind_ok by exact E1.
  destruct (declare_each
              (fun p : string * wrapped => _reconnect_consumer_callback (fst p) (snd p))
              (fun p => (fst p, CbConsume (fst p) (snd p)))
              (fun p => [Log INFO "Queue reconnecting saved consumer"; QueueDeclare (fst p)]))
              with (l := pairs)
                   (c := set_channel (Some {| chan_id := tick w;
                                              declare_cbs := [] ++ ((fun it : string * callback => (fst it, snd it)) <$> items) |}) c0)
                   (w := w1) (i := tick w)
                   (cbs := [] ++ ((fun it : string * callback => (fst it, snd it)) <$> items))
    as (w2 & E2 & T2 & D2); [|done|done|].
  { intros [q wc] c1 w3 i cbs Hch1 Hq1.
    exists (declared q (log_action (Log INFO "Queue reconnecting saved consumer") w3)).
    split; [|split].
    - unfold _reconnect_consumer_callback. rewrite bind_emit. simpl.
      apply (declare_one q (CbConsume q wc) c1 _ i cbs Hnf Hch1 Hq1).
    - rewrite declared_trace. simpl. by rewrite <- app_assoc.
    - by rewrite declared_draws. }
  erewrite bind_ok;
    [|unfold _reconnect_consumer_callbacks; rewrite bind_getc; exact E2].
  eexists _, _. split; [reflexivity|]. simpl.
  assert (Hid : (fun it : string * callback => (fst it, snd it)) <$> items = items).
  { clear. induction items as [|[q cb] l IH]; [done|]. by rewrite fmap_cons, IH. }
  split_and!; try done; try (by rewrite D2).
  - by rewrite Hid.
  - rewrite T2, T1. unfold replay_declares, declares_of. rewrite <- !app_assoc.
    by rewrite (bind_one (fun it : string * callback => QueueDeclare (fst it))).
Qed.

(** The confirmation of a declare that a call of application code waits
    for: the queue is marked and the callable is called. *)
Lemma confirm_one q cb c w i rest b :
  plain cb = true ->
  (forall n, faults n = None) ->
  connection c = Some {| phase := Opened; channel_pending := b |} ->
  channel c = Some {| chan_id := i; declare_cbs := (q, cb) :: rest |} ->
  exists w',
    step EvDeclareOk (c, w)
    = Some (set_queues ({[q]} ∪ queues c)
              (set_channel (Some {| chan_id := i; declare_cbs := rest |}) c), w') /\
    trace w' = trace w ++ shown_by cb /\ draws w' = draws w.
Proof.
  intros Hcb Hnf Hc Hch. unfold step. simpl. rewrite Hc, Hch. simpl.
  destruct cb as [q' body| |n|]; try done; simpl.
  - unfold finish, bind, modc. simpl.
    unfold do_publish, the_channel, basic_publish, bind, getc, liftW, emit, modify,
      request, ret. simpl. rewrite Hnf. simpl.
    eexists. split; [reflexivity|]. simpl.
    destruct (bqueues w !! q'); simpl; by rewrite <- ?app_assoc.
  - eexists. split; [reflexivity|]. done.
Qed.

Lemma confirm_plain (items : list (string * callback)) :
  forall c w i rest b,
    all_plain items = true ->
    (forall n, faults n = None) ->
    connection c = Some {| phase := Opened; channel_pending := b |} ->
    channel c = Some {| chan_id := i; declare_cbs := items ++ rest |} ->
    exists c' w',
      steps (replicate (length items) EvDeclareOk) (c, w) = Some (c', w') /\
      connection c' = Some {| phase := Opened; channel_pending := b |} /\
      channel c' = Some {| chan_id := i; declare_cbs := rest |} /\
      consumers c' = consumers c /\
      trace w' = trace w ++ callbacks_shown items /\
      draws w' = draws w.
Proof.
  induction items as [|[q cb] items IH]; intros c w i rest b Hp Hnf Hc Hch.
  - exists c, w. simpl. rewrite app_nil_r. done.
  - apply andb_prop in Hp as [Hcb Hp].
    destruct (confirm_one q cb c w i (items ++ rest) b Hcb Hnf Hc Hch) as (w1 & E1 & T1 & D1).
    edestruct (IH (set_queues ({[q]} ∪ queues c)
                     (set_channel (Some {| chan_id := i;
                        declare_cbs := items ++ rest |}) c)) w1 i rest b)
      as (c' & w' & E & Hc1 & Hc2 & Hc3 & T & D); [done|done|done|done|].
    exists c', w'. cbn [length replicate steps]. rewrite E1.
    split; [exact E|]. split_and!; try done.
    + rewrite T, T1. unfold callbacks_shown. rewrite bind_cons. by rewrite <- app_assoc.
    + by rewrite D.
Qed.

(** Confirmations of the declares of the replay: each sends the consume
    request of its pair, with a tag made from the next random draw. *)
Lemma confirm_consumes (pairs : list (string * wrapped)) :
  forall c w i rest b,
    (forall n, faults n = None) ->
    connection c = Some {| phase := Opened; channel_pending := b |} ->
    channel c = Some {| chan_id := i; declare_cbs := consume_finishes pairs ++ rest |} ->
    exists c' w',
      steps (replicate (length pairs) EvDeclareOk) (c, w) = Some (c', w') /\
      connection c' = Some {| phase := Opened; channel_pending := b |} /\
      channel c' = Some {| chan_id := i; declare_cbs := rest |} /\
      consumers c' = consumers c /\
      trace w' = trace w ++ consume_requests (draws w) pairs /\
      draws w' = draws w + length pairs.
Proof.
  induction pairs as [|[q wc] pairs IH]; intros c w i rest b Hnf Hc Hch.
  - exists c, w. simpl. rewrite app_nil_r. split_and!; try done; lia.
  - simpl. unfold step. simpl. rewrite Hc, Hch. simpl.
    unfold finish, do_consume, the_channel, _generate_ctag, bind, modc, getc, liftW,
      getrandbits16, basic_consume, request, ret. simpl. rewrite Hnf. simpl.
    edestruct (IH (set_queues ({[q]} ∪ queues c)
                     (set_channel (Some {| chan_id := i;
                        declare_cbs := consume_finishes pairs ++ rest |}) c))
                  (incr_tick (log_action (BasicConsume q wc (ctag_of q (draws w)))
                     (incr_draws w))) i rest b)
      as (c' & w' & E & Hc1 & Hc2 & Hc3 & T & D); [done|done|done|].
    exists c', w'. split; [exact E|]. split_and!; try done.
    + rewrite T. simpl. by rewrite <- app_assoc.
    + rewrite D. simpl. lia.
Qed.

(** The consume requests of what a reconnection shows are those of the
    replay. *)
Lemma filter_none (f : action -> bool) l :
  Forall (fun a => f a = false) l -> List.filter f l = [].
Proof. induction 1 as [|a l Ha _ IH]; simpl; [done|]. by rewrite Ha. Qed.

Lemma filter_consume_requests d pairs :
  List.filter is_consume (consume_requests d pairs) = consume_requests d pairs.
Proof. revert d. induction pairs as [|p pairs IH]; intros d; simpl; [done|]. by rewrite IH. Qed.

Lemma declares_no_consume items : Forall (fun a => is_consume a = false) (declares_of items).
Proof. apply Forall_fmap, Forall_true. done. Qed.

Lemma replay_declares_no_consume pairs :
  Forall (fun a => is_consume a = false) (replay_declares pairs).
Proof. apply Forall_bind, Forall_true. intros p. by repeat constructor. Qed.

Lemma callbacks_shown_no_consume items :
  Forall (fun a => is_consume a = false) (callbacks_shown items).
Proof.
  apply Forall_bind, Forall_true. intros [q cb]. destruct cb; by repeat constructor.
Qed.

Lemma callbacks_shown_user reqs :
  callbacks_shown (user_finishes reqs) = (fun r => CallUser (snd r)) <$> reqs.
Proof.
  unfold callbacks_shown, user_finishes.
  induction reqs as [|r reqs IH]; [done|]. rewrite !fmap_cons, bind_cons. simpl. by rewrite IH.
Qed.

Lemma declares_of_user reqs :
  declares_of (user_finishes reqs) = (fun r => QueueDeclare (fst r)) <$> reqs.
Proof. unfold declares_of, user_finishes. by rewrite <- list_fmap_compose. Qed.

Lemma simple_reconnect_no_consume :
  appends (fun a => is_consume a = false) Simple._reconnect.
Proof. unfold Simple._reconnect, Simple._connect. quiet. Qed.

Lemma simple_reconnect_consumers : keeps Simple.consumers Simple._reconnect.
Proof. unfold Simple._reconnect, Simple._connect. frame. Qed.

(** A reconnection that succeeds, seen from the trace. *)
Lemma reconnection_trace (c : TornadoQueueClient) (w : World) (k : nat)
    (items : list (string * callback)) :
  (forall n, faults n = None) ->
  timers w = S k ->
  _on_open_cbs c = buffered items ->
  all_plain items = true ->
  let pairs := Simple.registry_pairs (consumers c) in
  exists s' l,
    steps ([EvTimer; EvOpened; EvChannelOpened]
             ++ replicate (length items + length pairs) EvDeclareOk) (c, w)
    = Some s' /\
    consumers (fst s') = consumers c /\
    trace (snd s') = trace w ++ l /\
    l = reconnect_actions c ++ [OpenChannel] ++ declares_of items
          ++ replay_declares pairs ++ [Log INFO "TornadoQueueClient connected"]
          ++ callbacks_shown items ++ consume_requests (draws w) pairs /\
    List.filter is_consume l = consume_requests (draws w) pairs.
Proof.
  intros Hnf Ht Hcbs Hplain pairs.
  destruct (timer_reconnects c w k Hnf Ht)
    as (c1 & w1 & E1 & Hc1 & Hch1 & Hq1 & Hr1 & Hb1 & T1 & D1).
  destruct (connection_opens c1 w1 false Hnf Hc1)
    as (c2 & E2 & Hc2 & Hch2 & Hq2 & Hr2 & Hb2).
  destruct (channel_opens items c2 (incr_tick (log_action OpenChannel w1)) Hnf Hc2)
    as (c3 & w3 & E3 & Hc3 & Hch3 & Hr3 & T3 & D3);
    [congruence|by rewrite Hb2, Hb1|].
  rewrite Hr2, Hr1 in Hch3, T3. fold pairs in Hch3, T3.
  destruct (confirm_plain items c3 w3 _ _ false Hplain Hnf Hc3 Hch3)
    as (c4 & w4 & E4 & Hc4 & Hch4 & Hr4 & T4 & D4).
  destruct (confirm_consumes pairs c4 w4 (tick (incr_tick (log_action OpenChannel w1)))
              [] false Hnf Hc4)
    as (c5 & w5 & E5 & Hc5 & Hch5 & Hr5 & T5 & D5);
    [rewrite app_nil_r; exact Hch4|].
  exists (c5, w5). eexists. split_and!; [| | |reflexivity|].
  - cbn [app steps]. rewrite E1, E2, E3. rewrite replicate_add, steps_app, E4. exact E5.
  - simpl. congruence.
  - simpl. rewrite T5, T4, T3. simpl. rewrite T1, D4, D3. simpl. rewrite D1.
    by rewrite <- !app_assoc.
  - rewrite !List.filter_app.
    rewrite (filter_none _ (reconnect_actions c)) by (by repeat constructor).
    rewrite (filter_none _ (declares_of items)) by apply declares_no_consume.
    rewrite (filter_none _ (replay_declares pairs)) by apply replay_declares_no_consume.
    rewrite (filter_none _ (callbacks_shown items)) by apply callbacks_shown_no_consume.
    simpl. apply filter_consume_requests.
Qed.

(** C2 (as amended): in the event-driven client a reconnection that
    succeeds (the timer fires, the connection opens, the channel opens, the
    declares are confirmed) sends for each pair of the registry one declare
    and then, on its confirmation, one consume request, with a tag made from
    a new random draw; these are all the consume requests of the
    reconnection, and the registry is as before.  The on-open list may hold
    any calls that application code has made.  The registry holds each pair
    once.  In the blocking client [_reconnect] leaves the registry as it was
    too, and it sends no consume request: the blocking client does not
    replay. *)
Theorem reconnection_replays_consumers (c : TornadoQueueClient) (w : World)
    (k : nat) (items : list (string * callback)) (sc : Simple.state) :
  (forall n, faults n = None) ->
  timers w = S k ->
  _on_open_cbs c = buffered items ->
  all_plain items = true ->
  let pairs := Simple.registry_pairs (consumers c) in
  let sc' := snd (Simple._reconnect sc) in
  (exists s' l,
     steps ([EvTimer; EvOpened; EvChannelOpened]
              ++ replicate (length items + length pairs) EvDeclareOk) (c, w) = Some s' /\
     consumers (fst s') = consumers c /\
     trace (snd s') = trace w ++ l /\
     l = reconnect_actions c ++ [OpenChannel] ++ declares_of items
           ++ replay_declares pairs ++ [Log INFO "TornadoQueueClient connected"]
           ++ callbacks_shown items ++ consume_requests (draws w) pairs /\
     List.filter is_consume l = consume_requests (draws w) pairs) /\
  NoDup pairs /\
  (forall q wc, (q, wc) ∈ pairs <-> wc ∈ default ∅ (consumers c !! q)) /\
  Simple.consumers (fst sc') = Simple.consumers (fst sc) /\
  (exists l, trace (snd sc') = trace (snd sc) ++ l /\ count is_consume l = 0).
Proof.
  intros Hnf Ht Hcbs Hplain pairs sc'. split_and!.
  - by apply (reconnection_trace c w k items).
  - apply NoDup_registry_pairs.
  - intros q wc. apply elem_of_registry_pairs.
  - apply simple_reconnect_consumers.
  - destruct (simple_reconnect_no_consume sc) as (l & E & F).
    exists l. split; [done|]. by apply count_none.
Qed.

(** [register_consumer] while there is no channel: the wrapper goes into
    the registry and that is all. *)
Lemma register_consumer_unready q cons c w :
  channel c = None ->
  register_consumer q cons (c, w)
  = (Ok tt, (set_consumers
               (Simple.consumers_add q (Wrapped (next_obj w) cons) (consumers c)) c,
             incr_obj w)).
Proof.
  intros Hch. unfold register_consumer, bind, liftW, new_wrapped, getc, ready, modc.
  simpl. by rewrite Hch.
Qed.

(** C7 (as amended): in the event-driven client, calls of [ensure_queue]
    made while there is no channel send nothing and are put at the end of the
    on-open list in the order of the calls; [register_consumer] made while
    there is no channel is not put on that list, it only adds its wrapper to
    the registry.  When the channel opens, the calls on the list are run
    front to back (their declares are sent in the order of the calls), then
    the registry is replayed; the callers' callbacks run in the same order as
    the declares are confirmed. *)
Theorem buffered_calls_run_in_order (c : TornadoQueueClient) (w : World) (k : nat)
    (items : list (string * callback)) (reqs : list (string * nat))
    (q : string) (cons : consumer) :
  (forall n, faults n = None) ->
  timers w = S k ->
  _on_open_cbs c = buffered items ->
  all_plain items = true ->
  let pairs := Simple.registry_pairs (consumers c) in
  let calls := (fun r => FromApp (CallEnsureQueue (fst r) (snd r))) <$> reqs in
  exists s1 s2 s3,
    reacts (FromLoop EvTimer :: calls) (c, w) = Some s1 /\
    channel (fst s1) = None /\
    trace (snd s1) = trace w ++ reconnect_actions c /\
    _on_open_cbs (fst s1)
    = _on_open_cbs c ++ ((fun r => CbEnsure (fst r) (CbUser (snd r))) <$> reqs) /\
    (let s1' := snd (register_consumer q cons s1) in
     _on_open_cbs (fst s1') = _on_open_cbs (fst s1) /\
     trace (snd s1') = trace (snd s1) /\
     consumers (fst s1')
     = Simple.consumers_add q (Wrapped (next_obj (snd s1)) cons) (consumers (fst s1))) /\
    steps [EvOpened; EvChannelOpened] s1 = Some s2 /\
    trace (snd s2) = trace (snd s1) ++ [OpenChannel]
      ++ declares_of items ++ ((fun r => QueueDeclare (fst r)) <$> reqs)
      ++ replay_declares pairs ++ [Log INFO "TornadoQueueClient connected"] /\
    steps (replicate (length items + length reqs) EvDeclareOk) s2 = Some s3 /\
    trace (snd s3) = trace (snd s2) ++ callbacks_shown items
      ++ ((fun r => CallUser (snd r)) <$> reqs).
Proof.
  intros Hnf Ht Hcbs Hplain pairs calls.
  destruct (timer_reconnects c w k Hnf Ht)
    as (c1 & w1 & E1 & Hc1 & Hch1 & Hq1 & Hr1 & Hb1 & T1 & D1).
  destruct (buffer_calls reqs c1 w1 Hch1 Hq1)
    as (c1' & E1' & Hc1' & Hch1' & Hq1' & Hr1' & Hb1').
  rewrite Hb1, Hcbs, <- buffered_app in Hb1'.
  destruct (connection_opens c1' w1 false Hnf) as (c2 & E2 & Hc2 & Hch2 & Hq2 & Hr2 & Hb2);
    [congruence|].
  destruct (channel_opens (items ++ user_finishes reqs) c2
              (incr_tick (log_action OpenChannel w1)) Hnf Hc2)
    as (c3 & w3 & E3 & Hc3 & Hch3 & Hr3 & T3 & D3); [congruence|congruence|].
  rewrite Hr2, Hr1', Hr1 in Hch3, T3. fold pairs in Hch3, T3.
  rewrite <- app_assoc in Hch3.
  destruct (confirm_plain items c3 w3 _ _ false Hplain Hnf Hc3 Hch3)
    as (c4 & w4 & E4 & Hc4 & Hch4 & Hr4 & T4 & D4).
  assert (Hu : all_plain (user_finishes reqs) = true).
  { clear. by induction reqs as [|r reqs IH]. }
  destruct (confirm_plain (user_finishes reqs) c4 w4 _ _ false Hu Hnf Hc4 Hch4)
    as (c5 & w5 & E5 & Hc5 & Hch5 & Hr5 & T5 & D5).
  exists (c1', w1), (c3, w3), (c5, w5). split_and!; try done.
  - cbn [reacts react]. rewrite E1. exact E1'.
  - simpl. rewrite Hb1', Hcbs, buffered_app. f_equal.
    unfold buffered, user_finishes. by rewrite <- list_fmap_compose.
  - intros s1'. subst s1'. by rewrite register_consumer_unready.
  - cbn [steps]. by rewrite E2, E3.
  - simpl. rewrite T3. unfold declares_of. rewrite fmap_app. fold (declares_of items).
    fold (declares_of (user_finishes reqs)). rewrite declares_of_user.
    simpl. by rewrite <- !app_assoc.
  - rewrite replicate_add, steps_app, E4.
    unfold user_finishes in E5. rewrite length_fmap in E5. exact E5.
  - simpl. rewrite T5, T4, callbacks_shown_user. by rewrite <- app_assoc.
Qed.

End ReplayFacts.

(** C2 (as stated) fails in the blocking client: after a consumer has been
    registered, [_reconnect] returns with a new connection and channel and
    has sent no consume request. *)
Lemma blocking_reconnect_replays_nothing :
  let s1 := snd (Simple.register_consumer (H := calm) "q" (RawConsumer 0) simple_connected) in
  let r := Simple._reconnect (H := calm) s1 in
  Simple.registry_pairs (Simple.consumers (fst s1)) = [("q", Wrapped 0 (RawConsumer 0))] /\
  fst r = Ok tt /\
  trace (snd (snd r))
  = trace (snd s1) ++ [Enter_reconnect; Connect (Some 0%Z) (Some 300%Z); OpenChannel;
                       Log INFO "SimpleQueueClient connected"] /\
  count is_consume (trace (snd (snd r))) = count is_consume (trace (snd s1)).
Proof. vm_compute. done. Qed.

(** C7 (as stated) fails for [register_consumer]: called while there is no
    channel, it leaves the on-open list empty. *)
Lemma register_consumer_is_not_buffered :
  let s := snd (Tornado.register_consumer (H := calm) "q" (RawConsumer 0)
                  tornado_connecting) in
  Tornado.channel (fst tornado_connecting) = None /\
  Tornado._on_open_cbs (fst tornado_connecting) = [] /\
  Tornado._on_open_cbs (fst s) = [] /\
  Simple.registry_pairs (Tornado.consumers (fst s)) = [("q", Wrapped 0 (RawConsumer 0))].
Proof. vm_compute. done. Qed.

Lemma reconnection_replays_consumers_witness :
  let items := [("events", Tornado.CbPublish "events" [Byte.x61])] in
  let pairs := Simple.registry_pairs (Tornado.consumers (fst tornado_backlog)) in
  exists s' l,
    steps (H := calm)
      ([Tornado.EvTimer; Tornado.EvOpened; Tornado.EvChannelOpened]
         ++ replicate (length items + length pairs) Tornado.EvDeclareOk) tornado_backlog
    = Some s' /\
    Tornado.consumers (fst s') = Tornado.consumers (fst tornado_backlog) /\
    trace (snd s') = trace (snd tornado_backlog) ++ l /\
    l = reconnect_actions (fst tornado_backlog) ++ [OpenChannel] ++ declares_of items
          ++ replay_declares pairs ++ [Log INFO "TornadoQueueClient connected"]
          ++ callbacks_shown items
          ++ consume_requests (H := calm) (draws (snd tornado_backlog)) pairs /\
    List.filter is_consume l
    = consume_requests (H := calm) (draws (snd tornado_backlog)) pairs.
Proof.
  refine (proj1 (reconnection_replays_consumers (H := calm) (fst tornado_backlog)
                   (snd tornado_backlog) 0
                   [("events", Tornado.CbPublish "events" [Byte.x61])]
                   simple_connected _ _ _ _)).
  - intros n. reflexivity.
  - reflexivity.
  - reflexivity.
  - reflexivity.
Defined.

Lemma buffered_calls_run_in_order_witness :
  let items := [("events", Tornado.CbPublish "events" [Byte.x61])] in
  let reqs := [("a", 1); ("b", 2); ("c", 3)] in
  let pairs := Simple.registry_pairs (Tornado.consumers (fst tornado_backlog)) in
  let calls := (fun r => Tornado.FromApp (Tornado.CallEnsureQueue (fst r) (snd r)))
                 <$> reqs in
  exists s1 s2 s3,
    reacts (H := calm) (Tornado.FromLoop Tornado.EvTimer :: calls) tornado_backlog
    = Some s1 /\
    Tornado.channel (fst s1) = None /\
    trace (snd s1) = trace (snd tornado_backlog) ++ reconnect_actions (fst tornado_backlog) /\
    Tornado._on_open_cbs (fst s1)
    = Tornado._on_open_cbs (fst tornado_backlog)
      ++ ((fun r => Tornado.CbEnsure (fst r) (Tornado.CbUser (snd r))) <$> reqs) /\
    (let s1' := snd (Tornado.register_consumer (H := calm) "q" (RawConsumer 0) s1) in
     Tornado._on_open_cbs (fst s1') = Tornado._on_open_cbs (fst s1) /\
     trace (snd s1') = trace (snd s1) /\
     Tornado.consumers (fst s1')
     = Simple.consumers_add "q" (Wrapped (next_obj (snd s1)) (RawConsumer 0))
         (Tornado.consumers (fst s1))) /\
    steps (H := calm) [Tornado.EvOpened; Tornado.EvChannelOpened] s1 = Some s2 /\
    trace (snd s2) = trace (snd s1) ++ [OpenChannel]
      ++ declares_of items ++ ((fun r => QueueDeclare (fst r)) <$> reqs)
      ++ replay_declares pairs ++ [Log INFO "TornadoQueueClient connected"] /\
    steps (H := calm) (replicate (length items + length reqs) Tornado.EvDeclareOk) s2
    = Some s3 /\
    trace (snd s3) = trace (snd s2) ++ callbacks_shown items
      ++ ((fun r => CallUser (snd r)) <$> reqs).
Proof.
  apply (buffered_calls_run_in_order (H := calm) (fst tornado_backlog) (snd tornado_backlog) 0
           [("events", Tornado.CbPublish "events" [Byte.x61])]
           [("a", 1); ("b", 2); ("c", 3)] "q" (RawConsumer 0)).
  - intros n. reflexivity.
  - reflexivity.
  - reflexivity.
  - reflexivity.
Defined.

(** ** Registrations and the replay *)

Section RegistrationFacts.
Context `{Env}.









End RegistrationFacts.


(** The on-open list is not emptied when it has been run: a call buffered
    before the first open is run again at the next open of a channel. *)
Example on_open_list_is_kept :
  exists s,
    reacts (H := calm)
      [Tornado.FromApp (Tornado.CallEnsureQueue "q" 0);
       Tornado.FromLoop Tornado.EvOpened; Tornado.FromLoop Tornado.EvChannelOpened;
       Tornado.FromLoop Tornado.EvDeclareOk;
       Tornado.FromLoop Tornado.EvClosed; Tornado.FromLoop Tornado.EvTimer;
       Tornado.FromLoop Tornado.EvOpened; Tornado.FromLoop Tornado.EvChannelOpened;
       Tornado.FromLoop Tornado.EvDeclareOk] tornado_connecting = Some s /\
    Tornado._on_open_cbs (fst s) = [Tornado.CbEnsure "q" (Tornado.CbUser 0)] /\
    count (fun a => bool_decide (a = CallUser 0)) (trace (snd s)) = 2.
Proof. eexists. vm_compute. done. Qed.

(** * Further properties of the code *)

(** ** The client singleton and [queue_json_publish] *)

Section SingletonFacts.
Context `{Env}.
Variable conf : Queue.settings.
Import Queue.

(** [get_queue_client] keeps one client for the process: a call that
    returns has returned the global, which is set whenever RabbitMQ is in
    use; a call on a process that has its client, or without RabbitMQ,
    changes nothing; any further call returns the same object and changes
    nothing.  A call raises only when a constructor does, and then the global
    is left unset, so that the next call constructs again. *)
Theorem get_queue_client_singleton (p : process) :
  let r := get_queue_client conf p in
  match fst r with
  | Ok o =>
      o = queue_client (snd r) /\
      (USING_RABBITMQ conf = true -> is_Some o) /\
      (is_Some (queue_client p) \/ USING_RABBITMQ conf = false -> snd r = p) /\
      get_queue_client conf (snd r) = r
  | Raise e =>
      USING_RABBITMQ conf = true /\ queue_client p = None /\
      queue_client (snd r) = None
  end.
Proof.
  unfold get_queue_client, bind, get, ret. simpl.
  destruct p as [[cl|] w tr]; simpl.
  - split_and!; try done; by eexists.
  - destruct (RUNNING_INSIDE_TORNADO conf), (USING_RABBITMQ conf); simpl;
      unfold construct; simpl.
    + destruct (Tornado.__init__ w) as [[c|e] w1]; simpl; split_and!;
        first [done | by eexists | by intros [[? [=]]|[=]]].
    + split_and!; done.
    + destruct (Simple.__init__ (Some 0%Z) w) as [[c|e] w1]; simpl; split_and!;
        first [done | by eexists | by intros [[? [=]]|[=]]].
    + split_and!; done.
Qed.

(** With a broker that answers, the first call constructs the client that
    the settings ask for: inside Tornado the event-driven client, which has
    asked for a connection with heartbeats left to the broker and is still
    connecting; outside Tornado the blocking client, connected with
    heartbeats disabled and a TCP keepalive of 300 seconds, with a channel;
    without RabbitMQ nothing is constructed, inside Tornado or not. *)
Theorem get_queue_client_selects (p : process) :
  (forall n, faults n = None) ->
  queue_client p = None ->
  let r := get_queue_client conf p in
  if USING_RABBITMQ conf then
    if RUNNING_INSIDE_TORNADO conf then
      exists c,
        fst r = Ok (Some (TornadoClient c)) /\
        Tornado.connection c
        = Some {| Tornado.phase := Tornado.Connecting; Tornado.channel_pending := false |} /\
        Tornado.channel c = None /\ Tornado.queues c = ∅ /\
        Tornado.consumers c = ∅ /\ Tornado._on_open_cbs c = [] /\
        Tornado._connection_failure_count c = 0%Z /\
        trace (world (snd r))
        = trace (world p) ++ [Log INFO "Beginning TornadoQueueClient connection";
                              Connect None None]
    else
      exists c,
        fst r = Ok (Some (SimpleClient c)) /\
        (c, world (snd r)) = connected (simple_unconnected (Some 0%Z)) (world p) /\
        trace (world (snd r))
        = trace (world p) ++ [Connect (Some 0%Z) (Some 300%Z); OpenChannel;
                              Log INFO "SimpleQueueClient connected"]
  else r = (Ok None, p).
Proof.
  intros Hnf Hp. destruct p as [cl w tr]. simpl in Hp. subst cl.
  unfold get_queue_client, bind, get, ret. simpl.
  destruct (USING_RABBITMQ conf), (RUNNING_INSIDE_TORNADO conf); simpl; try done.
  - unfold construct, Tornado.__init__, Tornado._connect, bind, liftW, emit, modify,
      getc, modc, request. simpl. rewrite Hnf. simpl.
    eexists. split_and!; try done. by rewrite <- app_assoc.
  - unfold construct, Simple.__init__.
    rewrite (connect_ok _ _ Hnf). simpl.
    eexists. split_and!; try done. simpl. by rewrite <- !app_assoc.
Qed.

(** [queue_json_publish] with RabbitMQ in use hands the event to the client
    and calls no application code, whatever [processor] is; without RabbitMQ
    it leaves the broker and the client alone, and calls the processor once
    with the event when there is one (the exception of the processor is the
    caller's), the worker of the queue when there is none. *)
Theorem queue_json_publish_dispatch (q : string) (ev : gmap string pyval)
    (f : option processor) (p : process) :
  let r := queue_json_publish conf q ev f p in
  if USING_RABBITMQ conf then
    r = client_json_publish conf q ev p /\ app_trace (snd r) = app_trace p
  else
    world (snd r) = world p /\ queue_client (snd r) = queue_client p /\
    match f with
    | Some (UserProcessor n) =>
        app_trace (snd r) = app_trace p ++ [CallProcessor n ev] /\
        fst r = match handler_outcome n ev with Some e => Raise e | None => Ok tt end
    | Some LambdaNone => r = (Ok tt, p)
    | None => r = (Ok tt, log_app (WorkerConsume q ev) p)
    end.
Proof.
  unfold queue_json_publish. destruct (USING_RABBITMQ conf); simpl.
  - split; [done|]. apply client_json_publish_app_trace.
  - destruct f as [[|n]|]; simpl; try done.
    unfold call_app, bind, modify. simpl.
    by destruct (handler_outcome n ev).
Qed.

End SingletonFacts.

Lemma get_queue_client_selects_witness :
  exists c,
    fst (Queue.get_queue_client (H := calm) with_rabbitmq fresh_process)
    = Ok (Some (Queue.SimpleClient c)) /\
    (c, Queue.world (snd (Queue.get_queue_client (H := calm) with_rabbitmq fresh_process)))
    = connected (H := calm) (simple_unconnected (Some 0%Z)) (Queue.world fresh_process) /\
    trace (Queue.world (snd (Queue.get_queue_client (H := calm) with_rabbitmq fresh_process)))
    = trace (Queue.world fresh_process)
      ++ [Connect (Some 0%Z) (Some 300%Z); OpenChannel;
          Log INFO "SimpleQueueClient connected"].
Proof.
  apply (get_queue_client_selects (H := calm) with_rabbitmq fresh_process).
  - intros n. reflexivity.
  - reflexivity.
Defined.

(** ** More on [retry_event] *)

Section RetryMoreFacts.
Context `{Env}.
Variable conf : Queue.settings.
Import Queue.

(** The counter of [retry_event] has to be a number: on an event whose
    [failed_tries] is [None] or a string, [retry_event] raises [TypeError]
    from the increment, with the event and the process as they were (nothing
    is sent, no handler is called); a [bool] counts as the integer 0 or 1. *)
Theorem retry_event_counter_must_be_a_number (q : string) (fp : nat)
    (ev : gmap string pyval) (p : process) (v : pyval) :
  ev !! "failed_tries" = Some v ->
  match v with
  | PNone | PStr _ => retry_event conf q fp (ev, p) = (Raise TypeError, (ev, p))
  | PBool b =>
      retry_event conf q fp (ev, p)
      = retry_event conf q fp (<["failed_tries" := PInt (Z.b2z b)]> ev, p)
  | PInt _ => True
  end.
Proof.
  intros Hv. destruct v as [|b|z|s]; [| |done|].
  - unfold retry_event, bind, the_event, get_item, set_item, ret, the_event, bind.
    simpl. rewrite decide_False by congruence. simpl. by rewrite Hv.
  - rewrite (retry_event_eq conf q fp (<["failed_tries" := PInt (Z.b2z b)]> ev) p (Z.b2z b))
      by (right; apply lookup_insert_eq).
    rewrite insert_insert_eq.
    unfold retry_event, bind, the_event, get_item, set_item, ret, the_event, bind.
    simpl. rewrite decide_False by congruence. simpl. rewrite Hv. simpl.
    rewrite lookup_insert_eq. simpl.
    by destruct (MAX_REQUEST_RETRIES <? Z.b2z b + 1)%Z.
  - unfold retry_event, bind, the_event, get_item, set_item, ret, the_event, bind.
    simpl. rewrite decide_False by congruence. simpl. by rewrite Hv.
Qed.

Lemma retry_event_requeues (q : string) (fp : nat) (ev : gmap string pyval)
    (p : process) (n : Z) :
  USING_RABBITMQ conf = false ->
  (ev !! "failed_tries" = None /\ n = 0%Z) \/ ev !! "failed_tries" = Some (PInt n) ->
  (n + 1 <= MAX_REQUEST_RETRIES)%Z ->
  retry_event conf q fp (ev, p) = (Ok tt, (<["failed_tries" := PInt (n + 1)]> ev, p)).
Proof.
  intros Hr Hc Hn. rewrite (retry_event_eq conf q fp ev p n Hc).
  destruct (MAX_REQUEST_RETRIES <? n + 1)%Z eqn:E; [apply Z.ltb_lt in E; lia|].
  unfold on_process, queue_json_publish. rewrite Hr. done.
Qed.

(** Without RabbitMQ, an event that keeps failing is taken back three
    times and given up at the fourth failure: the first three calls of
    [retry_event] on a new event return with the counter at 1, 2, 3 and the
    process as it was; the fourth sets the counter to 4 and calls the failure
    handler, once, with the event. *)
Theorem retry_event_gives_up_at_the_fourth (q : string) (fp : nat)
    (ev : gmap string pyval) (p : process) :
  USING_RABBITMQ conf = false ->
  ev !! "failed_tries" = None ->
  let counted (k : Z) := <["failed_tries" := PInt k]> ev in
  retry_times conf q fp 1 (ev, p) = (Ok tt, (counted 1%Z, p)) /\
  retry_times conf q fp 2 (ev, p) = (Ok tt, (counted 2%Z, p)) /\
  retry_times conf q fp 3 (ev, p) = (Ok tt, (counted 3%Z, p)) /\
  retry_times conf q fp 4 (ev, p)
  = (match handler_outcome fp (counted 4%Z) with Some e => Raise e | None => Ok tt end,
     (counted 4%Z, log_app (CallFailureProcessor fp (counted 4%Z)) p)).
Proof.
  intros Hr Hev counted.
  assert (E1 : retry_event conf q fp (ev, p) = (Ok tt, (counted 1%Z, p))).
  { by rewrite (retry_event_requeues q fp ev p 0%Z) by (first [done | by left]). }
  assert (En : forall n : Z, (1 <= n)%Z -> (n + 1 <= MAX_REQUEST_RETRIES)%Z ->
             retry_event conf q fp (counted n, p) = (Ok tt, (counted (n + 1)%Z, p))).
  { intros n H1 H2. subst counted. simpl.
    rewrite (retry_event_requeues q fp _ p n);
      [by rewrite insert_insert_eq|done|right; apply lookup_insert_eq|done]. }
  assert (E4 : retry_event conf q fp (counted 3%Z, p)
               = (match handler_outcome fp (counted 4%Z) with
                  | Some e => Raise e | None => Ok tt end,
                  (counted 4%Z, log_app (CallFailureProcessor fp (counted 4%Z)) p))).
  { subst counted. simpl.
    rewrite (retry_event_eq conf q fp _ p 3%Z) by (right; apply lookup_insert_eq).
    simpl. rewrite insert_insert_eq. unfold on_process, call_app, bind, modify. simpl.
    by destruct (handler_outcome fp _). }
  pose proof (En 1%Z ltac:(done) ltac:(done)) as E2.
  pose proof (En 2%Z ltac:(done) ltac:(done)) as E3.
  simpl in E2, E3.
  split_and!; cbn [retry_times].
  - erewrite bind_ok by exact E1. done.
  - erewrite bind_ok by exact E1. erewrite bind_ok by exact E2. done.
  - erewrite bind_ok by exact E1. erewrite bind_ok by exact E2.
    erewrite bind_ok by exact E3. done.
  - erewrite bind_ok by exact E1. erewrite bind_ok by exact E2.
    erewrite bind_ok by exact E3.
    etrans; [|exact E4]. unfold bind. change (2 + 1)%Z with 3%Z.
    by destruct (retry_event conf q fp (counted 3%Z, p)) as [[[]|e] s'].
Qed.

End RetryMoreFacts.

(** ** More on the blocking client *)

Section OnceOnReturn.
Context `{Env} {C : Type} (f : action -> bool).



End OnceOnReturn.

Section SimpleMoreFacts.
Context `{Env}.
Import Simple.




(** [json_publish] reconnects after a connection error only: when its
    first [publish] returns, or raises an error of another kind,
    [json_publish] ends as that [publish] did, in the same state; it has
    entered [publish] once and [_reconnect] not at all. *)
Theorem json_publish_without_connection_error (q : string) (body : gmap string pyval)
    (s : state) :
  let r0 := publish q (ujson_dumps body) s in
  match fst r0 with Ok _ => True | Raise e => is_AMQPConnectionError e = false end ->
  json_publish q body s = r0 /\
  exists l, trace (snd (snd (json_publish q body s)))
            = trace (snd s) ++ Enter_publish q (ujson_dumps body) :: l /\
            count is_reconnect l = 0 /\ count is_publish_entry l = 0.
Proof.
  intros r0 Hr0.
  assert (E : json_publish q body s = r0).
  { subst r0. unfold json_publish, try_except, bind.
    destruct (publish q (ujson_dumps body) s) as [[[]|e] s1]; simpl in *; [done|].
    by rewrite Hr0. }
  split; [done|]. rewrite E. subst r0.
  destruct (publish_trace q (ujson_dumps body) s) as (l & El & Fl).
  exists l. split; [done|]. split; [by apply quiet_no_reconnect|by apply quiet_no_publish_entry].
Qed.

(** [ensure_queue] on a client whose connection object is gone, or reports
    itself closed, first connects: a new connection and a new channel.  It
    keeps the set of declared queues as it is (where [_reconnect] empties
    it), so that a queue marked before is not declared on the new channel;
    an unmarked queue is declared there.  Then it calls the callback. *)
Theorem ensure_queue_connects_when_closed {A} (q : string) (cb : M state A)
    (c : SimpleQueueClient) (w : World) :
  (forall n, faults n = None) ->
  connection c = None \/ is_open_at (tick w) = false ->
  let s1 := connected c w in
  queues (fst s1) = queues c /\
  trace (snd s1) = trace w ++ [Connect (fst (_get_parameters c)) (snd (_get_parameters c));
                               OpenChannel; Log INFO "SimpleQueueClient connected"] /\
  ensure_queue q cb (c, w)
  = if decide (q ∈ queues c) then cb s1
    else cb (set_queues ({[q]} ∪ queues c) (fst s1), declared q (snd s1)).
Proof.
  intros Hnf Hclosed s1. split; [done|]. split.
  { subst s1. unfold connected. simpl. by rewrite <- !app_assoc. }
  assert (E : connect_unless_open (c, w) = (Ok tt, s1)).
  { unfold connect_unless_open. rewrite bind_getc. simpl.
    destruct (connection c) as [conn|] eqn:Ec.
    - destruct Hclosed as [|Ho]; [done|].
      unfold bind at 1, liftW at 1, is_open. simpl. rewrite Ho. by apply connect_ok.
    - by apply connect_ok. }
  unfold ensure_queue. erewrite bind_ok by exact E. rewrite bind_getc.
  change (queues (fst s1)) with (queues c).
  destruct (decide (q ∈ queues c)) as [Hin|Hnin].
  - by erewrite bind_ok by reflexivity.
  - erewrite bind_ok; [reflexivity|].
    unfold the_channel, bind, getc, liftW, modc, ret. simpl.
    rewrite queue_declare_ok by done. reflexivity.
Qed.

(** [register_consumer] on a live client subscribes at once: it declares
    the queue when it is not marked, and sends one consume request for the
    new wrapper, with a tag made from a new random draw. *)
Theorem register_consumer_subscribes (q : string) (cons : consumer)
    (c : SimpleQueueClient) (w : World) :
  (forall n, faults n = None) ->
  live c w ->
  let ws := Wrapped (next_obj w) cons in
  exists c' w',
    register_consumer q cons (c, w) = (Ok tt, (c', w')) /\
    q ∈ queues c' /\
    trace w' = trace w ++ (if decide (q ∈ queues c) then [] else [QueueDeclare q])
                 ++ [BasicConsume q ws (ctag_of q (draws w))].
Proof.
  intros Hnf (Hconn & Hch & Ho) ws. destruct Hconn as [conn Hconn]. destruct Hch as [ch Hch].
  unfold register_consumer, ensure_queue, connect_unless_open, do_consume, the_channel,
    _generate_ctag, basic_consume, queue_declare, getrandbits16, new_wrapped, is_open,
    bind, liftW, getc, modc, request, modify, ret.
  simpl. rewrite Hconn. simpl. rewrite Ho. simpl.
  destruct (decide (q ∈ queues c)) as [Hin|Hnin]; simpl; rewrite Hch; simpl.
  - rewrite Hnf. simpl. eexists _, _. split; [reflexivity|]. simpl. split; [done|].
    reflexivity.
  - rewrite Hnf. simpl. rewrite Hch. simpl. rewrite Hnf. simpl.
    eexists _, _. split; [reflexivity|]. simpl.
    split; [by apply elem_of_union_l, elem_of_singleton|].
    case_match; simpl; by rewrite <- app_assoc.
Qed.

(** Facts about sets of queue names. *)
Lemma union_empty_names (Q : gset string) : Q = Q ∪ ∅.
Proof. set_unfold. intros x. tauto. Qed.

Lemma union_marked_name (q : string) (Q S : gset string) :
  q ∈ Q -> Q ∪ S = Q ∪ ({[q]} ∪ S).
Proof. set_unfold. intros Hq x. intuition (subst; tauto). Qed.

Lemma difference_marked_name (q : string) (Q S : gset string) :
  q ∈ Q -> S ∖ Q = ({[q]} ∪ S) ∖ Q.
Proof. set_unfold. intros Hq x. intuition (subst; tauto). Qed.

Lemma union_new_name (q : string) (Q S : gset string) :
  ({[q]} ∪ Q) ∪ S = Q ∪ ({[q]} ∪ S).
Proof. set_unfold. intros x. tauto. Qed.

Lemma size_new_name (q : string) (Q S : gset string) :
  q ∉ Q -> size (({[q]} ∪ S) ∖ Q) = Datatypes.S (size (S ∖ ({[q]} ∪ Q))).
Proof.
  intros Hq.
  replace (({[q]} ∪ S) ∖ Q) with ({[q]} ∪ (S ∖ ({[q]} ∪ Q))).
  - rewrite size_union; [by rewrite size_singleton|].
    set_unfold. intros x. intuition (subst; tauto).
  - set_unfold. intros x. destruct (decide (x = q)); intuition (subst; tauto).
Qed.

Lemma size_no_names (Q : gset string) : size ((∅ : gset string) ∖ Q) = 0.
Proof.
  replace (∅ ∖ Q) with (∅ : gset string); [apply size_empty|].
  set_unfold. intros x. tauto.
Qed.

(** One turn of the replay loop on a live client. *)
Lemma replay_one q wc c w :
  (forall n, faults n = None) -> (forall n, is_open_at n = true) ->
  is_Some (connection c) -> is_Some (channel c) ->
  _reconnect_consumer_callback q wc (c, w)
  = (Ok tt,
     (if decide (q ∈ queues c) then c else set_queues ({[q]} ∪ queues c) c,
      incr_tick (log_action (BasicConsume q wc (ctag_of q (draws w)))
        (incr_draws
           (if decide (q ∈ queues c)
            then log_action (Log INFO "Queue reconnecting saved consumer") w
            else declared q (log_action (Log INFO "Queue reconnecting saved consumer") w)))))).
Proof.
  intros Hnf Ho Hconn Hch.
  unfold _reconnect_consumer_callback. rewrite bind_emit. simpl.
  set (w0 := log_action (Log INFO "Queue reconnecting saved consumer") w).
  assert (Hlive : live c w0) by (split_and!; [done|done|apply Ho]).
  assert (Hc : forall c1 w1, channel c1 = channel c ->
             do_consume q wc (c1, w1)
             = (Ok tt, (c1, incr_tick (log_action (BasicConsume q wc (ctag_of q (draws w1)))
                               (incr_draws w1))))).
  { intros c1 w1 E1. destruct Hch as [ch Hch].
    unfold do_consume, the_channel, _generate_ctag, basic_consume, getrandbits16,
      bind, liftW, getc, request, ret. simpl. rewrite E1, Hch. simpl. by rewrite Hnf. }
  destruct (decide (q ∈ queues c)) as [Hin|Hnin].
  - rewrite simple_ensure_queue_cached by done.
    erewrite bind_ok by (by apply simple_connect_unless_open_live).
    by rewrite Hc.
  - rewrite simple_ensure_queue_first by done.
    rewrite Hc by done. by rewrite declared_draws.
Qed.

Lemma replay_loop (ps : list (string * wrapped)) :
  forall c w,
    (forall n, faults n = None) -> (forall n, is_open_at n = true) ->
    is_Some (connection c) -> is_Some (channel c) ->
    exists c' w' l,
      for_each ps (fun p => _reconnect_consumer_callback (fst p) (snd p)) (c, w)
      = (Ok tt, (c', w')) /\
      consumers c' = consumers c /\
      queues c' = queues c ∪ queue_names ps /\
      trace w' = trace w ++ l /\
      List.filter is_consume l = consume_requests (draws w) ps /\
      count is_declare l = size (queue_names ps ∖ queues c).
Proof.
  induction ps as [|[q wc] ps IH]; intros c w Hnf Ho Hconn Hch.
  - exists c, w, []. simpl. rewrite app_nil_r. split_and!; try done.
    + apply union_empty_names.
    + symmetry. apply size_no_names.
  - cbn [for_each]. erewrite bind_ok by (by apply replay_one). cbn [fst snd].
    destruct (decide (q ∈ queues c)) as [Hin|Hnin].
    + destruct (IH c (incr_tick (log_action (BasicConsume q wc (ctag_of q (draws w)))
                  (incr_draws (log_action (Log INFO "Queue reconnecting saved consumer") w)))))
        as (c' & w' & l & E & Hr & Hq & Ht & Hf & Hd); [done..|].
      exists c', w', (Log INFO "Queue reconnecting saved consumer"
                      :: BasicConsume q wc (ctag_of q (draws w)) :: l).
      split; [exact E|]. split_and!; try done.
      * rewrite Hq. by apply union_marked_name.
      * rewrite Ht. simpl. by rewrite <- !app_assoc.
      * simpl. by rewrite Hf.
      * rewrite !count_cons. simpl. rewrite Hd. f_equal.
        by apply difference_marked_name.
    + destruct (IH (set_queues ({[q]} ∪ queues c) c)
                  (incr_tick (log_action (BasicConsume q wc (ctag_of q (draws w)))
                     (incr_draws (declared q
                        (log_action (Log INFO "Queue reconnecting saved consumer") w))))))
        as (c' & w' & l & E & Hr & Hq & Ht & Hf & Hd); [done..|].
      exists c', w', (Log INFO "Queue reconnecting saved consumer" :: QueueDeclare q
                      :: BasicConsume q wc (ctag_of q (draws w)) :: l).
      split; [exact E|]. split_and!; try done.
      * rewrite Hq. apply union_new_name.
      * rewrite Ht. simpl. rewrite declared_trace. simpl. by rewrite <- !app_assoc.
      * simpl. rewrite Hf. simpl. by rewrite declared_draws.
      * rewrite !count_cons. simpl. rewrite Hd. simpl. symmetry. by apply size_new_name.
Qed.

(** The replay as the blocking client has it, which no method of the
    blocking client calls: run on a live client it subscribes every pair of
    the registry again, with one consume request each and tags made from new
    random draws, and declares each queue of the registry that is not marked,
    once. *)
Theorem blocking_replay_when_called (c : SimpleQueueClient) (w : World) :
  (forall n, faults n = None) -> (forall n, is_open_at n = true) ->
  is_Some (connection c) -> is_Some (channel c) ->
  let pairs := registry_pairs (consumers c) in
  exists c' w' l,
    _reconnect_consumer_callbacks (c, w) = (Ok tt, (c', w')) /\
    consumers c' = consumers c /\
    queues c' = queues c ∪ queue_names pairs /\
    trace w' = trace w ++ l /\
    List.filter is_consume l = consume_requests (draws w) pairs /\
    count is_declare l = size (queue_names pairs ∖ queues c).
Proof.
  intros Hnf Ho Hconn Hch pairs.
  unfold _reconnect_consumer_callbacks. rewrite bind_getc. simpl.
  by apply replay_loop.
Qed.

(** The drain loop when the broker fails the [basic_get] that follows [k]
    deliveries. *)
Lemma opened_fails q e (k : nat) :
  forall msgs fuel acc c w,
    is_Some (channel c) ->
    bqueues w !! q = Some msgs ->
    k <= length msgs -> k < fuel ->
    (forall n, n < tick w + 2 * k -> faults n = None) ->
    faults (tick w + 2 * k) = Some e ->
    exists w',
      opened fuel q acc (c, w) = (Raise e, (c, w')) /\
      bqueues w' !! q = Some (drop k msgs) /\
      (forall t, unacked w' !! t =
         if bool_decide (next_tag w <= t < next_tag w + k)
         then None else unacked w !! t) /\
      trace w' = trace w ++ (seq (next_tag w) k ≫= fun t => [BasicGet q; BasicAck t])
                   ++ [BasicGet q].
Proof.
  induction k as [|k IH]; intros msgs fuel acc c w [ch Hch] Hq Hk Hfuel Hnf He.
  - destruct fuel as [|fuel]; [lia|].
    exists (incr_tick (log_action (BasicGet q) w)). simpl.
    unfold the_channel, bind, getc, liftW, basic_get, bind, request, ret. simpl.
    rewrite Hch. simpl. replace (tick w + 2 * 0) with (tick w) in He by lia.
    rewrite He. simpl. split_and!; try done.
    intros t. by rewrite bool_decide_false by lia.
  - destruct fuel as [|fuel]; [lia|]. destruct msgs as [|m msgs]; [simpl in Hk; lia|].
    set (w2 := set_store (<[q := msgs]> (bqueues w))
                 (delete (next_tag w) (<[next_tag w := (q, m)]> (unacked w)))
                 (S (next_tag w))
                 (incr_tick (log_action (BasicAck (next_tag w))
                    (incr_tick (log_action (BasicGet q) w))))).
    destruct (IH msgs fuel (acc ++ [m]) c w2 (ex_intro _ ch Hch))
      as (w' & E & Hq' & Hu & Ht).
    { subst w2. simpl. apply lookup_insert_eq. }
    { simpl in Hk. lia. }
    { lia. }
    { subst w2. simpl. intros n Hn. apply Hnf. lia. }
    { subst w2. simpl. rewrite <- He. f_equal. lia. }
    exists w'. split_and!.
    + rewrite <- E. simpl.
      unfold the_channel, bind, getc, liftW, basic_get, basic_ack, bind, request,
        ret, modify.
      simpl. rewrite Hch. simpl. rewrite (Hnf (tick w)) by lia. simpl. rewrite Hq. simpl.
      rewrite ?Hch. simpl. rewrite (Hnf (S (tick w))) by lia. simpl. subst w2. simpl.
      reflexivity.
    + done.
    + intros t. rewrite Hu. subst w2. simpl.
      destruct (decide (t = next_tag w)) as [->|Hne].
      * rewrite lookup_delete_eq. repeat case_bool_decide; try lia; done.
      * rewrite lookup_delete_ne, lookup_insert_ne by done.
        repeat case_bool_decide; try lia; done.
    + rewrite Ht. subst w2. simpl. rewrite <- !app_assoc. reflexivity.
Qed.

(** When the broker fails a [basic_get] of [drain_queue] after [k]
    messages have been delivered, [drain_queue] raises that error and returns
    no message; the [k] messages have been acknowledged, so they are no
    longer on the broker, neither in the queue nor awaiting a settlement. *)
Theorem drain_queue_failure_drops_fetched (q : string) (e : exn) (k fuel : nat)
    (msgs : list bytes) (c : SimpleQueueClient) (w : World) :
  live c w ->
  q ∈ queues c ->
  bqueues w !! q = Some msgs ->
  k <= length msgs -> k < fuel ->
  (forall n, n < tick w + 2 * k -> faults n = None) ->
  faults (tick w + 2 * k) = Some e ->
  exists w',
    drain_queue fuel q (c, w) = (Raise e, (c, w')) /\
    bqueues w' !! q = Some (drop k msgs) /\
    (forall t, next_tag w <= t < next_tag w + k -> unacked w' !! t = None) /\
    trace w' = trace w ++ (seq (next_tag w) k ≫= fun t => [BasicGet q; BasicAck t])
                 ++ [BasicGet q].
Proof.
  intros Hlive Hin Hq Hk Hfuel Hnf He.
  destruct (opened_fails q e k msgs fuel [] c w) as (w' & E & Hq' & Hu & Ht); try done.
  { by destruct Hlive as (_ & ? & _). }
  exists w'. split_and!; try done.
  - unfold drain_queue. rewrite simple_ensure_queue_cached by done.
    erewrite bind_ok by (by apply simple_connect_unless_open_live). exact E.
  - intros t Hr. rewrite Hu. by rewrite bool_decide_true.
Qed.

(** A [_reconnect] in which the connection is made and the channel is
    refused raises and leaves the client with a connection object and no
    channel.  While that connection reports itself open, [ensure_queue] does
    not connect again, and so every [json_publish] raises [AttributeError] at
    the channel that is not there, without a retry ([AttributeError] is not a
    connection error) and without a request to the broker. *)
Theorem reconnect_without_channel_is_not_repaired (c : SimpleQueueClient) (w : World)
    (e : exn) :
  faults (tick w) = None ->
  faults (S (tick w)) = Some e ->
  let r := _reconnect (c, w) in
  let c1 := fst (snd r) in
  fst r = Raise e /\
  connection c1 = Some (tick w) /\ channel c1 = None /\ queues c1 = ∅ /\
  forall (w2 : World) (q : string) (body : gmap string pyval),
    is_open_at (tick w2) = true ->
    json_publish q body (c1, w2)
    = (Raise AttributeError, (c1, log_action (Enter_publish q (ujson_dumps body)) w2)).
Proof.
  intros Hok He r c1.
  assert (E : r = (Raise e,
                   (set_connection (Some (tick w))
                      (set_queues ∅ (set_channel None (set_connection None c))),
                    incr_tick (log_action OpenChannel
                      (incr_tick (log_action
                         (Connect (fst (_get_parameters c)) (snd (_get_parameters c)))
                         (log_action Enter_reconnect w))))))).
  { subst r. unfold _reconnect, _connect, connect, open_channel, bind, getc, liftW, modc,
      request, emit, modify, ret. simpl. rewrite Hok. simpl. by rewrite He. }
  subst c1. rewrite E. simpl. split_and!; try done.
  intros w2 q body Ho.
  set (c1 := set_connection (Some (tick w))
               (set_queues ∅ (set_channel None (set_connection None c)))).
  assert (Ep : publish q (ujson_dumps body) (c1, w2)
               = (Raise AttributeError,
                  (c1, log_action (Enter_publish q (ujson_dumps body)) w2))).
  { unfold publish. rewrite bind_emit. simpl. unfold ensure_queue.
    erewrite bind_ok.
    2:{ unfold connect_unless_open. rewrite bind_getc. simpl.
        unfold bind, liftW, is_open. simpl. by rewrite Ho. }
    rewrite bind_getc. simpl. rewrite decide_False by apply not_elem_of_empty.
    unfold the_channel, bind, getc. done. }
  unfold json_publish, try_except. unfold bind at 1.
  erewrite bind_raise by exact Ep. done.
Qed.

Lemma decode_all_each {X} (loads : bytes -> result X) msgs l :
  SimpleJson.decode_all loads msgs = Ok l -> Forall2 (fun m x => loads m = Ok x) msgs l.
Proof.
  revert l. induction msgs as [|m msgs IH]; intros l; simpl.
  - intros [= <-]. constructor.
  - destruct (loads m) as [x|e] eqn:Em; [|done].
    destruct (SimpleJson.decode_all loads msgs) as [xs|e]; [|done].
    intros [= <-]. constructor; [done|]. by apply IH.
Qed.

(** [json_drain_queue] decodes after it has drained: with a broker that
    answers, on a queue that holds [msgs], it returns the decoded bodies in
    the order of delivery when every body decodes, and raises the decoder's
    exception when one does not; in both cases every message has been taken
    off the queue and acknowledged, so that a body that does not decode costs
    the whole batch. *)
Theorem json_drain_queue_decodes_after_draining {X} (loads : bytes -> result X)
    (q : string) (c : SimpleQueueClient) (w : World) (fuel : nat) :
  let msgs := default [] (bqueues w !! q) in
  (forall n, faults n = None) ->
  connection c = None \/ is_Some (channel c) ->
  (q ∈ queues c -> is_Some (bqueues w !! q)) ->
  length msgs < fuel ->
  exists c' w',
    SimpleJson.json_drain_queue loads fuel q (c, w)
    = (match SimpleJson.decode_all loads msgs with
       | Ok l => Ok (Some l)
       | Raise e => Raise e
       end, (c', w')) /\
    (forall l, SimpleJson.decode_all loads msgs = Ok l ->
               Forall2 (fun m x => loads m = Ok x) msgs l) /\
    bqueues w' !! q = Some [] /\
    (forall t, next_tag w <= t < next_tag w + length msgs -> unacked w' !! t = None).
Proof.
  intros msgs Hnf Hconn Hdecl Hfuel.
  destruct (ensure_queue_prefix q c w Hnf Hconn Hdecl)
    as (c1 & w1 & pre & Hk & Hch & Hq & Ht & Hp & Hu & Hn).
  destruct (opened_drains q msgs fuel [] c1 w1 Hnf Hch Hq Hfuel)
    as (w' & E & Hq' & Ht' & Hu').
  exists c1, w'. split_and!.
  - unfold SimpleJson.json_drain_queue.
    erewrite bind_ok by (unfold drain_queue; rewrite Hk; exact E). simpl.
    by destruct (SimpleJson.decode_all loads msgs).
  - apply decode_all_each.
  - done.
  - intros t Hr. rewrite Hu', Hn. by rewrite bool_decide_true.
Qed.

(** [publish] on a live client, with a broker that answers. *)
Lemma publish_live q b c w :
  (forall n, faults n = None) ->
  live c w ->
  (q ∈ queues c -> is_Some (bqueues w !! q)) ->
  exists c' w',
    publish q b (c, w) = (Ok tt, (c', w')) /\
    connection c' = connection c /\ channel c' = channel c /\ q ∈ queues c' /\
    bqueues w' !! q = Some (default [] (bqueues w !! q) ++ [b]).
Proof.
  intros Hnf Hlive Hdecl. pose proof Hlive as (_ & [ch Hch] & _).
  unfold publish. rewrite bind_emit. simpl.
  set (w0 := log_action (Enter_publish q b) w).
  assert (Hlive0 : live c w0) by done.
  assert (Hp : forall c1 w1 l, channel c1 = channel c -> bqueues w1 !! q = Some l ->
             exists w', do_publish q b (c1, w1) = (Ok tt, (c1, w')) /\
                        bqueues w' !! q = Some (l ++ [b])).
  { intros c1 w1 l E1 El.
    unfold do_publish, the_channel, basic_publish, bind, getc, liftW, request, emit,
      modify, ret. simpl. rewrite E1, Hch. simpl. rewrite Hnf. simpl.
    rewrite El. eexists. split; [reflexivity|]. simpl. apply lookup_insert_eq. }
  destruct (decide (q ∈ queues c)) as [Hin|Hnin].
  - rewrite simple_ensure_queue_cached by done.
    erewrite bind_ok by (by apply simple_connect_unless_open_live).
    destruct (Hdecl Hin) as [l Hl].
    destruct (Hp c w0 l eq_refl Hl) as (w' & E & Hq).
    exists c, w'. rewrite E. split_and!; try done. by rewrite Hl.
  - rewrite simple_ensure_queue_first by done.
    assert (Hl : bqueues (declared q w0) !! q = Some (default [] (bqueues w !! q))).
    { unfold declared, queue_declare, bind, request, modify. simpl. rewrite Hnf. simpl.
      destruct (bqueues w !! q) as [l|] eqn:El; simpl; [done|]. apply lookup_insert_eq. }
    destruct (Hp (set_queues ({[q]} ∪ queues c) c) (declared q w0) _ eq_refl Hl)
      as (w' & E & Hq).
    eexists _, w'. rewrite E. split_and!; try done.
    simpl. by apply elem_of_union_l, elem_of_singleton.
Qed.

Lemma publish_all_live q (bs : list bytes) :
  forall c w,
    (forall n, faults n = None) -> (forall n, is_open_at n = true) ->
    is_Some (connection c) -> is_Some (channel c) ->
    (q ∈ queues c -> is_Some (bqueues w !! q)) ->
    exists c' w',
      for_each bs (publish q) (c, w) = (Ok tt, (c', w')) /\
      is_Some (connection c') /\ is_Some (channel c') /\
      (q ∈ queues c' -> is_Some (bqueues w' !! q)) /\
      default [] (bqueues w' !! q) = default [] (bqueues w !! q) ++ bs.
Proof.
  induction bs as [|b bs IH]; intros c w Hnf Ho Hconn Hch Hdecl.
  - exists c, w. simpl. rewrite app_nil_r. done.
  - destruct (publish_live q b c w Hnf) as (c1 & w1 & E1 & Hc1 & Hch1 & Hin1 & Hq1);
      [by split_and!|done|].
    destruct (IH c1 w1 Hnf Ho) as (c' & w' & E & Hc' & Hch' & Hd' & Hq');
      [by rewrite Hc1|by rewrite Hch1|by rewrite Hq1|].
    exists c', w'. cbn [for_each]. erewrite bind_ok by exact E1.
    split_and!; try done. rewrite Hq', Hq1. simpl. by rewrite <- app_assoc.
Qed.

(** What is published is what is drained, in the order of publication:
    on a live client, with a broker that answers, [publish] of the bodies
    [bs] to a queue followed by [drain_queue] of that queue returns the
    messages the queue held before, then [bs]; the queue is empty after. *)
Theorem published_bodies_are_drained_in_order (q : string) (bs : list bytes)
    (c : SimpleQueueClient) (w : World) (fuel : nat) :
  let old := default [] (bqueues w !! q) in
  (forall n, faults n = None) -> (forall n, is_open_at n = true) ->
  is_Some (connection c) -> is_Some (channel c) ->
  (q ∈ queues c -> is_Some (bqueues w !! q)) ->
  length old + length bs < fuel ->
  exists s',
    (for_each bs (publish q) ;; drain_queue fuel q) (c, w)
    = (Ok (Some (old ++ bs)), s') /\
    bqueues (snd s') !! q = Some [].
Proof.
  intros old Hnf Ho Hconn Hch Hdecl Hfuel.
  destruct (publish_all_live q bs c w Hnf Ho Hconn Hch Hdecl)
    as (c1 & w1 & E1 & Hc1 & Hch1 & Hd1 & Hq1).
  destruct (ensure_queue_prefix q c1 w1 Hnf (or_intror Hch1) Hd1)
    as (c2 & w2 & pre & Hk & Hch2 & Hq2 & _).
  destruct (opened_drains q (old ++ bs) fuel [] c2 w2 Hnf Hch2) as (w' & E & Hq' & _).
  { by rewrite Hq2, Hq1. }
  { rewrite length_app. lia. }
  exists (c2, w'). erewrite bind_ok by exact E1.
  unfold drain_queue. rewrite Hk, E. done.
Qed.

End SimpleMoreFacts.

(** ** More on the event-driven client *)

Section TornadoMoreFacts.
Context `{Env}.
Import Tornado.

(** [register_consumer] on an open channel: for a queue that is marked the
    consume request is sent at once; for an unmarked queue the declare is
    sent and the consume request waits for its confirmation, behind the
    confirmations that the channel already waits for. *)
Theorem tornado_register_consumer_subscribes (q : string) (cons : consumer)
    (c : TornadoQueueClient) (w : World) (i : nat) (cbs : list (string * callback))
    (b : bool) :
  (forall n, faults n = None) ->
  connection c = Some {| phase := Opened; channel_pending := b |} ->
  channel c = Some {| chan_id := i; declare_cbs := cbs |} ->
  let wt := Wrapped (next_obj w) cons in
  let r := register_consumer q cons (c, w) in
  let s1 := snd r in
  fst r = Ok tt /\
  consumers (fst s1) = Simple.consumers_add q wt (consumers c) /\
  if decide (q ∈ queues c) then
    trace (snd s1) = trace w ++ [BasicConsume q wt (ctag_of q (draws w))] /\
    channel (fst s1) = channel c
  else
    trace (snd s1) = trace w ++ [QueueDeclare q] /\
    channel (fst s1)
    = Some {| chan_id := i; declare_cbs := cbs ++ [(q, CbConsume q wt)] |} /\
    queues (fst s1) = queues c /\
    (cbs = [] ->
     exists s2, step EvDeclareOk s1 = Some s2 /\
                q ∈ queues (fst s2) /\
                trace (snd s2) = trace (snd s1) ++ [BasicConsume q wt (ctag_of q (draws w))]).
Proof.
  intros Hnf Hc Hch wt r s1.
  set (c0 := set_consumers (Simple.consumers_add q wt (consumers c)) c).
  assert (E0 : r = ensure_queue q (CbConsume q wt) (c0, incr_obj w)).
  { subst r. unfold register_consumer. unfold bind at 1, liftW at 1, new_wrapped. simpl.
    rewrite bind_getc. simpl. unfold ready. rewrite Hch. simpl. by rewrite bind_modc. }
  destruct (decide (q ∈ queues c)) as [Hin|Hnin].
  - assert (E : r = (Ok tt, (c0, incr_tick (log_action
                       (BasicConsume q wt (ctag_of q (draws w))) (incr_draws (incr_obj w)))))).
    { rewrite E0. rewrite tornado_ensure_queue_cached by done. simpl.
      unfold do_consume, the_channel, _generate_ctag, basic_consume, getrandbits16,
        bind, liftW, getc, request, ret. simpl. rewrite Hch. simpl. by rewrite Hnf. }
    subst s1. rewrite E. done.
  - assert (E : r = (Ok tt, (push_declare_cb q (CbConsume q wt) c0, declared q (incr_obj w)))).
    { rewrite E0. by apply (tornado_ensure_queue_first q _ c0 _ _ Hch). }
    subst s1. rewrite E. simpl. unfold push_declare_cb. simpl. rewrite Hch. simpl.
    split_and!; try done; [by rewrite declared_trace|].
    intros ->. unfold step. simpl. rewrite Hc. simpl.
    unfold finish, bind, modc. simpl.
    unfold do_consume, the_channel, _generate_ctag, basic_consume, getrandbits16,
      bind, liftW, getc, request, ret. simpl. rewrite Hnf. simpl.
    eexists. split; [reflexivity|]. simpl.
    split; [by apply elem_of_union_l, elem_of_singleton|].
    by rewrite declared_draws.
Qed.

(** In the event-driven client a [json_publish] whose first broker request
    fails with a connection error does not raise: it reconnects, which drops
    the channel, so that its second [publish] is put on the on-open list and
    sends nothing; the message goes out when the new channel has opened. *)
Theorem tornado_json_publish_buffers_after_failure (q : string)
    (body : gmap string pyval) (c : TornadoQueueClient) (w : World)
    (ch : channel_obj) (e : exn) :
  channel c = Some ch ->
  faults (tick w) = Some e ->
  is_AMQPConnectionError e = true ->
  faults (S (tick w)) = None ->
  let data := ujson_dumps body in
  exists c' w',
    json_publish q body (c, w) = (Ok tt, (c', w')) /\
    connection c' = Some {| phase := Connecting; channel_pending := false |} /\
    channel c' = None /\ queues c' = ∅ /\
    consumers c' = consumers c /\
    _on_open_cbs c' = _on_open_cbs c ++ [CbEnsure q (CbPublish q data)] /\
    trace w' = trace w
      ++ [Enter_publish q data;
          if decide (q ∈ queues c) then BasicPublish q data else QueueDeclare q;
          Log WARNING "Failed to send to rabbitmq, trying to reconnect and send again"]
      ++ reconnect_actions c ++ [Enter_publish q data].
Proof.
  intros Hch He Hce Hnf data.
  set (sent := if decide (q ∈ queues c) then BasicPublish q data else QueueDeclare q).
  set (s1 := (c, incr_tick (log_action sent (log_action (Enter_publish q data) w)))).
  assert (E1 : publish q data (c, w) = (Raise e, s1)).
  { unfold publish. rewrite bind_emit. simpl. subst s1 sent.
    destruct (decide (q ∈ queues c)) as [Hin|Hnin].
    - rewrite tornado_ensure_queue_cached by done. simpl.
      unfold do_publish, the_channel, basic_publish, bind, getc, liftW, request, ret.
      simpl. rewrite Hch. simpl. by rewrite He.
    - unfold ensure_queue, ensure_queue_with. rewrite bind_getc. simpl.
      rewrite decide_False by done. unfold ready. rewrite Hch. simpl.
      unfold queue_declare, bind, liftW, request. simpl. by rewrite He. }
  assert (E2 : _reconnect (warned s1)
               = (Ok tt, (set_connection
                            (Some {| phase := Connecting; channel_pending := false |})
                            (set_queues ∅ (set_channel None (set_connection None c))),
                          incr_tick (log_action
                            (Connect (fst (_get_parameters c)) (snd (_get_parameters c)))
                            (log_action (Log INFO "Beginning TornadoQueueClient connection")
                               (log_action (Log WARNING
                                  "TornadoQueueClient attempting to reconnect to RabbitMQ")
                                  (log_action Enter_reconnect (snd (warned s1))))))))).
  { unfold _reconnect, _connect, bind, liftW, emit, modify, modc, getc, request. simpl.
    by rewrite Hnf. }
  assert (E : json_publish q body (c, w)
              = (_reconnect ;; publish q data) (warned s1)).
  { unfold json_publish. fold data. unfold bind at 1, try_except.
    erewrite bind_raise by exact E1. by rewrite Hce. }
  rewrite E. erewrite bind_ok by exact E2.
  unfold publish. rewrite bind_emit. simpl.
  unfold ensure_queue, ensure_queue_with. rewrite bind_getc. simpl.
  eexists _, _. split; [reflexivity|]. simpl. split_and!; try done.
  unfold reconnect_actions. simpl. by rewrite <- !app_assoc.
Qed.

Lemma all_plain_app items1 items2 :
  all_plain (items1 ++ items2) = all_plain items1 && all_plain items2.
Proof. unfold all_plain. apply forallb_app. Qed.

(** A [json_publish] made while the client is connecting raises nothing
    and sends nothing; when the connection and the channel have opened, the
    queue is declared after those of the calls made before, and on the
    confirmation of that declare the message is published, once, after the
    callables of the calls made before have run. *)
Theorem json_publish_while_connecting_is_sent_on_open (q : string)
    (body : gmap string pyval) (c : TornadoQueueClient) (w : World) (b : bool)
    (items : list (string * callback)) :
  (forall n, faults n = None) ->
  connection c = Some {| phase := Connecting; channel_pending := b |} ->
  channel c = None -> queues c = ∅ ->
  _on_open_cbs c = buffered items ->
  all_plain items = true ->
  let data := ujson_dumps body in
  let pairs := Simple.registry_pairs (consumers c) in
  exists s1 s2,
    json_publish q body (c, w) = (Ok tt, s1) /\
    trace (snd s1) = trace w ++ [Enter_publish q data] /\
    steps ([EvOpened; EvChannelOpened]
             ++ replicate (length items + 1) EvDeclareOk) s1 = Some s2 /\
    trace (snd s2) = trace (snd s1) ++ [OpenChannel] ++ declares_of items
      ++ [QueueDeclare q] ++ replay_declares pairs
      ++ [Log INFO "TornadoQueueClient connected"]
      ++ callbacks_shown items
      ++ [BasicPublish q data; StatsdIncr ("rabbitmq.publish." +:+ q)].
Proof.
  intros Hnf Hc Hch Hq Hcbs Hplain data pairs.
  set (items' := items ++ [(q, CbPublish q data)]).
  set (c1 := set_on_open_cbs (_on_open_cbs c ++ [CbEnsure q (CbPublish q data)]) c).
  set (w1 := log_action (Enter_publish q data) w).
  assert (E1 : json_publish q body (c, w) = (Ok tt, (c1, w1))).
  { assert (Ep : publish q data (c, w) = (Ok tt, (c1, w1))).
    { unfold publish. rewrite bind_emit. simpl.
      unfold ensure_queue, ensure_queue_with. rewrite bind_getc. simpl.
      rewrite decide_False by (rewrite Hq; apply not_elem_of_empty).
      unfold ready. rewrite Hch. done. }
    unfold json_publish. fold data. unfold bind at 1, try_except.
    erewrite bind_ok by exact Ep. done. }
  assert (Hcbs1 : _on_open_cbs c1 = buffered items').
  { subst c1 items'. simpl. rewrite Hcbs. unfold buffered. by rewrite fmap_app. }
  assert (Hplain1 : all_plain items' = true).
  { subst items'. rewrite all_plain_app, Hplain. done. }
  destruct (connection_opens c1 w1 b Hnf Hc) as (c2 & E2 & Hc2 & Hch2 & Hq2 & Hr2 & Hb2).
  destruct (channel_opens items' c2 (incr_tick (log_action OpenChannel w1)) Hnf Hc2)
    as (c3 & w3 & E3 & Hc3 & Hch3 & Hr3 & T3 & D3); [by rewrite Hq2|by rewrite Hb2|].
  rewrite Hr2 in Hch3, T3. change (consumers c1) with (consumers c) in Hch3, T3.
  fold pairs in Hch3, T3.
  destruct (confirm_plain items' c3 w3 _ _ false Hplain1 Hnf Hc3 Hch3)
    as (c4 & w4 & E4 & Hc4 & Hch4 & Hr4 & T4 & D4).
  exists (c1, w1), (c4, w4). split_and!; try done.
  - cbn [app steps]. rewrite E2, E3.
    replace (length items + 1) with (length items') by (subst items'; by rewrite length_app).
    exact E4.
  - simpl. rewrite T4, T3. simpl. subst items'.
    unfold declares_of, callbacks_shown. rewrite fmap_app, bind_app. simpl.
    by rewrite <- !app_assoc.
Qed.

(** The loss of the connection sets one timer for [_reconnect] and leaves
    the channel object in place: until the timer fires the client counts as
    ready, and a call of [ensure_queue] for an unmarked queue is sent to the
    old channel instead of being put on the on-open list. *)
Theorem calls_after_connection_loss_are_not_buffered (q : string) (n : nat)
    (c : TornadoQueueClient) (w : World) (ch : channel_obj) (b : bool) :
  connection c = Some {| phase := Opened; channel_pending := b |} ->
  channel c = Some ch ->
  q ∉ queues c ->
  exists s1,
    step EvClosed (c, w) = Some s1 /\
    channel (fst s1) = Some ch /\ queues (fst s1) = queues c /\
    _on_open_cbs (fst s1) = _on_open_cbs c /\
    timers (snd s1) = S (timers w) /\
    trace (snd s1)
    = trace w ++ [Log WARNING
                    "TornadoQueueClient lost connection to RabbitMQ, reconnecting in 2 secs...";
                  CallLater 2] /\
    let s2 := snd (ensure_queue q (CbUser n) s1) in
    _on_open_cbs (fst s2) = _on_open_cbs c /\
    trace (snd s2) = trace (snd s1) ++ [QueueDeclare q].
Proof.
  intros Hc Hch Hq. unfold step. simpl. rewrite Hc. eexists. split; [reflexivity|].
  simpl. split_and!; try done.
  - by rewrite <- app_assoc.
  - unfold ensure_queue, ensure_queue_with. rewrite bind_getc. simpl.
    rewrite decide_False by done. unfold ready. simpl. rewrite Hch. simpl.
    unfold queue_declare, bind, liftW, modc, request, modify. simpl.
    destruct (faults (tick w)); simpl; [done|]. unfold push_declare_cb. simpl.
    by rewrite Hch.
  - unfold ensure_queue, ensure_queue_with. rewrite bind_getc. simpl.
    rewrite decide_False by done. unfold ready. simpl. rewrite Hch. simpl.
    unfold queue_declare, bind, liftW, modc, request, modify. simpl.
    destruct (faults (tick w)); simpl; [done|]. by case_match.
Qed.

End TornadoMoreFacts.

(** ** Publishing through the module: one client for the process *)

Section ProcessFacts.
Context `{Env}.
Variable conf : Queue.settings.
Import Queue.

Lemma simple_json_publish_marked q ev c w :
  (forall n, faults n = None) -> live c w -> q ∈ Simple.queues c ->
  exists w', Simple.json_publish q ev (c, w) = (Ok tt, (c, w')) /\
             trace w' = trace w ++ publish_actions q ev.
Proof.
  intros Hnf Hlive Hin. pose proof Hlive as (_ & [ch Hch] & _).
  assert (Ep : exists w', Simple.publish q (ujson_dumps ev) (c, w) = (Ok tt, (c, w')) /\
                          trace w' = trace w ++ publish_actions q ev).
  { unfold Simple.publish. rewrite bind_emit. simpl.
    rewrite simple_ensure_queue_cached by done.
    erewrite bind_ok by (by apply simple_connect_unless_open_live).
    unfold Simple.do_publish, Simple.the_channel, basic_publish, bind, getc, liftW,
      request, emit, modify, ret. simpl. rewrite Hch. simpl. rewrite Hnf. simpl.
    eexists. split; [reflexivity|]. unfold publish_actions.
    case_match; simpl; by rewrite <- !app_assoc. }
  destruct Ep as (w' & Ep & Ht). exists w'. split; [|done].
  unfold Simple.json_publish, try_except. unfold bind at 1.
  erewrite bind_ok by exact Ep. done.
Qed.

Lemma queue_json_publish_reuses q ev f c p :
  USING_RABBITMQ conf = true ->
  (forall n, faults n = None) ->
  queue_client p = Some (SimpleClient c) -> live c (world p) -> q ∈ Simple.queues c ->
  exists p',
    queue_json_publish conf q ev f p = (Ok tt, p') /\
    queue_client p' = Some (SimpleClient c) /\
    tick (world p') = S (tick (world p)) /\
    app_trace p' = app_trace p /\
    trace (world p') = trace (world p) ++ publish_actions q ev.
Proof.
  intros Hr Hnf Hcl Hlive Hin.
  destruct (simple_json_publish_marked q ev c (world p) Hnf Hlive Hin) as (w' & E & Ht).
  assert (Eg : get_queue_client conf p = (Ok (Some (SimpleClient c)), p)).
  { unfold get_queue_client, bind, get, ret. rewrite Hcl. by rewrite Hcl. }
  assert (Etick : tick w' = S (tick (world p))).
  { revert E. unfold Simple.json_publish, try_except, Simple.publish, Simple.ensure_queue,
      Simple.connect_unless_open, Simple.do_publish, Simple.the_channel, basic_publish,
      is_open, bind, getc, liftW, request, emit, modify, ret. simpl.
    destruct Hlive as ([conn Hconn] & [ch Hch] & Ho). rewrite Hconn. simpl.
    rewrite Ho. simpl.
    rewrite decide_True by done. simpl. rewrite Hch. simpl. rewrite Hnf. simpl.
    intros [= <-]. by case_match. }
  unfold queue_json_publish. rewrite Hr. unfold client_json_publish.
  erewrite bind_ok by exact Eg. unfold on_client. cbv zeta. rewrite E.
  eexists. split; [reflexivity|]. done.
Qed.

Lemma queue_json_publish_reuses_all q f (evs : list (gmap string pyval)) :
  forall c p,
    USING_RABBITMQ conf = true ->
    (forall n, faults n = None) -> (forall n, is_open_at n = true) ->
    queue_client p = Some (SimpleClient c) ->
    is_Some (Simple.connection c) -> is_Some (Simple.channel c) ->
    q ∈ Simple.queues c ->
    exists p',
      for_each evs (fun ev => queue_json_publish conf q ev f) p = (Ok tt, p') /\
      queue_client p' = Some (SimpleClient c) /\
      app_trace p' = app_trace p /\
      trace (world p') = trace (world p) ++ (evs ≫= publish_actions q).
Proof.
  induction evs as [|ev evs IH]; intros c p Hr Hnf Ho Hcl Hconn Hch Hin.
  - exists p. simpl. by rewrite app_nil_r.
  - destruct (queue_json_publish_reuses q ev f c p Hr Hnf Hcl) as (p1 & E1 & Hcl1 & _ & Ha1 & Ht1);
      [by split_and!|done|].
    destruct (IH c p1 Hr Hnf Ho Hcl1 Hconn Hch Hin) as (p' & E & Hcl' & Ha' & Ht').
    exists p'. cbn [for_each]. erewrite bind_ok by exact E1. split_and!; try done.
    + by rewrite Ha'.
    + rewrite Ht', Ht1, bind_cons. by rewrite <- app_assoc.
Qed.

(** The events that a process outside Tornado publishes to one queue share
    one connection: with a broker that answers, on a process that has no
    client yet, [queue_json_publish] of the events [ev :: evs] connects once
    and opens one channel, declares the queue once, before the first
    message, and publishes the events in their order; it calls no application
    code, whatever [processor] is. *)
Theorem process_publishes_on_one_connection (q : string)
    (f : option processor) (ev : gmap string pyval) (evs : list (gmap string pyval))
    (p : process) :
  USING_RABBITMQ conf = true -> RUNNING_INSIDE_TORNADO conf = false ->
  (forall n, faults n = None) -> (forall n, is_open_at n = true) ->
  queue_client p = None ->
  exists p',
    for_each (ev :: evs) (fun ev => queue_json_publish conf q ev f) p = (Ok tt, p') /\
    app_trace p' = app_trace p /\
    trace (world p')
    = trace (world p)
      ++ [Connect (Some 0%Z) (Some 300%Z); OpenChannel;
          Log INFO "SimpleQueueClient connected"]
      ++ [Enter_publish q (ujson_dumps ev); QueueDeclare q;
          BasicPublish q (ujson_dumps ev); StatsdIncr ("rabbitmq.publish." +:+ q)]
      ++ (evs ≫= publish_actions q).
Proof.
  intros Hr Ht Hnf Ho Hcl.
  set (s0 := connected (simple_unconnected (Some 0%Z)) (world p)).
  assert (Ep : exists w1,
             Simple.json_publish q ev s0
             = (Ok tt, (Simple.set_queues ({[q]} ∪ ∅) (fst s0), w1)) /\
             trace w1 = trace (snd s0)
                        ++ [Enter_publish q (ujson_dumps ev); QueueDeclare q;
                            BasicPublish q (ujson_dumps ev);
                            StatsdIncr ("rabbitmq.publish." +:+ q)]).
  { assert (Epub : exists w1,
               Simple.publish q (ujson_dumps ev) s0
               = (Ok tt, (Simple.set_queues ({[q]} ∪ ∅) (fst s0), w1)) /\
               trace w1 = trace (snd s0)
                          ++ [Enter_publish q (ujson_dumps ev); QueueDeclare q;
                              BasicPublish q (ujson_dumps ev);
                              StatsdIncr ("rabbitmq.publish." +:+ q)]).
    { unfold Simple.publish. rewrite bind_emit.
      erewrite (simple_ensure_queue_first q _ (fst s0));
        [|split_and!; [by eexists|by eexists|apply Ho]|apply not_elem_of_empty|done].
      unfold Simple.do_publish, Simple.the_channel, basic_publish, bind, getc, liftW,
        request, emit, modify, ret. simpl. rewrite Hnf. simpl.
      eexists. split; [reflexivity|].
      case_match; simpl; rewrite declared_trace; simpl; by rewrite <- !app_assoc. }
    destruct Epub as (w1 & Epub & Ht1). exists w1. split; [|done].
    unfold Simple.json_publish, try_except. unfold bind at 1.
    erewrite bind_ok by exact Epub. done. }
  destruct Ep as (w1 & Ep & Ht1).
  set (c1 := Simple.set_queues ({[q]} ∪ ∅) (fst s0)).
  set (p1 := set_client (Some (SimpleClient c1)) (set_world w1 p)).
  assert (E1 : queue_json_publish conf q ev f p = (Ok tt, p1)).
  { assert (Eg : get_queue_client conf p
                 = (Ok (Some (SimpleClient (fst s0))),
                    set_client (Some (SimpleClient (fst s0))) (set_world (snd s0) p))).
    { unfold get_queue_client. unfold bind at 1. unfold get at 1.
      rewrite Hcl, Ht, Hr. cbn [andb].
      unfold construct, Simple.__init__.
      fold (simple_unconnected (Some 0%Z)). unfold bind at 1. cbv beta.
      rewrite (connect_ok _ _ Hnf). reflexivity. }
    unfold queue_json_publish. rewrite Hr. unfold client_json_publish.
    erewrite bind_ok by exact Eg. unfold on_client. cbv zeta. cbn [world set_client set_world].
    replace (fst s0, snd s0) with s0 by (by destruct s0). rewrite Ep. done. }
  destruct (queue_json_publish_reuses_all q f evs c1 p1 Hr Hnf Ho)
    as (p' & E & Hcl' & Ha' & Ht'); [done|by eexists|by eexists| |].
  { subst c1. simpl. by apply elem_of_union_l, elem_of_singleton. }
  exists p'. cbn [for_each]. erewrite bind_ok by exact E1. split_and!; try done.
  rewrite Ht'. subst p1. simpl. rewrite Ht1. subst s0. simpl. by rewrite <- !app_assoc.
Qed.

End ProcessFacts.

(** ** The event-driven client: the on-open list is never emptied *)

Section Grows.
Context {C V : Type} (view : C -> list V).

Lemma grows_keeps {A} (m : M (C * World) A) : keeps view m -> grows view m.
Proof. intros Hm s. exists []. by rewrite app_nil_r. Qed.

Lemma grows_bind {A B} (m : M (C * World) A) (k : A -> M (C * World) B) :
  grows view m -> (forall a, grows view (k a)) -> grows view (bind m k).
Proof.
  intros Hm Hk s. unfold bind. destruct (Hm s) as (l1 & E1).
  destruct (m s) as [[a|e] s1]; simpl in *; [|by exists l1].
  destruct (Hk a s1) as (l2 & E2). exists (l1 ++ l2). by rewrite E2, E1, app_assoc.
Qed.

Lemma grows_try {A} (m : M (C * World) A) catches h :
  grows view m -> (forall e, grows view (h e)) -> grows view (try_except m catches h).
Proof.
  intros Hm Hh s. unfold try_except. destruct (Hm s) as (l1 & E1).
  destruct (m s) as [[a|e] s1]; simpl in *; [by exists l1|].
  destruct (catches e); [|by exists l1].
  destruct (Hh e s1) as (l2 & E2). exists (l1 ++ l2). by rewrite E2, E1, app_assoc.
Qed.

End Grows.

Section OnOpenListFacts.
Context `{Env}.
Import Tornado.

Lemma push_declare_cb_on_open q cb c : _on_open_cbs (push_declare_cb q cb c) = _on_open_cbs c.
Proof. unfold push_declare_cb. by destruct (channel c). Qed.

Lemma run_callback_grows cb : grows _on_open_cbs (run_callback cb).
Proof.
  induction cb as [q b|q w|n|q cb IH]; simpl.
  - apply grows_keeps. unfold do_publish, the_channel. frame.
  - apply grows_keeps. unfold do_consume, the_channel, _generate_ctag. frame.
  - apply grows_keeps. frame.
  - unfold ensure_queue_with. apply grows_bind; [apply grows_keeps; frame|]. intros c.
    destruct (decide (q ∈ queues c)); [apply IH|].
    destruct (ready c).
    + apply grows_keeps.
      frame_using ltac:(apply keeps_modc; intros ?; apply push_declare_cb_on_open).
    + intros s. by eexists.
Qed.

Lemma apply_call_grows a : grows _on_open_cbs (apply_call a).
Proof.
  assert (He : forall q cb, grows _on_open_cbs (ensure_queue q cb))
    by (intros q cb; apply (run_callback_grows (CbEnsure q cb))).
  assert (Hp : forall q b, grows _on_open_cbs (publish q b)).
  { intros q b. unfold publish. apply grows_bind; [apply grows_keeps; frame|]. by intros _. }
  destruct a as [q n|q c|q b|q body]; simpl; [done| |done|].
  - unfold register_consumer.
    apply grows_bind; [apply grows_keeps; frame|]. intros wc.
    apply grows_bind; [apply grows_keeps; frame|]. intros c0.
    destruct (ready c0).
    + apply grows_bind; [apply grows_keeps; frame|]. by intros _.
    + apply grows_keeps. frame.
  - unfold json_publish.
    apply grows_bind.
    + apply grows_try.
      * apply grows_bind; [done|]. intros _. apply grows_keeps. frame.
      * intros e. apply grows_keeps. frame.
    + intros [|]; [apply grows_keeps; frame|].
      apply grows_bind; [|by intros _].
      apply grows_keeps. unfold _reconnect, _connect. frame.
Qed.

(** With a channel, calling a stored callable leaves the list alone. *)
Lemma run_callback_on_open cb :
  forall s, is_Some (channel (fst s)) ->
            _on_open_cbs (fst (snd (run_callback cb s))) = _on_open_cbs (fst s).
Proof.
  induction cb as [q b|q w|n|q cb IH]; intros s Hch.
  - assert (Hk : keeps _on_open_cbs (do_publish q b))
      by (unfold do_publish, the_channel; frame). apply Hk.
  - assert (Hk : keeps _on_open_cbs (do_consume q w))
      by (unfold do_consume, the_channel, _generate_ctag; frame). apply Hk.
  - done.
  - destruct s as [c w]. simpl in *. unfold ensure_queue_with. rewrite bind_getc. simpl.
    destruct (decide (q ∈ queues c)); [by apply IH|].
    unfold ready. destruct Hch as [ch Hch]. rewrite Hch. simpl.
    assert (Hk : keeps _on_open_cbs (liftW (queue_declare q) ;; modc (push_declare_cb q cb)))
      by (frame_using ltac:(apply keeps_modc; intros ?; apply push_declare_cb_on_open)).
    apply (Hk (c, w)).
Qed.

Lemma run_all_on_open (l : list callback) :
  forall s, is_Some (channel (fst s)) ->
            _on_open_cbs (fst (snd (for_each l run_callback s))) = _on_open_cbs (fst s) /\
            is_Some (channel (fst (snd (for_each l run_callback s)))).
Proof.
  induction l as [|cb l IH]; intros s Hch; [done|]. cbn [for_each]. unfold bind.
  pose proof (run_callback_on_open cb s Hch) as E1.
  pose proof (run_callback_channel cb s Hch) as C1.
  destruct (run_callback cb s) as [[[]|e] s1]; simpl in *; [|done].
  destruct (IH s1 C1) as [E2 C2]. split; [|done]. by rewrite E2.
Qed.

Lemma step_on_open ev s s' :
  step ev s = Some s' -> _on_open_cbs (fst s') = _on_open_cbs (fst s).
Proof.
  intros Hstep. destruct s as [c w]. unfold step in Hstep. simpl in Hstep.
  assert (Hr : keeps _on_open_cbs _reconnect) by (unfold _reconnect, _connect; frame).
  destruct ev; destruct (connection c) as [[[] pend]|] eqn:Ec.
  all: simplify_eq/=.
  all: try (destruct (timers w) as [|n] eqn:Et; simplify_eq/=;
            rewrite timer_step; by apply Hr).
  - assert (Hk : keeps _on_open_cbs (set_phase Closed false ;; _on_connection_open_error))
      by (unfold set_phase, _on_connection_open_error; frame).
    apply (Hk (c, w)).
  - assert (Hk : keeps _on_open_cbs (set_phase Opened false ;; _on_open))
      by (unfold set_phase, _on_open; frame).
    apply (Hk (c, w)).
  - destruct pend; simplify_eq/=.
    set (c0 := set_channel (Some {| chan_id := tick w; declare_cbs := [] |})
                 (set_connection (Some {| phase := Opened; channel_pending := false |}) c)).
    assert (E : (set_phase Opened false ;;
                 _on_channel_open {| chan_id := tick w; declare_cbs := [] |}) (c, w)
                = (for_each (_on_open_cbs c) run_callback ;;
                   _reconnect_consumer_callbacks ;;
                   liftW (emit (Log INFO "TornadoQueueClient connected"))) (c0, w))
      by reflexivity.
    etrans; [exact (f_equal (fun r => _on_open_cbs (fst (snd r))) E)|].
    unfold bind at 1.
    destruct (run_all_on_open (_on_open_cbs c) (c0, w)) as [E1 C1]; [by eexists|].
    destruct (for_each (_on_open_cbs c) run_callback (c0, w)) as [[[]|e] s1];
      simpl in *; [|done].
    unfold _reconnect_consumer_callbacks, bind at 1. rewrite bind_getc.
    assert (Hl : forall ps s2, is_Some (channel (fst s2)) ->
               _on_open_cbs (fst (snd (for_each ps
                   (fun p => _reconnect_consumer_callback (fst p) (snd p)) s2)))
               = _on_open_cbs (fst s2) /\
               is_Some (channel (fst (snd (for_each ps
                   (fun p => _reconnect_consumer_callback (fst p) (snd p)) s2))))).
    { induction ps as [|[q wc] ps IH]; intros s2 C2; [done|]. cbn [for_each fst snd].
      set (m := _reconnect_consumer_callback q wc).
      assert (Hm : _on_open_cbs (fst (snd (m s2))) = _on_open_cbs (fst s2) /\
                   is_Some (channel (fst (snd (m s2))))).
      { subst m. unfold _reconnect_consumer_callback. rewrite bind_emit. split.
        - by apply (run_callback_on_open (CbEnsure q (CbConsume q wc)) (_, _)).
        - by apply (run_callback_channel (CbEnsure q (CbConsume q wc)) (_, _)). }
      unfold bind. destruct (m s2) as [[[]|e] s4]; simpl in *; [|done].
      destruct Hm as [E3 C3]. destruct (IH s4 C3) as [E4 C4].
      split; [|done]. by rewrite E4. }
    destruct (Hl (Simple.registry_pairs (consumers (fst s1))) s1 C1) as [E2 C2].
    destruct (for_each _ _ s1) as [[[]|e] s2]; simpl in *; by rewrite E2.
  - done.
  - destruct (channel c) as [[i [|[q cb] rest]]|] eqn:Ech; simplify_eq/=.
    apply (run_callback_on_open cb
             (set_queues ({[q]} ∪ queues c)
                (set_channel (Some {| chan_id := i; declare_cbs := rest |}) c), w)).
    by eexists.
Qed.

(** No turn of the event loop changes the on-open list, and a call of
    application code only adds to its end: an entry, once on the list, stays
    there. *)
Theorem on_open_list_only_grows (i : input) (s s' : state) :
  react i s = Some s' ->
  exists l, _on_open_cbs (fst s') = _on_open_cbs (fst s) ++ l /\
            match i with FromLoop _ => l = [] | FromApp _ => True end.
Proof.
  intros Hr. destruct i as [ev|a]; simpl in Hr.
  - exists []. rewrite app_nil_r. split; [|done]. by eapply step_on_open.
  - simplify_eq. destruct (apply_call_grows a s) as (l & E). by exists l.
Qed.

Lemma steps_on_open evs :
  forall s s', steps evs s = Some s' -> _on_open_cbs (fst s') = _on_open_cbs (fst s).
Proof.
  induction evs as [|ev evs IH]; intros s s'; simpl; [by intros [= <-]|].
  destruct (step ev s) as [s1|] eqn:E1; [|done]. intros E.
  rewrite (IH s1 s' E). by eapply step_on_open.
Qed.

Lemma elem_of_callbacks_shown it a items :
  it ∈ items -> a ∈ shown_by (snd it) -> a ∈ callbacks_shown items.
Proof.
  intros Hit Ha. unfold callbacks_shown. apply list_elem_of_bind. by exists it.
Qed.

(** A call that is on the on-open list is run again at every reconnection
    that succeeds, and is still on the list after: a message whose [publish]
    was buffered is sent to the broker again each time a channel opens. *)
Theorem buffered_calls_are_run_again (c : TornadoQueueClient) (w : World) (k : nat)
    (items : list (string * callback)) :
  (forall n, faults n = None) ->
  timers w = S k ->
  _on_open_cbs c = buffered items ->
  all_plain items = true ->
  let pairs := Simple.registry_pairs (consumers c) in
  exists s' l,
    steps ([EvTimer; EvOpened; EvChannelOpened]
             ++ replicate (length items + length pairs) EvDeclareOk) (c, w) = Some s' /\
    _on_open_cbs (fst s') = buffered items /\
    trace (snd s') = trace w ++ l /\
    forall q d, (q, CbPublish q d) ∈ items -> BasicPublish q d ∈ l.
Proof.
  intros Hnf Ht Hcbs Hplain pairs.
  destruct (timer_reconnects c w k Hnf Ht)
    as (c1 & w1 & E1 & Hc1 & Hch1 & Hq1 & Hr1 & Hb1 & T1 & D1).
  destruct (connection_opens c1 w1 false Hnf Hc1)
    as (c2 & E2 & Hc2 & Hch2 & Hq2 & Hr2 & Hb2).
  destruct (channel_opens items c2 (incr_tick (log_action OpenChannel w1)) Hnf Hc2)
    as (c3 & w3 & E3 & Hc3 & Hch3 & Hr3 & T3 & D3);
    [congruence|by rewrite Hb2, Hb1|].
  rewrite Hr2, Hr1 in Hch3, T3. fold pairs in Hch3, T3.
  destruct (confirm_plain items c3 w3 _ _ false Hplain Hnf Hc3 Hch3)
    as (c4 & w4 & E4 & Hc4 & Hch4 & Hr4 & T4 & D4).
  destruct (confirm_consumes pairs c4 w4 (tick (incr_tick (log_action OpenChannel w1)))
              [] false Hnf Hc4)
    as (c5 & w5 & E5 & Hc5 & Hch5 & Hr5 & T5 & D5);
    [rewrite app_nil_r; exact Hch4|].
  assert (E : steps ([EvTimer; EvOpened; EvChannelOpened]
                       ++ replicate (length items + length pairs) EvDeclareOk) (c, w)
              = Some (c5, w5)).
  { cbn [app steps]. rewrite E1, E2, E3. rewrite replicate_add, steps_app, E4. exact E5. }
  exists (c5, w5),
    (reconnect_actions c ++ [OpenChannel] ++ declares_of items
       ++ replay_declares pairs ++ [Log INFO "TornadoQueueClient connected"]
       ++ callbacks_shown items ++ consume_requests (draws w) pairs).
  split; [exact E|]. split_and!.
  - etrans; [exact (steps_on_open _ _ _ E)|exact Hcbs].
  - simpl. rewrite T5, T4, T3. simpl. rewrite T1, D4, D3. simpl. rewrite D1.
    by rewrite <- !app_assoc.
  - intros q d Hin. rewrite !elem_of_app. do 5 right. left.
    apply (elem_of_callbacks_shown (q, CbPublish q d)); [done|]. simpl. by left.
Qed.

End OnOpenListFacts.

(** ** Consumer tags *)

Section TagFacts.
Context `{Env}.

(** [_generate_ctag] uses up one random draw, and two tags for one queue
    are equal exactly when the 16 bits drawn are equal: a tag is new with
    the odds of the draw, not by construction. *)
Theorem consumer_tags_are_as_distinct_as_the_draws (q : string)
    (s s' : Simple.state) :
  let r := Simple._generate_ctag q s in
  let r' := Simple._generate_ctag q s' in
  fst r = Ok (ctag_of q (draws (snd s))) /\
  draws (snd (snd r)) = S (draws (snd s)) /\
  (fst r = fst r' <->
   (getrandbits (draws (snd s)) `mod` 65536 = getrandbits (draws (snd s')) `mod` 65536)%N).
Proof.
  intros r r'. split; [done|]. split; [done|]. subst r r'. simpl. unfold ctag_of. split.
  - intros [= E]. apply (inj (String.app q)) in E. apply (inj (String.app "_")) in E.
    by apply (inj pretty) in E.
  - by intros ->.
Qed.

End TagFacts.

(** ** The statements above at concrete inputs *)

Lemma json_publish_without_connection_error_witness :
  Simple.json_publish (H := calm) "q" ∅ simple_connected
  = Simple.publish (H := calm) "q" (ujson_dumps (Env := calm) ∅) simple_connected /\
  exists l, trace (snd (snd (Simple.json_publish (H := calm) "q" ∅ simple_connected)))
            = trace (snd simple_connected)
              ++ Enter_publish "q" (ujson_dumps (Env := calm) ∅) :: l /\
            count is_reconnect l = 0 /\ count is_publish_entry l = 0.
Proof.
  apply (json_publish_without_connection_error (H := calm) "q" ∅ simple_connected).
  vm_compute. exact I.
Defined.

Lemma ensure_queue_connects_when_closed_witness :
  let c := fst simple_dropped in
  let w := snd simple_dropped in
  let s1 := connected (H := calm) c w in
  Simple.queues (fst s1) = Simple.queues c /\
  trace (snd s1)
  = trace w ++ [Connect (fst (Simple._get_parameters c)) (snd (Simple._get_parameters c));
                OpenChannel; Log INFO "SimpleQueueClient connected"] /\
  Simple.ensure_queue (H := calm) "q" (ret tt) (c, w)
  = if decide ("q" ∈ Simple.queues c) then ret tt s1
    else ret tt (Simple.set_queues ({["q"]} ∪ Simple.queues c) (fst s1),
                 declared (H := calm) "q" (snd s1)).
Proof.
  apply (ensure_queue_connects_when_closed (H := calm) "q" (ret tt)
           (fst simple_dropped) (snd simple_dropped)).
  - intros n. reflexivity.
  - left. reflexivity.
Defined.

Lemma register_consumer_subscribes_witness :
  exists c' w',
    Simple.register_consumer (H := calm) "q" (RawConsumer 0) simple_connected
    = (Ok tt, (c', w')) /\
    "q" ∈ Simple.queues c' /\
    trace w'
    = trace (snd simple_connected)
      ++ (if decide ("q" ∈ Simple.queues (fst simple_connected)) then []
          else [QueueDeclare "q"])
      ++ [BasicConsume "q" (Wrapped (next_obj (snd simple_connected)) (RawConsumer 0))
            (ctag_of (H := calm) "q" (draws (snd simple_connected)))].
Proof.
  apply (register_consumer_subscribes (H := calm) "q" (RawConsumer 0)
           (fst simple_connected) (snd simple_connected)).
  - intros n. reflexivity.
  - split; [by eexists|]. split; [by eexists|]. reflexivity.
Defined.

Lemma blocking_replay_when_called_witness :
  let c := fst simple_two_consumers in
  let w := snd simple_two_consumers in
  let pairs := Simple.registry_pairs (Simple.consumers c) in
  exists c' w' l,
    Simple._reconnect_consumer_callbacks (H := calm) (c, w) = (Ok tt, (c', w')) /\
    Simple.consumers c' = Simple.consumers c /\
    Simple.queues c' = Simple.queues c ∪ queue_names pairs /\
    trace w' = trace w ++ l /\
    List.filter is_consume l = consume_requests (H := calm) (draws w) pairs /\
    count is_declare l = size (queue_names pairs ∖ Simple.queues c).
Proof.
  apply (blocking_replay_when_called (H := calm) (fst simple_two_consumers)
           (snd simple_two_consumers)).
  - intros n. reflexivity.
  - intros n. reflexivity.
  - by eexists.
  - by eexists.
Defined.

Lemma drain_queue_failure_drops_fetched_witness :
  exists w',
    Simple.drain_queue (H := failing_at 4 AMQPConnectionError) 4 "q" three_pending_marked
    = (Raise AMQPConnectionError, (fst three_pending_marked, w')) /\
    bqueues w' !! "q" = Some (drop 1 [[Byte.x61]; [Byte.x62]; [Byte.x63]]) /\
    (forall t, next_tag (snd three_pending_marked) <= t
               < next_tag (snd three_pending_marked) + 1 ->
               unacked w' !! t = None) /\
    trace w' = trace (snd three_pending_marked)
               ++ (seq (next_tag (snd three_pending_marked)) 1
                     ≫= fun t => [BasicGet "q"; BasicAck t])
               ++ [BasicGet "q"].
Proof.
  apply (drain_queue_failure_drops_fetched (H := failing_at 4 AMQPConnectionError)
           "q" AMQPConnectionError 1 4 [[Byte.x61]; [Byte.x62]; [Byte.x63]]
           (fst three_pending_marked) (snd three_pending_marked)).
  - split; [by eexists|]. split; [by eexists|]. reflexivity.
  - vm_compute. reflexivity.
  - reflexivity.
  - simpl. lia.
  - lia.
  - intros n Hn. simpl in *. destruct (decide (n = 4)); [lia|reflexivity].
  - reflexivity.
Defined.

Lemma tornado_register_consumer_subscribes_witness :
  let wt := Wrapped (next_obj (snd tornado_open)) (RawConsumer 0) in
  let r := Tornado.register_consumer (H := calm) "q" (RawConsumer 0) tornado_open in
  let s1 := snd r in
  fst r = Ok tt /\
  Tornado.consumers (fst s1)
  = Simple.consumers_add "q" wt (Tornado.consumers (fst tornado_open)) /\
  if decide ("q" ∈ Tornado.queues (fst tornado_open)) then
    trace (snd s1)
    = trace (snd tornado_open)
      ++ [BasicConsume "q" wt (ctag_of (H := calm) "q" (draws (snd tornado_open)))] /\
    Tornado.channel (fst s1) = Tornado.channel (fst tornado_open)
  else
    trace (snd s1) = trace (snd tornado_open) ++ [QueueDeclare "q"] /\
    Tornado.channel (fst s1)
    = Some {| Tornado.chan_id := 2;
              Tornado.declare_cbs := [] ++ [("q", Tornado.CbConsume "q" wt)] |} /\
    Tornado.queues (fst s1) = Tornado.queues (fst tornado_open) /\
    (@nil (string * Tornado.callback) = [] ->
     exists s2, Tornado.step (H := calm) Tornado.EvDeclareOk s1 = Some s2 /\
                "q" ∈ Tornado.queues (fst s2) /\
                trace (snd s2)
                = trace (snd s1)
                  ++ [BasicConsume "q" wt
                        (ctag_of (H := calm) "q" (draws (snd tornado_open)))]).
Proof.
  apply (tornado_register_consumer_subscribes (H := calm) "q" (RawConsumer 0)
           (fst tornado_open) (snd tornado_open) 2 [] false).
  - intros n. reflexivity.
  - reflexivity.
  - reflexivity.
Defined.

Lemma tornado_json_publish_buffers_after_failure_witness :
  let c := fst tornado_open in
  let w := snd tornado_open in
  let data := ujson_dumps (Env := failing_at 2 AMQPConnectionError) ∅ in
  exists c' w',
    Tornado.json_publish (H := failing_at 2 AMQPConnectionError) "q" ∅ (c, w)
    = (Ok tt, (c', w')) /\
    Tornado.connection c'
    = Some {| Tornado.phase := Tornado.Connecting; Tornado.channel_pending := false |} /\
    Tornado.channel c' = None /\ Tornado.queues c' = ∅ /\
    Tornado.consumers c' = Tornado.consumers c /\
    Tornado._on_open_cbs c'
    = Tornado._on_open_cbs c ++ [Tornado.CbEnsure "q" (Tornado.CbPublish "q" data)] /\
    trace w' = trace w
      ++ [Enter_publish "q" data;
          if decide ("q" ∈ Tornado.queues c) then BasicPublish "q" data
          else QueueDeclare "q";
          Log WARNING "Failed to send to rabbitmq, trying to reconnect and send again"]
      ++ reconnect_actions c ++ [Enter_publish "q" data].
Proof.
  apply (tornado_json_publish_buffers_after_failure
           (H := failing_at 2 AMQPConnectionError) "q" ∅
           (fst tornado_open) (snd tornado_open)
           {| Tornado.chan_id := 2; Tornado.declare_cbs := [] |} AMQPConnectionError).
  - reflexivity.
  - reflexivity.
  - reflexivity.
  - reflexivity.
Defined.

Lemma json_publish_while_connecting_is_sent_on_open_witness :
  let c := fst tornado_connecting in
  let w := snd tornado_connecting in
  let data := ujson_dumps (Env := calm) ∅ in
  let pairs := Simple.registry_pairs (Tornado.consumers c) in
  exists s1 s2,
    Tornado.json_publish (H := calm) "q" ∅ (c, w) = (Ok tt, s1) /\
    trace (snd s1) = trace w ++ [Enter_publish "q" data] /\
    steps (H := calm)
      ([Tornado.EvOpened; Tornado.EvChannelOpened]
         ++ replicate (length (@nil (string * Tornado.callback)) + 1) Tornado.EvDeclareOk) s1
    = Some s2 /\
    trace (snd s2) = trace (snd s1) ++ [OpenChannel] ++ declares_of []
      ++ [QueueDeclare "q"] ++ replay_declares pairs
      ++ [Log INFO "TornadoQueueClient connected"]
      ++ callbacks_shown []
      ++ [BasicPublish "q" data; StatsdIncr ("rabbitmq.publish." +:+ "q")].
Proof.
  apply (json_publish_while_connecting_is_sent_on_open (H := calm) "q" ∅
           (fst tornado_connecting) (snd tornado_connecting) false []).
  - intros n. reflexivity.
  - reflexivity.
  - reflexivity.
  - reflexivity.
  - reflexivity.
  - reflexivity.
Defined.

Lemma calls_after_connection_loss_are_not_buffered_witness :
  exists s1,
    Tornado.step (H := calm) Tornado.EvClosed tornado_open = Some s1 /\
    Tornado.channel (fst s1)
    = Some {| Tornado.chan_id := 2; Tornado.declare_cbs := [] |} /\
    Tornado.queues (fst s1) = Tornado.queues (fst tornado_open) /\
    Tornado._on_open_cbs (fst s1) = Tornado._on_open_cbs (fst tornado_open) /\
    timers (snd s1) = S (timers (snd tornado_open)) /\
    trace (snd s1)
    = trace (snd tornado_open)
      ++ [Log WARNING
            "TornadoQueueClient lost connection to RabbitMQ, reconnecting in 2 secs...";
          CallLater 2] /\
    let s2 := snd (Tornado.ensure_queue (H := calm) "q" (Tornado.CbUser 0) s1) in
    Tornado._on_open_cbs (fst s2) = Tornado._on_open_cbs (fst tornado_open) /\
    trace (snd s2) = trace (snd s1) ++ [QueueDeclare "q"].
Proof.
  apply (calls_after_connection_loss_are_not_buffered (H := calm) "q" 0
           (fst tornado_open) (snd tornado_open)
           {| Tornado.chan_id := 2; Tornado.declare_cbs := [] |} false).
  - reflexivity.
  - reflexivity.
  - simpl. apply not_elem_of_empty.
Defined.

Lemma retry_event_counter_must_be_a_number_witness :
  Queue.retry_event (H := calm) no_rabbitmq "q" 0 (bad_counter, fresh_process)
  = (Raise TypeError, (bad_counter, fresh_process)).
Proof.
  apply (retry_event_counter_must_be_a_number (H := calm) no_rabbitmq "q" 0
           bad_counter fresh_process (PStr "1")).
  reflexivity.
Defined.

Lemma retry_event_gives_up_at_the_fourth_witness :
  let counted (k : Z) := <["failed_tries" := PInt k]> (∅ : gmap string pyval) in
  retry_times (H := calm) no_rabbitmq "q" 0 1 (∅, fresh_process)
  = (Ok tt, (counted 1%Z, fresh_process)) /\
  retry_times (H := calm) no_rabbitmq "q" 0 2 (∅, fresh_process)
  = (Ok tt, (counted 2%Z, fresh_process)) /\
  retry_times (H := calm) no_rabbitmq "q" 0 3 (∅, fresh_process)
  = (Ok tt, (counted 3%Z, fresh_process)) /\
  retry_times (H := calm) no_rabbitmq "q" 0 4 (∅, fresh_process)
  = (match handler_outcome (Env := calm) 0 (counted 4%Z) with
     | Some e => Raise e | None => Ok tt end,
     (counted 4%Z,
      Queue.log_app (Queue.CallFailureProcessor 0 (counted 4%Z)) fresh_process)).
Proof.
  apply (retry_event_gives_up_at_the_fourth (H := calm) no_rabbitmq "q" 0 ∅ fresh_process).
  - reflexivity.
  - reflexivity.
Defined.

Lemma reconnect_without_channel_is_not_repaired_witness :
  let c := fst simple_connected in
  let w := snd simple_connected in
  let r := Simple._reconnect (H := failing_at 3 AMQPChannelError) (c, w) in
  let c1 := fst (snd r) in
  fst r = Raise AMQPChannelError /\
  Simple.connection c1 = Some (tick w) /\ Simple.channel c1 = None /\
  Simple.queues c1 = ∅ /\
  forall (w2 : World) (q : string) (body : gmap string pyval),
    is_open_at (Env := failing_at 3 AMQPChannelError) (tick w2) = true ->
    Simple.json_publish (H := failing_at 3 AMQPChannelError) q body (c1, w2)
    = (Raise AttributeError,
       (c1, log_action
              (Enter_publish q (ujson_dumps (Env := failing_at 3 AMQPChannelError) body))
              w2)).
Proof.
  apply (reconnect_without_channel_is_not_repaired (H := failing_at 3 AMQPChannelError)
           (fst simple_connected) (snd simple_connected) AMQPChannelError).
  - reflexivity.
  - reflexivity.
Defined.

Lemma json_drain_queue_decodes_after_draining_witness :
  let c := fst one_malformed in
  let w := snd one_malformed in
  let msgs := default [] (bqueues w !! "q") in
  exists c' w',
    SimpleJson.json_drain_queue (H := calm) one_byte 4 "q" (c, w)
    = (match SimpleJson.decode_all one_byte msgs with
       | Ok l => Ok (Some l)
       | Raise e => Raise e
       end, (c', w')) /\
    (forall l, SimpleJson.decode_all one_byte msgs = Ok l ->
               Forall2 (fun m x => one_byte m = Ok x) msgs l) /\
    bqueues w' !! "q" = Some [] /\
    (forall t, next_tag w <= t < next_tag w + length msgs -> unacked w' !! t = None).
Proof.
  apply (json_drain_queue_decodes_after_draining (H := calm) one_byte "q"
           (fst one_malformed) (snd one_malformed) 4).
  - intros n. reflexivity.
  - right. by eexists.
  - simpl. intros Hin. by apply elem_of_empty in Hin.
  - vm_compute. lia.
Defined.

Lemma published_bodies_are_drained_in_order_witness :
  let c := fst simple_connected in
  let w := snd simple_connected in
  let old := default [] (bqueues w !! "q") in
  exists s',
    (for_each [[Byte.x61]; [Byte.x62]] (Simple.publish (H := calm) "q") ;;
     Simple.drain_queue (H := calm) 3 "q") (c, w)
    = (Ok (Some (old ++ [[Byte.x61]; [Byte.x62]])), s') /\
    bqueues (snd s') !! "q" = Some [].
Proof.
  apply (published_bodies_are_drained_in_order (H := calm) "q" [[Byte.x61]; [Byte.x62]]
           (fst simple_connected) (snd simple_connected) 3).
  - intros n. reflexivity.
  - intros n. reflexivity.
  - by eexists.
  - by eexists.
  - simpl. intros Hin. by apply elem_of_empty in Hin.
  - vm_compute. lia.
Defined.

Lemma process_publishes_on_one_connection_witness :
  exists p',
    for_each [∅; ∅]
      (fun ev => Queue.queue_json_publish (H := calm) with_rabbitmq "q" ev None)
      fresh_process
    = (Ok tt, p') /\
    Queue.app_trace p' = Queue.app_trace fresh_process /\
    trace (Queue.world p')
    = trace (Queue.world fresh_process)
      ++ [Connect (Some 0%Z) (Some 300%Z); OpenChannel;
          Log INFO "SimpleQueueClient connected"]
      ++ [Enter_publish "q" (ujson_dumps (Env := calm) ∅); QueueDeclare "q";
          BasicPublish "q" (ujson_dumps (Env := calm) ∅);
          StatsdIncr ("rabbitmq.publish." +:+ "q")]
      ++ ([∅] ≫= publish_actions (H := calm) "q").
Proof.
  apply (process_publishes_on_one_connection (H := calm) with_rabbitmq "q" None ∅ [∅]
           fresh_process).
  - reflexivity.
  - reflexivity.
  - intros n. reflexivity.
  - intros n. reflexivity.
  - reflexivity.
Defined.

Lemma on_open_list_only_grows_witness :
  let s := tornado_connecting in
  let s' := snd (Tornado.apply_call (H := calm) (Tornado.CallEnsureQueue "q" 0) s) in
  exists l, Tornado._on_open_cbs (fst s') = Tornado._on_open_cbs (fst s) ++ l /\ True.
Proof.
  intros s s'.
  apply (on_open_list_only_grows (H := calm)
           (Tornado.FromApp (Tornado.CallEnsureQueue "q" 0)) s s').
  reflexivity.
Defined.

Lemma buffered_calls_are_run_again_witness :
  let items := [("events", Tornado.CbPublish "events" [Byte.x61])] in
  let pairs := Simple.registry_pairs (Tornado.consumers (fst tornado_backlog)) in
  exists s' l,
    steps (H := calm)
      ([Tornado.EvTimer; Tornado.EvOpened; Tornado.EvChannelOpened]
         ++ replicate (length items + length pairs) Tornado.EvDeclareOk) tornado_backlog
    = Some s' /\
    Tornado._on_open_cbs (fst s') = buffered items /\
    trace (snd s') = trace (snd tornado_backlog) ++ l /\
    forall q d, (q, Tornado.CbPublish q d) ∈ items -> BasicPublish q d ∈ l.
Proof.
  apply (buffered_calls_are_run_again (H := calm) (fst tornado_backlog)
           (snd tornado_backlog) 0 [("events", Tornado.CbPublish "events" [Byte.x61])]).
  - intros n. reflexivity.
  - reflexivity.
  - reflexivity.
  - reflexivity.
Defined.

(** ** The event-driven client: the retry loop *)

Section RetryLoopFacts.
Context `{Env}.
Import Tornado.

(** One failed attempt and the timer it sets. *)
Lemma failed_attempt_round c w b :
  (forall n, faults n = None) ->
  connection c = Some {| phase := Connecting; channel_pending := b |} ->
  exists c' w',
    steps [EvOpenError; EvTimer] (c, w) = Some (c', w') /\
    connection c' = Some {| phase := Connecting; channel_pending := false |} /\
    _connection_failure_count c' = (_connection_failure_count c + 1)%Z /\
    rabbitmq_heartbeat c' = rabbitmq_heartbeat c /\
    consumers c' = consumers c /\ _on_open_cbs c' = _on_open_cbs c /\
    timers w' = timers w /\
    trace w' = trace w ++ failed_attempt c (_connection_failure_count c + 1).
Proof.
  intros Hnf Hc. cbn [steps]. unfold step at 1. simpl. rewrite Hc.
  unfold _on_connection_open_error, set_phase, call_later_reconnect, bind, modc, getc,
    liftW, emit, modify. simpl.
  unfold step. simpl.
  unfold _reconnect, _connect, bind, liftW, emit, modify, modc, getc, request. simpl.
  destruct (CONNECTION_FAILURES_BEFORE_NOTIFY <? _connection_failure_count c + 1)%Z eqn:E;
    simpl; rewrite Hnf; simpl; eexists _, _; (split; [reflexivity|]); simpl;
    split_and!; try done; unfold failed_attempt, attempt_level, reconnect_actions;
    rewrite E; simpl; by rewrite <- !app_assoc.
Qed.

(** After a failed attempt the client tries again two seconds later, as long
    as attempts fail: with [n] failures counted so far, [k] more failed
    attempts in a row leave the count at [n + k]; the attempt that brings the
    count to [m] is logged at WARNING while [m] is at most 10 and at CRITICAL
    from the eleventh on; each sets one timer, whose firing starts one new
    connection attempt; the registry and the on-open list are kept. *)
Theorem failed_attempts_escalate (k : nat) (c : TornadoQueueClient) (w : World)
    (b : bool) :
  (forall n, faults n = None) ->
  connection c = Some {| phase := Connecting; channel_pending := b |} ->
  let n := _connection_failure_count c in
  exists c' w',
    steps (failed_attempts k) (c, w) = Some (c', w') /\
    _connection_failure_count c' = (n + Z.of_nat k)%Z /\
    consumers c' = consumers c /\ _on_open_cbs c' = _on_open_cbs c /\
    timers w' = timers w /\
    trace w' = trace w ++ (seq 1 k ≫= fun i => failed_attempt c (n + Z.of_nat i)).
Proof.
  revert c w b. induction k as [|k IH]; intros c w b Hnf Hc n.
  - exists c, w. simpl. rewrite app_nil_r. split_and!; try done. subst n. lia.
  - destruct (failed_attempt_round c w b Hnf Hc)
      as (c1 & w1 & E1 & Hc1 & Hn1 & Hh1 & Hr1 & Hb1 & Ht1 & T1).
    destruct (IH c1 w1 false Hnf Hc1) as (c' & w' & E & Hn' & Hr' & Hb' & Ht' & T').
    exists c', w'. split_and!.
    + change (failed_attempts (S k)) with ([EvOpenError; EvTimer] ++ failed_attempts k).
      rewrite steps_app, E1. exact E.
    + rewrite Hn', Hn1. subst n. lia.
    + by rewrite Hr'.
    + by rewrite Hb'.
    + by rewrite Ht'.
    + rewrite T', T1. rewrite <- app_assoc. f_equal.
      change (seq 1 (S k)) with (1 :: seq 2 k). rewrite bind_cons. f_equal.
      rewrite <- (fmap_S_seq 1 k), list_fmap_bind.
      apply list_bind_ext; [|done]. intros i. simpl.
      unfold failed_attempt, reconnect_actions, _get_parameters.
      rewrite Hh1, Hn1. subst n.
      by replace (_connection_failure_count c + 1 + Z.of_nat i)%Z
        with (_connection_failure_count c + Z.of_nat (S i))%Z by lia.
Qed.

End RetryLoopFacts.

(** ** Publishing through the module inside Tornado *)

Section TornadoProcessFacts.
Context `{Env}.
Variable conf : Queue.settings.
Import Queue.

(** Inside Tornado the first [queue_json_publish] of a process does not
    wait for the broker: it constructs the event-driven client, which asks
    for a connection, and returns with the message on the on-open list; no
    request but the connection request has gone out, and no application code
    is called. *)
Theorem first_publish_inside_tornado_is_buffered (q : string)
    (f : option processor) (ev : gmap string pyval) (p : process) :
  USING_RABBITMQ conf = true -> RUNNING_INSIDE_TORNADO conf = true ->
  (forall n, faults n = None) ->
  queue_client p = None ->
  exists c',
    fst (queue_json_publish conf q ev f p) = Ok tt /\
    queue_client (snd (queue_json_publish conf q ev f p)) = Some (TornadoClient c') /\
    Tornado.channel c' = None /\
    Tornado._on_open_cbs c'
    = [Tornado.CbEnsure q (Tornado.CbPublish q (ujson_dumps ev))] /\
    app_trace (snd (queue_json_publish conf q ev f p)) = app_trace p /\
    trace (world (snd (queue_json_publish conf q ev f p)))
    = trace (world p)
      ++ [Log INFO "Beginning TornadoQueueClient connection"; Connect None None;
          Enter_publish q (ujson_dumps ev)].
Proof.
  intros Hr Ht Hnf Hcl.
  set (c0 := Tornado.set_failure_count 0
               (Tornado.set_on_open_cbs []
                  (Tornado.set_connection
                     (Some {| Tornado.phase := Tornado.Connecting;
                              Tornado.channel_pending := false |})
                     {| Tornado.queues := ∅; Tornado.connection := None;
                        Tornado.channel := None; Tornado.consumers := ∅;
                        Tornado.rabbitmq_heartbeat := None; Tornado._on_open_cbs := [];
                        Tornado._connection_failure_count := 0 |}))).
  set (w0 := incr_tick (log_action (Connect None None)
               (log_action (Log INFO "Beginning TornadoQueueClient connection") (world p)))).
  assert (Eg : get_queue_client conf p
               = (Ok (Some (TornadoClient c0)),
                  set_client (Some (TornadoClient c0)) (set_world w0 p))).
  { unfold get_queue_client. unfold bind at 1. unfold get at 1.
    rewrite Hcl, Ht, Hr. cbn [andb].
    unfold construct, Tornado.__init__. unfold bind at 1. cbv beta.
    unfold Tornado._connect, bind, liftW, emit, modify, getc, modc, request, get, ret.
    simpl. rewrite Hnf. reflexivity. }
  assert (Ep : Tornado.json_publish q ev (c0, w0)
               = (Ok tt, (Tornado.set_on_open_cbs
                            [Tornado.CbEnsure q (Tornado.CbPublish q (ujson_dumps ev))] c0,
                          log_action (Enter_publish q (ujson_dumps ev)) w0))).
  { assert (Epub : Tornado.publish q (ujson_dumps ev) (c0, w0)
                   = (Ok tt, (Tornado.set_on_open_cbs
                                [Tornado.CbEnsure q (Tornado.CbPublish q (ujson_dumps ev))] c0,
                              log_action (Enter_publish q (ujson_dumps ev)) w0))).
    { unfold Tornado.publish. rewrite bind_emit. simpl.
      unfold Tornado.ensure_queue, Tornado.ensure_queue_with. rewrite bind_getc. simpl.
      rewrite decide_False by apply not_elem_of_empty. done. }
    unfold Tornado.json_publish, try_except. unfold bind at 1.
    erewrite bind_ok by exact Epub. done. }
  assert (E : queue_json_publish conf q ev f p
              = (Ok tt,
                 set_client
                   (Some (TornadoClient
                      (Tornado.set_on_open_cbs
                         [Tornado.CbEnsure q (Tornado.CbPublish q (ujson_dumps ev))] c0)))
                   (set_world (log_action (Enter_publish q (ujson_dumps ev)) w0)
                      (set_client (Some (TornadoClient c0)) (set_world w0 p))))).
  { unfold queue_json_publish. rewrite Hr. unfold client_json_publish.
    erewrite bind_ok by exact Eg. unfold on_client. cbv zeta.
    cbn [world set_client set_world]. rewrite Ep. done. }
  rewrite E. eexists. split_and!; try done. simpl. by rewrite <- !app_assoc.
Qed.

End TornadoProcessFacts.

Lemma failed_attempts_escalate_witness :
  let c := Tornado.set_failure_count 9 (fst tornado_connecting) in
  let w := snd tornado_connecting in
  let n := Tornado._connection_failure_count c in
  exists c' w',
    steps (H := calm) (failed_attempts 2) (c, w) = Some (c', w') /\
    Tornado._connection_failure_count c' = (n + Z.of_nat 2)%Z /\
    Tornado.consumers c' = Tornado.consumers c /\
    Tornado._on_open_cbs c' = Tornado._on_open_cbs c /\
    timers w' = timers w /\
    trace w' = trace w ++ (seq 1 2 ≫= fun i => failed_attempt c (n + Z.of_nat i)).
Proof.
  apply (failed_attempts_escalate (H := calm) 2
           (Tornado.set_failure_count 9 (fst tornado_connecting))
           (snd tornado_connecting) false).
  - intros n. reflexivity.
  - reflexivity.
Defined.

Lemma first_publish_inside_tornado_is_buffered_witness :
  exists c',
    fst (Queue.queue_json_publish (H := calm) inside_tornado "q" ∅ None fresh_process)
    = Ok tt /\
    Queue.queue_client
      (snd (Queue.queue_json_publish (H := calm) inside_tornado "q" ∅ None fresh_process))
    = Some (Queue.TornadoClient c') /\
    Tornado.channel c' = None /\
    Tornado._on_open_cbs c'
    = [Tornado.CbEnsure "q" (Tornado.CbPublish "q" (ujson_dumps (Env := calm) ∅))] /\
    Queue.app_trace
      (snd (Queue.queue_json_publish (H := calm) inside_tornado "q" ∅ None fresh_process))
    = Queue.app_trace fresh_process /\
    trace (Queue.world
      (snd (Queue.queue_json_publish (H := calm) inside_tornado "q" ∅ None fresh_process)))
    = trace (Queue.world fresh_process)
      ++ [Log INFO "Beginning TornadoQueueClient connection"; Connect None None;
          Enter_publish "q" (ujson_dumps (Env := calm) ∅)].
Proof.
  apply (first_publish_inside_tornado_is_buffered (H := calm) inside_tornado "q" None ∅
           fresh_process).
  - reflexivity.
  - reflexivity.
  - intros n. reflexivity.
  - reflexivity.
Defined.
